(** * block_drop: a shallow embedding of the game-state engine

    The development follows the Python sources:
    - [src/block_drop.py]: [BlockDrop] (a piece) and [BlockDropGenerator];
    - [src/board.py]: [Board];
    - [src/game.py]: [TetrisGame] (without the renderer and the key-repeat
      bookkeeping of [handle_input]).

    Python integers are [Z].  Python lists are Rocq lists read and written
    through the helpers of [Module Py], which raise [IndexError] exactly where
    Python does (and accept negative indices the way Python does). *)

From Stdlib Require Import ZArith List String Ascii Lia Bool Permutation.
From stdpp Require Import base option list gmap.
Import ListNotations.

Local Open Scope Z_scope.

(** ** Outcomes of a Python call *)

(** A call either returns ([Ok]), raises [IndexError], or (for the two
    [while] loops of the program, which are unrolled with a fuel argument)
    exhausts its fuel ([OutOfFuel]); the last outcome belongs to the model
    only and is shown not to occur once the fuel is large enough. *)
Inductive res (A : Type) : Type :=
| Ok (a : A)
| IndexError
| OutOfFuel.
Arguments Ok {A} a.
Arguments IndexError {A}.
Arguments OutOfFuel {A}.

#[global] Instance res_ret : MRet res := fun A a => Ok a.
#[global] Instance res_bind : MBind res := fun A B f m =>
  match m with
  | Ok a => f a
  | IndexError => IndexError
  | OutOfFuel => OutOfFuel
  end.

Module Py.

(** [normalize l i]: the position that index [i] denotes in [l]; negative
    indices count from the end, anything else out of range raises. *)
Definition normalize {A} (l : list A) (i : Z) : res nat :=
  let n := Z.of_nat (length l) in
  if (0 <=? i) && (i <? n) then Ok (Z.to_nat i)
  else if (- n <=? i) && (i <? 0) then Ok (Z.to_nat (n + i))
  else IndexError.

(** [l[i]] *)
Definition getitem {A} (l : list A) (i : Z) : res A :=
  k ← normalize l i;
  match l !! k with
  | Some a => Ok a
  | None => IndexError
  end.

(** [l[i] = v] *)
Definition setitem {A} (l : list A) (i : Z) (v : A) : res (list A) :=
  k ← normalize l i; Ok (<[k:=v]> l).

(** [del l[i]] *)
Definition delitem {A} (l : list A) (i : Z) : res (list A) :=
  k ← normalize l i; Ok (delete k l).

(** [l.insert(0, v)] *)
Definition insert0 {A} (l : list A) (v : A) : list A := v :: l.

(** [l.pop()]: removes and returns the last element. *)
Definition pop {A} (l : list A) : res (A * list A) :=
  match rev l with
  | [] => IndexError
  | a :: r => Ok (a, rev r)
  end.

(** [range(n)] *)
Definition range (n : Z) : list Z := map Z.of_nat (seq 0 (Z.to_nat n)).

(** [enumerate(l)] *)
Definition enumerate {A} (l : list A) : list (Z * A) :=
  imap (fun i a => (Z.of_nat i, a)) l.

End Py.

(** ** block_drop.py: pieces *)

(** The seven piece types, the keys ['I'], ['O'], ['T'], ['S'], ['Z'], ['J'],
    ['L'] of [SHAPES]. *)
Inductive Kind : Type := KI | KO | KT | KS | KZ | KJ | KL.

#[global] Instance Kind_eq_dec : EqDecision Kind.
Proof. solve_decision. Defined.

(** [BlockDrop.SHAPES] *)
Definition SHAPES (k : Kind) : list (list string) :=
  match k with
  | KI => [ ["...."; "IIII"; "...."; "...."];
            ["..I."; "..I."; "..I."; "..I."] ]
  | KO => [ ["OO"; "OO"] ]
  | KT => [ ["..."; "TTT"; ".T."];
            ["..."; ".T."; "TT."; ".T."];
            ["..."; ".T."; "TTT"; "..."];
            ["..."; ".T."; ".TT"; ".T."] ]
  | KS => [ ["..."; ".SS"; "SS."];
            ["..."; ".S."; ".SS"; "..S"] ]
  | KZ => [ ["..."; "ZZ."; ".ZZ"];
            ["..."; "..Z"; ".ZZ"; ".Z."] ]
  | KJ => [ ["..."; "JJJ"; "..J"];
            ["..."; ".J."; ".J."; "JJ."];
            ["..."; "J.."; "JJJ"; "..."];
            ["..."; ".JJ"; ".J."; ".J."] ]
  | KL => [ ["..."; "LLL"; "L.."];
            ["..."; "LL."; ".L."; ".L."];
            ["..."; "..L"; "LLL"; "..."];
            ["..."; ".L."; ".L."; ".LL"] ]
  end%string.

(** A [BlockDrop] object.  Its attribute [shapes] is [SHAPES[piece_type]],
    set by the constructor and never assigned again. *)
Record BlockDrop : Type := mkBlockDrop {
  piece_type : Kind;
  x : Z;
  y : Z;
  rotation : Z
}.

#[global] Instance BlockDrop_eq_dec : EqDecision BlockDrop.
Proof. solve_decision. Defined.

(** [BlockDrop.__init__] *)
Definition BlockDrop_init (k : Kind) (x0 y0 : Z) : BlockDrop :=
  mkBlockDrop k x0 y0 0.

Definition shapes (p : BlockDrop) : list (list string) := SHAPES (piece_type p).

(** [len(self.shapes)] *)
Definition num_shapes (p : BlockDrop) : Z := Z.of_nat (length (shapes p)).

(** The index [self.rotation % len(self.shapes)].  The length is positive,
    where Python's [%] and [Z.modulo] agree (the sign of the divisor). *)
Definition shape_index (p : BlockDrop) : Z := rotation p mod num_shapes p.

(** [BlockDrop.current_shape] *)
Definition current_shape (p : BlockDrop) : res (list string) :=
  Py.getitem (shapes p) (shape_index p).

(** [cell != '.' and cell != ' '] *)
Definition filled (c : ascii) : bool :=
  negb (Ascii.eqb c "."%char) && negb (Ascii.eqb c " "%char).

(** The cells of one row of a shape, at origin [(ox, oy)]. *)
Definition row_cells (ox oy : Z) (row_idx : Z) (row : string) : list (Z * Z) :=
  omap (fun '(col_idx, cell) =>
          if filled cell then Some (ox + col_idx, oy + row_idx) else None)
       (Py.enumerate (list_ascii_of_string row)).

Definition shape_cells (ox oy : Z) (shape : list string) : list (Z * Z) :=
  concat (map (fun '(row_idx, row) => row_cells ox oy row_idx row)
              (Py.enumerate shape)).

(** [BlockDrop.get_cells] *)
Definition get_cells (p : BlockDrop) : res (list (Z * Z)) :=
  shape ← current_shape p; Ok (shape_cells (x p) (y p) shape).

(** [BlockDrop.get_relative_cells] *)
Definition get_relative_cells (p : BlockDrop) : res (list (Z * Z)) :=
  shape ← current_shape p; Ok (shape_cells 0 0 shape).

(** [BlockDrop.rotate_clockwise] *)
Definition rotate_clockwise (p : BlockDrop) : BlockDrop :=
  mkBlockDrop (piece_type p) (x p) (y p) ((rotation p + 1) mod num_shapes p).

(** [BlockDrop.rotate_counterclockwise] *)
Definition rotate_counterclockwise (p : BlockDrop) : BlockDrop :=
  mkBlockDrop (piece_type p) (x p) (y p) ((rotation p - 1) mod num_shapes p).

(** [BlockDrop.move] *)
Definition move (p : BlockDrop) (dx dy : Z) : BlockDrop :=
  mkBlockDrop (piece_type p) (x p + dx) (y p + dy) (rotation p).

(** [BlockDrop.copy] *)
Definition copy (p : BlockDrop) : BlockDrop :=
  mkBlockDrop (piece_type p) (x p) (y p) (rotation p).

(** Assignments to the attributes [x] and [y] of a piece. *)
Definition set_x (p : BlockDrop) (v : Z) : BlockDrop :=
  mkBlockDrop (piece_type p) v (y p) (rotation p).
Definition set_y (p : BlockDrop) (v : Z) : BlockDrop :=
  mkBlockDrop (piece_type p) (x p) v (rotation p).

(** [BlockDrop.get_width] and [BlockDrop.get_height] *)
Definition get_width (p : BlockDrop) : res Z :=
  shape ← current_shape p;
  match shape with
  | [] => Ok 0
  | row :: _ => Ok (Z.of_nat (String.length row))
  end.
Definition get_height (p : BlockDrop) : res Z :=
  shape ← current_shape p; Ok (Z.of_nat (length shape)).

(** The two rotation calls, and a sequence of them applied in order. *)
Inductive Rot : Type := CW | CCW.

Definition rotate (r : Rot) (p : BlockDrop) : BlockDrop :=
  match r with
  | CW => rotate_clockwise p
  | CCW => rotate_counterclockwise p
  end.

Definition rotate_all (rs : list Rot) (p : BlockDrop) : BlockDrop :=
  fold_left (fun q r => rotate r q) rs p.

(** ** board.py: the board *)

(** The grid is indexed [grid[row][col]]; a cell is [None] or a piece type. *)
Abbreviation Grid := (list (list (option Kind))).

Record Board : Type := mkBoard {
  width : Z;
  height : Z;
  grid : Grid;
  cleared_lines : Z
}.

(** [[None for _ in range(width)]] *)
Definition empty_row (w : Z) : list (option Kind) := replicate (Z.to_nat w) None.

(** [[[None for _ in range(width)] for _ in range(height)]] *)
Definition empty_grid (w h : Z) : Grid := replicate (Z.to_nat h) (empty_row w).

(** [Board.__init__] *)
Definition Board_init (w h : Z) : Board := mkBoard w h (empty_grid w h) 0.

Definition BOARD_WIDTH : Z := 10.
Definition BOARD_HEIGHT : Z := 20.

Definition set_grid (b : Board) (g : Grid) : Board :=
  mkBoard (width b) (height b) g (cleared_lines b).

(** [cell is not None] *)
Definition is_not_None (c : option Kind) : bool :=
  match c with Some _ => true | None => false end.

(** The loop of [Board.is_valid_position] over the cells of the piece. *)
Fixpoint valid_cells (b : Board) (cells : list (Z * Z)) : res bool :=
  match cells with
  | [] => Ok true
  | (cx, cy) :: rest =>
      if (cx <? 0) || (cx >=? width b) || (cy >=? height b) then Ok false
      else
        hit ← (if cy >=? 0
               then row ← Py.getitem (grid b) cy;
                    c ← Py.getitem row cx;
                    Ok (is_not_None c)
               else Ok false);
        if (hit : bool) then Ok false else valid_cells b rest
  end.

(** [Board.is_valid_position] *)
Definition is_valid_position (b : Board) (p : BlockDrop) : res bool :=
  cells ← get_cells p; valid_cells b cells.

(** The loop of [Board.place_piece]: [self.grid[y][x] = piece.piece_type]
    for the cells inside the board.  The rows of the grid are distinct list
    objects, so writing through [self.grid[y]] changes that row only. *)
Fixpoint write_cells (w h : Z) (k : Kind) (cells : list (Z * Z)) (g : Grid)
  : res Grid :=
  match cells with
  | [] => Ok g
  | (cx, cy) :: rest =>
      if (0 <=? cy) && (cy <? h) && (0 <=? cx) && (cx <? w) then
        row ← Py.getitem g cy;
        row' ← Py.setitem row cx (Some k);
        g' ← Py.setitem g cy row';
        write_cells w h k rest g'
      else write_cells w h k rest g
  end.

(** [Board.place_piece] *)
Definition place_piece (b : Board) (p : BlockDrop) : res (Board * bool) :=
  ok ← is_valid_position b p;
  if (ok : bool) then
    cells ← get_cells p;
    g ← write_cells (width b) (height b) (piece_type p) cells (grid b);
    Ok (set_grid b g, true)
  else Ok (b, false).

(** [all(cell is not None for cell in row)] *)
Definition row_complete (row : list (option Kind)) : bool :=
  forallb is_not_None row.

(** First loop of [Board.clear_lines]: the indices of the completed rows. *)
Fixpoint find_completed (g : Grid) (ys : list Z) : res (list Z) :=
  match ys with
  | [] => Ok []
  | cy :: rest =>
      row ← Py.getitem g cy;
      tl ← find_completed g rest;
      Ok (if row_complete row then cy :: tl else tl)
  end.

(** Second loop of [Board.clear_lines]: for each index, [del self.grid[y]]
    and then [self.grid.insert(0, [None, ...])]. *)
Fixpoint remove_lines (w : Z) (ys : list Z) (g : Grid) : res Grid :=
  match ys with
  | [] => Ok g
  | cy :: rest =>
      g1 ← Py.delitem g cy;
      remove_lines w rest (Py.insert0 g1 (empty_row w))
  end.

(** [Board.clear_lines] *)
Definition clear_lines (b : Board) : res (Board * Z) :=
  lines_to_clear ← find_completed (grid b) (Py.range (height b));
  g ← remove_lines (width b) (rev lines_to_clear) (grid b);
  let lines_cleared := Z.of_nat (length lines_to_clear) in
  Ok (mkBoard (width b) (height b) g (cleared_lines b + lines_cleared),
      lines_cleared).

(** [Board.is_game_over] *)
Definition is_game_over (b : Board) : res bool :=
  row ← Py.getitem (grid b) 0; Ok (existsb is_not_None row).

(** The [while] loop of [Board.get_drop_position], unrolled [fuel] times. *)
Fixpoint drop_loop (fuel : nat) (b : Board) (test_piece : BlockDrop)
  : res BlockDrop :=
  match fuel with
  | O => OutOfFuel
  | S n =>
      ok ← is_valid_position b test_piece;
      if (ok : bool)
      then drop_loop n b (set_y test_piece (y test_piece + 1))
      else Ok test_piece
  end.

(** [Board.get_drop_position] *)
Definition get_drop_position (fuel : nat) (b : Board) (p : BlockDrop) : res Z :=
  test_piece ← drop_loop fuel b (copy p); Ok (y test_piece - 1).

(** [Board.get_cell_type] *)
Definition get_cell_type (b : Board) (cx cy : Z) : res (option Kind) :=
  if (0 <=? cx) && (cx <? width b) && (0 <=? cy) && (cy <? height b)
  then row ← Py.getitem (grid b) cy; Py.getitem row cx
  else Ok None.

(** [Board.get_shadow_cells] *)
Definition get_shadow_cells (fuel : nat) (b : Board) (p : BlockDrop)
  : res (list (Z * Z)) :=
  let shadow_piece := copy p in
  dy ← get_drop_position fuel b p;
  get_cells (set_y shadow_piece dy).

(** [Board.clear_board] *)
Definition clear_board (b : Board) : Board :=
  mkBoard (width b) (height b) (empty_grid (width b) (height b)) 0.

(** The loop of [Board.get_height_at_column] over the rows. *)
Fixpoint height_scan (b : Board) (col : Z) (rows : list Z) : res Z :=
  match rows with
  | [] => Ok 0
  | row :: rest =>
      r ← Py.getitem (grid b) row;
      c ← Py.getitem r col;
      if is_not_None c then Ok (height b - row) else height_scan b col rest
  end.

(** [Board.get_height_at_column] *)
Definition get_height_at_column (b : Board) (col : Z) : res Z :=
  height_scan b col (Py.range (height b)).

(** The inner loop of [Board.count_holes] over the rows of one column. *)
Fixpoint holes_scan (b : Board) (col : Z) (rows : list Z)
    (block_found : bool) (holes : Z) : res Z :=
  match rows with
  | [] => Ok holes
  | row :: rest =>
      r ← Py.getitem (grid b) row;
      c ← Py.getitem r col;
      if is_not_None c then holes_scan b col rest true holes
      else if block_found then holes_scan b col rest block_found (holes + 1)
      else holes_scan b col rest block_found holes
  end.

Fixpoint holes_cols (b : Board) (cols : list Z) (holes : Z) : res Z :=
  match cols with
  | [] => Ok holes
  | col :: rest =>
      h ← holes_scan b col (Py.range (height b)) false holes;
      holes_cols b rest h
  end.

(** [Board.count_holes] *)
Definition count_holes (b : Board) : res Z :=
  holes_cols b (Py.range (width b)) 0.

(** The class invariant of [Board]: the grid has [height] rows of [width]
    cells, as built by the constructor ([range] of a negative number is
    empty). *)
Definition wf_grid (w h : Z) (g : Grid) : Prop :=
  length g = Z.to_nat h /\
  Forall (fun row => length row = Z.to_nat w) g.

Definition wf_board (b : Board) : Prop :=
  wf_grid (width b) (height b) (grid b).

(** The content of the grid at column [cx] of row [cy], for coordinates
    that are not negative. *)
Definition cell_at (g : Grid) (cx cy : Z) : option (option Kind) :=
  row ← g !! Z.to_nat cy; row !! Z.to_nat cx.

(** ** constants.py *)

Definition SCORE_SINGLE : Z := 100.
Definition SCORE_DOUBLE : Z := 300.
Definition SCORE_TRIPLE : Z := 500.
Definition SCORE_TETRIS : Z := 800.
Definition SCORE_SOFT_DROP : Z := 1.
Definition LINES_PER_LEVEL : Z := 10.
Definition INITIAL_FALL_SPEED : Z := 500.
Definition MOVE_REPEAT_DELAY : Z := 150.
Definition MOVE_REPEAT_INTERVAL : Z := 50.

(** [BlockDropGenerator.PIECE_TYPES] *)
Definition PIECE_TYPES : list Kind := [KI; KO; KT; KS; KZ; KJ; KL].

(** ** block_drop.py: the generator, and game.py: the engine *)

Section Engine.

(** The process-wide state of Python's [random] module, and
    [random.shuffle] as a function of it. *)
Context {RNG : Type}.
Variable shuffle : RNG -> list Kind -> RNG * list Kind.

(** [int(INITIAL_FALL_SPEED * (SPEED_INCREASE ** (level - 1)))], a
    floating-point computation that is kept abstract. *)
Variable fall_speed_at : Z -> Z.

(** A [BlockDropGenerator] object. *)
Record BlockDropGenerator : Type := mkGenerator { bag : list Kind }.

(** [BlockDropGenerator.refill_bag] *)
Definition refill_bag (r : RNG) : RNG * BlockDropGenerator :=
  let '(r', l) := shuffle r PIECE_TYPES in (r', mkGenerator l).

(** [BlockDropGenerator.__init__] *)
Definition Generator_init (r : RNG) : RNG * BlockDropGenerator := refill_bag r.

(** [BlockDropGenerator.get_next_piece] *)
Definition get_next_piece (r : RNG) (g : BlockDropGenerator) (x0 y0 : Z)
  : res (RNG * BlockDropGenerator * BlockDrop) :=
  let '(r1, g1) := match bag g with
                   | [] => refill_bag r
                   | _ :: _ => (r, g)
                   end in
  '(k, rest) ← Py.pop (bag g1);
  Ok (r1, mkGenerator rest, BlockDrop_init k x0 y0).

(** [n] successive calls of [get_next_piece]; the piece types drawn. *)
Fixpoint draw (n : nat) (r : RNG) (g : BlockDropGenerator)
  : res (RNG * BlockDropGenerator * list Kind) :=
  match n with
  | O => Ok (r, g, [])
  | S m =>
      '(r1, g1, p) ← get_next_piece r g 4 0;
      '(r2, g2, ks) ← draw m r1 g1;
      Ok (r2, g2, piece_type p :: ks)
  end.

(** The state of a [TetrisGame], without the renderer and the input state
    ([keys_pressed], [key_repeat_timers]) that only [handle_input] uses.
    The attributes [last_move_time] and [move_delay], which are written by
    the constructor and never read, are left out too.  [rng] is the state
    of the random module. *)
Record TetrisGame : Type := mkGame {
  board : Board;
  piece_generator : BlockDropGenerator;
  rng : RNG;
  current_piece : option BlockDrop;
  next_piece : option BlockDrop;
  score : Z;
  level : Z;
  lines_cleared : Z;
  game_over : bool;
  paused : bool;
  last_fall_time : Z;
  fall_speed : Z
}.

Definition set_board (g : TetrisGame) (b : Board) : TetrisGame :=
  mkGame b (piece_generator g) (rng g) (current_piece g) (next_piece g)
    (score g) (level g) (lines_cleared g) (game_over g) (paused g)
    (last_fall_time g) (fall_speed g).

Definition set_pieces (g : TetrisGame) (r : RNG) (gen : BlockDropGenerator)
    (cur next : option BlockDrop) : TetrisGame :=
  mkGame (board g) gen r cur next
    (score g) (level g) (lines_cleared g) (game_over g) (paused g)
    (last_fall_time g) (fall_speed g).

Definition set_current_piece (g : TetrisGame) (cur : option BlockDrop)
  : TetrisGame :=
  set_pieces g (rng g) (piece_generator g) cur (next_piece g).

Definition set_score (g : TetrisGame) (s : Z) : TetrisGame :=
  mkGame (board g) (piece_generator g) (rng g) (current_piece g) (next_piece g)
    s (level g) (lines_cleared g) (game_over g) (paused g)
    (last_fall_time g) (fall_speed g).

Definition set_level (g : TetrisGame) (l fs : Z) : TetrisGame :=
  mkGame (board g) (piece_generator g) (rng g) (current_piece g) (next_piece g)
    (score g) l (lines_cleared g) (game_over g) (paused g)
    (last_fall_time g) fs.

Definition set_lines_cleared (g : TetrisGame) (n : Z) : TetrisGame :=
  mkGame (board g) (piece_generator g) (rng g) (current_piece g) (next_piece g)
    (score g) (level g) n (game_over g) (paused g)
    (last_fall_time g) (fall_speed g).

Definition set_game_over (g : TetrisGame) (v : bool) : TetrisGame :=
  mkGame (board g) (piece_generator g) (rng g) (current_piece g) (next_piece g)
    (score g) (level g) (lines_cleared g) v (paused g)
    (last_fall_time g) (fall_speed g).

Definition set_paused (g : TetrisGame) (v : bool) : TetrisGame :=
  mkGame (board g) (piece_generator g) (rng g) (current_piece g) (next_piece g)
    (score g) (level g) (lines_cleared g) (game_over g) v
    (last_fall_time g) (fall_speed g).

Definition set_last_fall_time (g : TetrisGame) (t : Z) : TetrisGame :=
  mkGame (board g) (piece_generator g) (rng g) (current_piece g) (next_piece g)
    (score g) (level g) (lines_cleared g) (game_over g) (paused g)
    t (fall_speed g).

(** [BOARD_WIDTH // 2 - 1] *)
Definition spawn_x : Z := BOARD_WIDTH / 2 - 1.

(** [TetrisGame.spawn_new_piece] *)
Definition spawn_new_piece (g : TetrisGame) : res TetrisGame :=
  '(r1, gen1, cur) ←
     match next_piece g with
     | Some np => Ok (rng g, piece_generator g, set_y (set_x np spawn_x) 0)
     | None => get_next_piece (rng g) (piece_generator g) spawn_x 0
     end;
  '(r2, gen2, next) ← get_next_piece r1 gen1 4 0;
  let g1 := set_pieces g r2 gen2 (Some cur) (Some next) in
  ok ← is_valid_position (board g1) cur;
  if (ok : bool) then Ok g1 else Ok (set_game_over g1 true).

(** [TetrisGame.move_piece] *)
Definition move_piece (g : TetrisGame) (dx dy : Z) : res (TetrisGame * bool) :=
  match current_piece g with
  | None => Ok (g, false)
  | Some cur =>
      if game_over g || paused g then Ok (g, false)
      else
        let test_piece := move (copy cur) dx dy in
        ok ← is_valid_position (board g) test_piece;
        if (ok : bool)
        then Ok (set_current_piece g (Some (move cur dx dy)), true)
        else Ok (g, false)
  end.

(** [rotate_clockwise] or [rotate_counterclockwise], by the flag. *)
Definition rotate_dir (clockwise : bool) (p : BlockDrop) : BlockDrop :=
  if clockwise then rotate_clockwise p else rotate_counterclockwise p.

(** The wall-kick loop of [TetrisGame.rotate_piece]: [test_piece] is the
    rotated copy, [cur] the current piece. *)
Fixpoint wall_kicks (g : TetrisGame) (clockwise : bool) (cur test_piece : BlockDrop)
    (dxs : list Z) : res (TetrisGame * bool) :=
  match dxs with
  | [] => Ok (g, false)
  | dx :: rest =>
      let test1 := set_x test_piece (x cur + dx) in
      ok ← is_valid_position (board g) test1;
      if (ok : bool) then
        let cur1 := rotate_dir clockwise cur in
        Ok (set_current_piece g (Some (set_x cur1 (x cur1 + dx))), true)
      else wall_kicks g clockwise cur (set_x test1 (x cur)) rest
  end.

(** [TetrisGame.rotate_piece] *)
Definition rotate_piece (g : TetrisGame) (clockwise : bool)
  : res (TetrisGame * bool) :=
  match current_piece g with
  | None => Ok (g, false)
  | Some cur =>
      if game_over g || paused g then Ok (g, false)
      else
        let test_piece := rotate_dir clockwise (copy cur) in
        ok ← is_valid_position (board g) test_piece;
        if (ok : bool)
        then Ok (set_current_piece g (Some (rotate_dir clockwise cur)), true)
        else wall_kicks g clockwise cur test_piece [-1; 1; -2; 2]
  end.

(** [TetrisGame.update_score] *)
Definition update_score (g : TetrisGame) (n : Z) : TetrisGame :=
  let base_score :=
    if n =? 1 then SCORE_SINGLE
    else if n =? 2 then SCORE_DOUBLE
    else if n =? 3 then SCORE_TRIPLE
    else if n =? 4 then SCORE_TETRIS
    else 0 in
  set_score g (score g + base_score * level g).

(** [TetrisGame.update_level] *)
Definition update_level (g : TetrisGame) : TetrisGame :=
  let new_level := 1 + lines_cleared g / LINES_PER_LEVEL in
  if new_level >? level g
  then set_level g new_level (fall_speed_at new_level)
  else g.

(** [TetrisGame.lock_piece] *)
Definition lock_piece (g : TetrisGame) : res TetrisGame :=
  match current_piece g with
  | None => Ok g
  | Some cur =>
      '(b1, _) ← place_piece (board g) cur;
      '(b2, n) ← clear_lines b1;
      let g1 := set_board g b2 in
      let g2 :=
        if n >? 0
        then update_level
               (update_score (set_lines_cleared g1 (lines_cleared g1 + n)) n)
        else g1 in
      over ← is_game_over (board g2);
      if (over : bool) then Ok (set_game_over g2 true) else spawn_new_piece g2
  end.

(** The [while self.move_piece(0, 1)] loop of [TetrisGame.hard_drop],
    unrolled [fuel] times. *)
Fixpoint hard_drop_loop (fuel : nat) (g : TetrisGame) (drop_distance : Z)
  : res (TetrisGame * Z) :=
  match fuel with
  | O => OutOfFuel
  | S n =>
      '(g1, moved) ← move_piece g 0 1;
      if (moved : bool) then hard_drop_loop n g1 (drop_distance + 1)
      else Ok (g1, drop_distance)
  end.

(** [TetrisGame.hard_drop]; it returns [None] on every path. *)
Definition hard_drop (fuel : nat) (g : TetrisGame) : res TetrisGame :=
  match current_piece g with
  | None => Ok g
  | Some _ =>
      if game_over g || paused g then Ok g
      else
        '(g1, drop_distance) ← hard_drop_loop fuel g 0;
        lock_piece (set_score g1 (score g1 + drop_distance * 2))
  end.

(** [TetrisGame.soft_drop] *)
Definition soft_drop (g : TetrisGame) : res (TetrisGame * bool) :=
  '(g1, moved) ← move_piece g 0 1;
  if (moved : bool) then Ok (set_score g1 (score g1 + SCORE_SOFT_DROP), true)
  else Ok (g1, false).

(** [TetrisGame.update]; [current_time] is what [pygame.time.get_ticks()]
    returns. *)
Definition update (g : TetrisGame) (current_time : Z) : res TetrisGame :=
  if game_over g || paused g then Ok g
  else if current_time - last_fall_time g >=? fall_speed g then
    '(g1, moved) ← move_piece g 0 1;
    g2 ← (if (moved : bool) then Ok g1 else lock_piece g1);
    Ok (set_last_fall_time g2 current_time)
  else Ok g.

(** [TetrisGame.restart_game] *)
Definition restart_game (g : TetrisGame) : res TetrisGame :=
  let '(r1, gen1) := Generator_init (rng g) in
  let g1 :=
    mkGame (clear_board (board g)) gen1 r1 (current_piece g) (next_piece g)
      0 1 0 false false (last_fall_time g) INITIAL_FALL_SPEED in
  g2 ← spawn_new_piece g1;
  '(r3, gen3, next) ← get_next_piece (rng g2) (piece_generator g2) 4 0;
  Ok (set_pieces g2 r3 gen3 (current_piece g2) (Some next)).

(** [TetrisGame.__init__] *)
Definition TetrisGame_init (r : RNG) : res TetrisGame :=
  let '(r1, gen1) := Generator_init r in
  let g0 :=
    mkGame (Board_init BOARD_WIDTH BOARD_HEIGHT) gen1 r1 None None
      0 1 0 false false 0 INITIAL_FALL_SPEED in
  g1 ← spawn_new_piece g0;
  '(r3, gen3, next) ← get_next_piece (rng g1) (piece_generator g1) 4 0;
  Ok (set_pieces g1 r3 gen3 (current_piece g1) (Some next)).

(** The operations that the input handler and the main loop apply to a
    game: the calls of [handle_input] and [update], and the pause toggle
    [self.paused = not self.paused]. *)
Inductive Op : Type :=
| OpMove (dx dy : Z)
| OpRotate (clockwise : bool)
| OpSoftDrop
| OpHardDrop (fuel : nat)
| OpUpdate (current_time : Z)
| OpPause.

Definition run_op (g : TetrisGame) (o : Op) : res TetrisGame :=
  match o with
  | OpMove dx dy => '(g1, _) ← move_piece g dx dy; Ok g1
  | OpRotate cw => '(g1, _) ← rotate_piece g cw; Ok g1
  | OpSoftDrop => '(g1, _) ← soft_drop g; Ok g1
  | OpHardDrop fuel => hard_drop fuel g
  | OpUpdate t => update g t
  | OpPause => Ok (set_paused g (negb (paused g)))
  end.

Fixpoint run_ops (g : TetrisGame) (os : list Op) : res TetrisGame :=
  match os with
  | [] => Ok g
  | o :: rest => g1 ← run_op g o; run_ops g1 rest
  end.

End Engine.

Arguments TetrisGame : clear implicits.

(** ** game.py: the input handler *)

(** A pygame event, as far as [handle_input] looks at it: a key press or a
    key release with its key code, or an event of another type. *)
Inductive Event : Type :=
| KEYDOWN (key : Z)
| KEYUP (key : Z)
| OTHER_EVENT.

(** The input state of a [TetrisGame]: the set [keys_pressed] and the
    dictionary [key_repeat_timers]. *)
Record InputState : Type := mkInput {
  keys_pressed : gset Z;
  key_repeat_timers : gmap Z Z
}.

Section InputHandler.

Context {RNG : Type}.
Variable shuffle : RNG -> list Kind -> RNG * list Kind.
Variable fall_speed_at : Z -> Z.

(** The key codes [pygame.K_UP], [pygame.K_x], ... of the pygame library. *)
Variables K_UP K_x K_z K_SPACE K_p K_r K_LEFT K_RIGHT K_DOWN : Z.

(** The order in which [list(self.keys_pressed)] lists a set. *)
Variable key_order : gset Z -> list Z.

(** The number of iterations allowed to the loop of [hard_drop]. *)
Variable fuel : nat.

(** The immediate action of a key press. *)
Definition key_down_action (g : TetrisGame RNG) (key : Z)
  : res (TetrisGame RNG) :=
  if (key =? K_UP) || (key =? K_x) then
    '(g1, _) ← rotate_piece g true; Ok g1
  else if key =? K_z then
    '(g1, _) ← rotate_piece g false; Ok g1
  else if key =? K_SPACE then hard_drop shuffle fall_speed_at fuel g
  else if key =? K_p then Ok (set_paused g (negb (paused g)))
  else if (key =? K_r) && game_over g then restart_game shuffle g
  else Ok g.

(** The body of the loop of [handle_input] over the events. *)
Definition handle_event (current_time : Z)
    (st : TetrisGame RNG * InputState) (e : Event)
  : res (TetrisGame RNG * InputState) :=
  let '(g, inp) := st in
  match e with
  | KEYDOWN key =>
      let inp1 :=
        mkInput ({[key]} ∪ keys_pressed inp)
          (<[key := current_time + MOVE_REPEAT_DELAY]> (key_repeat_timers inp)) in
      g1 ← key_down_action g key; Ok (g1, inp1)
  | KEYUP key =>
      Ok (g, mkInput (keys_pressed inp ∖ {[key]})
               (delete key (key_repeat_timers inp)))
  | OTHER_EVENT => Ok (g, inp)
  end.

Fixpoint handle_events (current_time : Z)
    (st : TetrisGame RNG * InputState) (events : list Event)
  : res (TetrisGame RNG * InputState) :=
  match events with
  | [] => Ok st
  | e :: rest =>
      st1 ← handle_event current_time st e;
      handle_events current_time st1 rest
  end.

(** The action repeated for a key that is held. *)
Definition held_key_action (g : TetrisGame RNG) (key : Z)
  : res (TetrisGame RNG) :=
  if key =? K_LEFT then '(g1, _) ← move_piece g (-1) 0; Ok g1
  else if key =? K_RIGHT then '(g1, _) ← move_piece g 1 0; Ok g1
  else if key =? K_DOWN then '(g1, _) ← soft_drop g; Ok g1
  else Ok g.

(** The body of the loop of [handle_input] over the keys that are held. *)
Definition repeat_key (current_time : Z)
    (st : TetrisGame RNG * InputState) (key : Z)
  : res (TetrisGame RNG * InputState) :=
  let '(g, inp) := st in
  match key_repeat_timers inp !! key with
  | Some due =>
      if current_time >=? due then
        g1 ← held_key_action g key;
        Ok (g1, mkInput (keys_pressed inp)
                  (<[key := current_time + MOVE_REPEAT_INTERVAL]>
                     (key_repeat_timers inp)))
      else Ok (g, inp)
  | None => Ok (g, inp)
  end.

Fixpoint repeat_keys (current_time : Z)
    (st : TetrisGame RNG * InputState) (keys : list Z)
  : res (TetrisGame RNG * InputState) :=
  match keys with
  | [] => Ok st
  | key :: rest =>
      st1 ← repeat_key current_time st key;
      repeat_keys current_time st1 rest
  end.

(** [TetrisGame.handle_input]; [current_time] is what
    [pygame.time.get_ticks()] returns. *)
Definition handle_input (st : TetrisGame RNG * InputState)
    (events : list Event) (current_time : Z)
  : res (TetrisGame RNG * InputState) :=
  '(g1, inp1) ← handle_events current_time st events;
  if negb (paused g1) && negb (game_over g1)
  then repeat_keys current_time (g1, inp1) (key_order (keys_pressed inp1))
  else Ok (g1, inp1).

End InputHandler.

(** ** Predicates used in the statements *)

(** The cell [(cx, cy)] holds a piece type, read through the bounds-checked
    accessor of the board. *)
Definition occupied (b : Board) (cx cy : Z) : Prop :=
  exists k, get_cell_type b cx cy = Ok (Some k).

(** A cell that makes [is_valid_position] answer [False]. *)
Definition cell_fails (b : Board) (c : Z * Z) : Prop :=
  c.1 < 0 \/ c.1 >= width b \/ c.2 >= height b \/
  (c.2 >= 0 /\ occupied b c.1 c.2).

(** Row [cy] of the grid exists and is completed. *)
Definition complete_at (g : Grid) (cy : Z) : bool :=
  match g !! Z.to_nat cy with
  | Some row => row_complete row
  | None => false
  end.

(** The number of completed rows of a grid. *)
Definition completed_rows (g : Grid) : Z :=
  Z.of_nat (length (List.filter row_complete g)).

(** The grid that the specification of line clearing describes: the rows
    that are not completed keep their content and their order, and one
    empty row per completed row is put on top of them. *)
Definition gravity_compaction (w : Z) (g : Grid) : Grid :=
  replicate (length (List.filter row_complete g)) (empty_row w) ++
  List.filter (fun row => negb (row_complete row)) g.

(** A row in which every cell is occupied by [k]. *)
Definition full_row (w : Z) (k : Kind) : list (option Kind) :=
  replicate (Z.to_nat w) (Some k).

(** A 10 x 20 board whose two bottom rows are completed and whose row 17
    holds one block, in column 0. *)
Definition two_full_rows_board : Board :=
  mkBoard 10 20
    (replicate 17 (empty_row 10) ++
     [ <[0%nat:=Some KT]> (empty_row 10); full_row 10 KI; full_row 10 KI ])
    0.

(** The piece [p] moved to row [r] is valid, and is not one row lower. *)
Definition rests_at (b : Board) (p : BlockDrop) (r : Z) : Prop :=
  y p <= r /\
  is_valid_position b (set_y p r) = Ok true /\
  is_valid_position b (set_y p (r + 1)) = Ok false.

(** [r] is the greatest row at or below the piece at which it rests. *)
Definition greatest_rest (b : Board) (p : BlockDrop) (r : Z) : Prop :=
  rests_at b p r /\ forall z, rests_at b p z -> z <= r.

(** [r] is the first row at or below the piece at which it rests. *)
Definition first_rest (b : Board) (p : BlockDrop) (r : Z) : Prop :=
  rests_at b p r /\ forall z, rests_at b p z -> r <= z.

(** A 10 x 20 board with an overhang: a bar lies in row 15 over columns 0
    to 3, on top of a column of blocks in column 2 (rows 16 to 19); the
    cells of columns 0 and 1 below the bar are empty. *)
Definition overhang_board : Board :=
  mkBoard 10 20
    (replicate 15 (empty_row 10) ++
     [ [Some KI; Some KI; Some KI; Some KI; None; None; None; None; None; None] ] ++
     replicate 4 [None; None; Some KI; None; None; None; None; None; None; None])
    0.

(** The cell at column [cx] of row [cy] of the grid holds a block. *)
Definition block_at (g : Grid) (cx cy : Z) : bool :=
  match cell_at g cx cy with
  | Some (Some _) => true
  | _ => false
  end.

(** A hole: an empty cell of the grid with a block somewhere above it in
    its column. *)
Definition is_hole (g : Grid) (cx cy : Z) : bool :=
  match cell_at g cx cy with
  | Some None => existsb (block_at g cx) (Py.range cy)
  | _ => false
  end.

(** The number of holes in column [cx] of a grid of [h] rows. *)
Definition holes_in_column (g : Grid) (h cx : Z) : Z :=
  Z.of_nat (length (List.filter (is_hole g cx) (Py.range h))).

(** A board of width 10 whose grid is given from the top row down. *)
Definition board_of_rows (rows : Grid) : Board :=
  mkBoard 10 (Z.of_nat (length rows)) rows 0.

(** A small board with three holes: one in column 0 and two in column 1,
    each under a block of row 1. *)
Definition holey_board : Board :=
  board_of_rows
    [ empty_row 10;
      Some KT :: Some KT :: replicate 8 None;
      None :: None :: replicate 8 None;
      Some KO :: None :: replicate 8 None;
      Some KO :: Some KO :: replicate 8 None ].

(** What holds of every session from its construction on: the board is a
    well-formed 10 x 20 board; there is a current piece, not above row 0,
    valid unless the game is over; there is a next piece; the line counters
    of the game and of the board agree; the level is the one that the line
    count gives; the score is not negative. *)
Definition game_inv {RNG : Type} (g : TetrisGame RNG) : Prop :=
  wf_board (board g) /\
  width (board g) = BOARD_WIDTH /\ height (board g) = BOARD_HEIGHT /\
  (exists cur, current_piece g = Some cur /\ 0 <= y cur /\
     (game_over g = false -> is_valid_position (board g) cur = Ok true)) /\
  (exists np, next_piece g = Some np) /\
  lines_cleared g = cleared_lines (board g) /\ 0 <= lines_cleared g /\
  level g = 1 + lines_cleared g / LINES_PER_LEVEL /\
  0 <= score g.

(** The operations as the input handler and the main loop issue them: a
    move never goes up, and the loop of a hard drop is allowed at least as
    many iterations as the board has rows, plus one. *)
Definition playable (o : Op) : Prop :=
  match o with
  | OpMove dx dy => 0 <= dy
  | OpHardDrop fuel => (Z.to_nat BOARD_HEIGHT < fuel)%nat
  | _ => True
  end.

(** The session [g'] has the attributes of [g], but for the current piece
    and the score, of which this says nothing. *)
Definition same_but_piece_score {RNG : Type} (g g' : TetrisGame RNG) : Prop :=
  board g' = board g /\ piece_generator g' = piece_generator g /\
  rng g' = rng g /\ next_piece g' = next_piece g /\ level g' = level g /\
  lines_cleared g' = lines_cleared g /\ game_over g' = game_over g /\
  paused g' = paused g /\ last_fall_time g' = last_fall_time g /\
  fall_speed g' = fall_speed g.

(** *** Sample sessions *)

(** A shuffle that reverses the list and has no state. *)
Definition reversing_shuffle (r : unit) (l : list Kind) : unit * list Kind :=
  (r, rev l).

(** The integer part of [500 * 0.9 ^ (level - 1)], computed exactly. *)
Definition exact_fall_speed (lvl : Z) : Z :=
  INITIAL_FALL_SPEED * 9 ^ (lvl - 1) / 10 ^ (lvl - 1).

(** A running session on [b] with current piece [cur], at level [lvl]. *)
Definition session (b : Board) (cur : BlockDrop) (lvl : Z) : TetrisGame unit :=
  mkGame b (mkGenerator [KL; KJ; KZ]) tt (Some cur) (Some (BlockDrop_init KS 4 0))
    0 lvl (10 * (lvl - 1)) false false 0 (exact_fall_speed lvl).

(** The long piece, upright, in column 0 of the empty board (its origin is
    two columns to the left of its cells). *)
Definition upright_at_wall : BlockDrop := mkBlockDrop KI (-2) 5 1.

Definition wall_session : TetrisGame unit :=
  session (Board_init BOARD_WIDTH BOARD_HEIGHT) upright_at_wall 1.

(** A board whose four bottom rows are occupied except for column 0, and
    the upright long piece in that column. *)
Definition four_rows_board : Board :=
  mkBoard 10 20
    (replicate 16 (empty_row 10) ++ replicate 4 (None :: replicate 9 (Some KO)))
    0.

Definition upright_in_gap : BlockDrop := mkBlockDrop KI (-2) 16 1.

Definition four_rows_session (lvl : Z) : TetrisGame unit :=
  session four_rows_board upright_in_gap lvl.

(** A 10 x 20 board whose column 5 is occupied from top to bottom, and the
    upright long piece above that column, all of it above the board. *)
Definition full_column_board : Board :=
  mkBoard 10 20 (replicate 20 (<[5%nat:=Some KI]> (empty_row 10))) 0.

Definition upright_over_column : BlockDrop := mkBlockDrop KI 3 (-4) 1.

(** A session that has ended. *)
Definition ended_session : TetrisGame unit :=
  set_game_over wall_session true.

(** The key codes of pygame 2 for the keys that the game reads. *)
Definition sample_K_UP : Z := 1073741906.
Definition sample_K_DOWN : Z := 1073741905.
Definition sample_K_LEFT : Z := 1073741904.
Definition sample_K_RIGHT : Z := 1073741903.
Definition sample_K_x : Z := 120.
Definition sample_K_z : Z := 122.
Definition sample_K_SPACE : Z := 32.
Definition sample_K_p : Z := 112.
Definition sample_K_r : Z := 114.

(** The input handler with these key codes, the reversing shuffle, held
    keys visited in the order of [elements], and 30 iterations allowed to
    the loop of a hard drop. *)
Definition sample_handle_input
  : TetrisGame unit * InputState -> list Event -> Z ->
    res (TetrisGame unit * InputState) :=
  handle_input reversing_shuffle exact_fall_speed
    sample_K_UP sample_K_x sample_K_z sample_K_SPACE sample_K_p sample_K_r
    sample_K_LEFT sample_K_RIGHT sample_K_DOWN elements 30.

(** The left key held, with its next repeat due at time 650. *)
Definition left_held : InputState :=
  mkInput {[sample_K_LEFT]} {[sample_K_LEFT := 650]}.

(** ** Facts about the Python helpers *)

Lemma bind_Ok {A B} (a : A) (f : A -> res B) : (Ok a ≫= f) = f a.
Proof. reflexivity. Qed.

Lemma bind_eq_Ok {A B} (m : res A) (f : A -> res B) (v : B) :
  m ≫= f = Ok v -> exists a, m = Ok a /\ f a = Ok v.
Proof. destruct m as [a| |]; simpl; intros E; try discriminate. eauto. Qed.

Lemma normalize_in_range {A} (l : list A) (i : Z) :
  0 <= i < Z.of_nat (length l) -> Py.normalize l i = Ok (Z.to_nat i).
Proof.
  intros [H0 H1]. unfold Py.normalize.
  destruct (Z.leb_spec 0 i), (Z.ltb_spec i (Z.of_nat (length l))); simpl;
    (reflexivity || lia).
Qed.

Lemma normalize_too_large {A} (l : list A) (i : Z) :
  Z.of_nat (length l) <= i -> Py.normalize l i = IndexError.
Proof.
  intros H. unfold Py.normalize.
  destruct (Z.leb_spec 0 i), (Z.ltb_spec i (Z.of_nat (length l))),
    (Z.ltb_spec i 0); simpl; rewrite ?andb_false_r; (reflexivity || lia).
Qed.

Lemma getitem_in_range {A} (l : list A) (i : Z) :
  0 <= i < Z.of_nat (length l) ->
  exists a, l !! Z.to_nat i = Some a /\ Py.getitem l i = Ok a.
Proof.
  intros H. unfold Py.getitem. rewrite (normalize_in_range l i H). simpl.
  destruct (lookup_lt_is_Some_2 l (Z.to_nat i)) as [a Ha]; [lia|].
  exists a. rewrite Ha. auto.
Qed.

Lemma getitem_lookup {A} (l : list A) (i : Z) (a : A) :
  0 <= i -> l !! Z.to_nat i = Some a -> Py.getitem l i = Ok a.
Proof.
  intros H0 Hl. pose proof (lookup_lt_Some _ _ _ Hl) as Hlt.
  destruct (getitem_in_range l i) as (a' & Ha' & E); [lia|].
  congruence.
Qed.

Lemma getitem_too_large {A} (l : list A) (i : Z) :
  Z.of_nat (length l) <= i -> Py.getitem l i = IndexError.
Proof.
  intros H. unfold Py.getitem. now rewrite (normalize_too_large l i H).
Qed.

Lemma setitem_in_range {A} (l : list A) (i : Z) (v : A) :
  0 <= i < Z.of_nat (length l) -> Py.setitem l i v = Ok (<[Z.to_nat i:=v]> l).
Proof.
  intros H. unfold Py.setitem. now rewrite (normalize_in_range l i H).
Qed.

Lemma delitem_in_range {A} (l : list A) (i : Z) :
  0 <= i < Z.of_nat (length l) -> Py.delitem l i = Ok (delete (Z.to_nat i) l).
Proof.
  intros H. unfold Py.delitem. now rewrite (normalize_in_range l i H).
Qed.

Lemma range_elem (n i : Z) : In i (Py.range n) <-> 0 <= i < n.
Proof.
  unfold Py.range. rewrite in_map_iff. split.
  - intros (k & <- & Hk). apply in_seq in Hk. lia.
  - intros H. exists (Z.to_nat i). split; [lia|]. apply in_seq. lia.
Qed.

(** ** Pieces: the shape lookup *)

Lemma num_shapes_pos (p : BlockDrop) : 0 < num_shapes p.
Proof. unfold num_shapes, shapes. destruct (piece_type p); simpl; lia. Qed.

Lemma shape_index_range (p : BlockDrop) : 0 <= shape_index p < num_shapes p.
Proof. unfold shape_index. apply Z.mod_pos_bound, num_shapes_pos. Qed.

Lemma current_shape_Ok (p : BlockDrop) :
  exists s, shapes p !! Z.to_nat (shape_index p) = Some s /\
            current_shape p = Ok s.
Proof. apply getitem_in_range. apply shape_index_range. Qed.

Lemma get_cells_Ok (p : BlockDrop) : exists cells, get_cells p = Ok cells.
Proof.
  destruct (current_shape_Ok p) as (s & _ & E). unfold get_cells.
  rewrite E. simpl. eauto.
Qed.

Lemma rotate_piece_type (r : Rot) (p : BlockDrop) :
  piece_type (rotate r p) = piece_type p.
Proof. destruct r; reflexivity. Qed.

Lemma rotate_all_piece_type (rs : list Rot) (p : BlockDrop) :
  piece_type (rotate_all rs p) = piece_type p.
Proof.
  revert p. induction rs as [|r rs IH]; intros p; simpl; [reflexivity|].
  unfold rotate_all in *. simpl. rewrite IH. apply rotate_piece_type.
Qed.

Lemma rotate_rotation_range (r : Rot) (p : BlockDrop) :
  0 <= rotation (rotate r p) < num_shapes p.
Proof. destruct r; simpl; apply Z.mod_pos_bound, num_shapes_pos. Qed.

(** C9: after any finite sequence of [rotate_clockwise] and
    [rotate_counterclockwise] calls on any piece (whatever integer its
    rotation attribute holds), the index [rotation % len(shapes)] that
    [current_shape] uses lies in [0, len(shapes)), the lookup returns the
    rotation state stored at that index without raising, and the list of
    rotation states is still the one of the piece's type. *)
Theorem rotation_index_always_valid (p : BlockDrop) (rs : list Rot) :
  let q := rotate_all rs p in
  shapes q = SHAPES (piece_type p) /\
  0 <= shape_index q < Z.of_nat (length (shapes q)) /\
  exists s, shapes q !! Z.to_nat (shape_index q) = Some s /\
            current_shape q = Ok s.
Proof.
  intros q. split; [|split].
  - unfold shapes, q. now rewrite rotate_all_piece_type.
  - apply shape_index_range.
  - apply current_shape_Ok.
Qed.

(** ** The board: reading cells *)

Lemma wf_Board_init (w h : Z) : wf_board (Board_init w h).
Proof.
  split; simpl; unfold empty_grid, empty_row.
  - now rewrite length_replicate.
  - apply Forall_forall. intros row Hrow.
    apply elem_of_replicate in Hrow as [-> _].
    now rewrite length_replicate.
Qed.

Lemma wf_row (b : Board) (i : nat) (row : list (option Kind)) :
  wf_board b -> grid b !! i = Some row -> length row = Z.to_nat (width b).
Proof.
  intros [_ Hrows] Hi. rewrite Forall_lookup in Hrows. eapply Hrows, Hi.
Qed.

(** Inside the board both index operations succeed, and [get_cell_type]
    returns the cell. *)
Lemma read_cell (b : Board) (cx cy : Z) :
  wf_board b -> 0 <= cx < width b -> 0 <= cy < height b ->
  exists row c,
    grid b !! Z.to_nat cy = Some row /\ row !! Z.to_nat cx = Some c /\
    Py.getitem (grid b) cy = Ok row /\ Py.getitem row cx = Ok c /\
    get_cell_type b cx cy = Ok c.
Proof.
  intros Hwf Hx Hy.
  destruct (getitem_in_range (grid b) cy) as (row & Hrow & Erow).
  { destruct Hwf as [Hlen _]. rewrite Hlen. lia. }
  pose proof (wf_row b _ row Hwf Hrow) as Hlen.
  destruct (getitem_in_range row cx) as (c & Hc & Ec); [lia|].
  exists row, c. repeat split; auto.
  unfold get_cell_type.
  destruct (Z.leb_spec 0 cx), (Z.ltb_spec cx (width b)),
    (Z.leb_spec 0 cy), (Z.ltb_spec cy (height b)); try lia.
  simpl. rewrite Erow. simpl. exact Ec.
Qed.

Lemma bounds_check_false (b : Board) (cx cy : Z) :
  (cx <? 0) || (cx >=? width b) || (cy >=? height b) = false <->
  0 <= cx < width b /\ cy < height b.
Proof.
  rewrite !orb_false_iff, Z.ltb_ge, !Z.geb_leb, !Z.leb_gt. lia.
Qed.

(** The loop of [is_valid_position] answers [False] when some cell fails
    and [True] when none does; on a well-formed board it never raises. *)
Lemma valid_cells_spec (b : Board) (cells : list (Z * Z)) :
  wf_board b ->
  (valid_cells b cells = Ok false /\ Exists (cell_fails b) cells) \/
  (valid_cells b cells = Ok true /\
   Forall (fun c => ~ cell_fails b c) cells).
Proof.
  intros Hwf. induction cells as [|[cx cy] rest IH]; simpl.
  { right. split; [reflexivity | constructor]. }
  destruct ((cx <? 0) || (cx >=? width b) || (cy >=? height b)) eqn:Hb.
  { left. split; [reflexivity|]. apply Exists_cons_hd. unfold cell_fails. simpl.
    rewrite !orb_true_iff, Z.ltb_lt, !Z.geb_leb, !Z.leb_le in Hb. lia. }
  apply bounds_check_false in Hb as [Hx Hy].
  destruct (Z.geb_spec cy 0) as [Hy0|Hy0].
  - destruct (read_cell b cx cy Hwf) as (row & c & _ & _ & Er & Ec & Eg);
      [lia|lia|].
    rewrite Er. simpl. rewrite Ec. simpl.
    destruct c as [k|]; simpl.
    + left. split; [reflexivity|]. apply Exists_cons_hd.
      right; right; right. simpl. split; [lia|]. exists k. exact Eg.
    + destruct IH as [[E H]|[E H]]; [left|right]; split; auto.
      constructor; auto. unfold cell_fails, occupied. simpl.
      intros [?|[?|[?|[_ [k Hk]]]]]; try lia. congruence.
  - simpl. destruct IH as [[E H]|[E H]]; [left|right]; split; auto.
    constructor; auto. unfold cell_fails. simpl. lia.
Qed.

Lemma Exists_not_Forall_not {A} (P : A -> Prop) (l : list A) :
  Exists P l -> Forall (fun a => ~ P a) l -> False.
Proof.
  intros HE HF. rewrite Forall_forall in HF. apply Exists_exists in HE.
  destruct HE as (a & Ha & HP). exact (HF a Ha HP).
Qed.

Lemma is_valid_position_cases (b : Board) (p : BlockDrop) :
  wf_board b ->
  exists cells, get_cells p = Ok cells /\
    ((is_valid_position b p = Ok false /\ Exists (cell_fails b) cells) \/
     (is_valid_position b p = Ok true /\
      Forall (fun c => ~ cell_fails b c) cells)).
Proof.
  intros Hwf. destruct (get_cells_Ok p) as [cells E]. exists cells.
  split; [exact E|]. unfold is_valid_position. rewrite E. simpl.
  apply valid_cells_spec, Hwf.
Qed.

Lemma is_valid_position_total (b : Board) (p : BlockDrop) :
  wf_board b -> exists v, is_valid_position b p = Ok v.
Proof.
  intros Hwf. destruct (is_valid_position_cases b p Hwf)
    as (cells & _ & [[E _]|[E _]]); eauto.
Qed.

(** C2: on a board that satisfies the class invariant, [is_valid_position]
    answers [False] iff some absolute cell of the piece has column < 0 or
    column >= width or row >= height or (row >= 0 and an occupied grid
    cell), and [True] iff no cell does; a cell above the board (row < 0)
    fails only through its column; and every piece type freshly built at
    the spawn column 4, row 0, is valid on the empty 10 x 20 board. *)
Theorem is_valid_position_spec (b : Board) (p : BlockDrop) :
  wf_board b ->
  exists cells, get_cells p = Ok cells /\
    (is_valid_position b p = Ok false <-> Exists (cell_fails b) cells) /\
    (is_valid_position b p = Ok true <->
       Forall (fun c => ~ cell_fails b c) cells) /\
    (forall cx cy, cy < 0 -> 0 <= height b ->
       (cell_fails b (cx, cy) <-> ~ (0 <= cx < width b))) /\
    (forall k, is_valid_position (Board_init BOARD_WIDTH BOARD_HEIGHT)
                 (BlockDrop_init k spawn_x 0) = Ok true).
Proof.
  intros Hwf. destruct (is_valid_position_cases b p Hwf) as (cells & E & H).
  exists cells. split; [exact E|]. repeat split.
  - intros Hf. destruct H as [[_ H]|[Ht _]]; [exact H | congruence].
  - intros HE. destruct H as [[Hf _]|[_ HF]]; [exact Hf|].
    destruct (Exists_not_Forall_not _ _ HE HF).
  - intros Ht. destruct H as [[Hf _]|[_ H]]; [congruence | exact H].
  - intros HF. destruct H as [[_ HE]|[Ht _]]; [|exact Ht].
    destruct (Exists_not_Forall_not _ _ HE HF).
  - unfold cell_fails; simpl; lia.
  - unfold cell_fails; simpl; lia.
  - intros k. destruct k; vm_compute; reflexivity.
Qed.

(** ** The board: locking a piece *)

Lemma get_cell_type_cell_at (b : Board) (cx cy : Z) :
  wf_board b -> 0 <= cx < width b -> 0 <= cy < height b ->
  exists c, cell_at (grid b) cx cy = Some c /\ get_cell_type b cx cy = Ok c.
Proof.
  intros Hwf Hx Hy.
  destruct (read_cell b cx cy Hwf Hx Hy) as (row & c & Hr & Hc & _ & _ & E).
  exists c. split; [|exact E]. unfold cell_at. rewrite Hr. exact Hc.
Qed.

(** One assignment [grid[cy][cx] = v] inside the grid. *)
Lemma write_one (w h : Z) (g : Grid) (cx cy : Z) (v : option Kind) :
  wf_grid w h g -> 0 <= cx < w -> 0 <= cy < h ->
  exists row,
    Py.getitem g cy = Ok row /\
    Py.setitem row cx v = Ok (<[Z.to_nat cx:=v]> row) /\
    Py.setitem g cy (<[Z.to_nat cx:=v]> row)
      = Ok (<[Z.to_nat cy:=<[Z.to_nat cx:=v]> row]> g) /\
    wf_grid w h (<[Z.to_nat cy:=<[Z.to_nat cx:=v]> row]> g) /\
    forall ax ay, 0 <= ax -> 0 <= ay ->
      cell_at (<[Z.to_nat cy:=<[Z.to_nat cx:=v]> row]> g) ax ay =
      if decide ((ax, ay) = (cx, cy)) then Some v else cell_at g ax ay.
Proof.
  intros [Hlen Hrows] Hx Hy.
  destruct (getitem_in_range g cy) as (row & Hrow & Erow); [lia|].
  assert (Hrl : length row = Z.to_nat w).
  { rewrite Forall_lookup in Hrows. eapply Hrows, Hrow. }
  exists row. split; [exact Erow|].
  split; [apply setitem_in_range; lia|].
  split; [apply setitem_in_range; lia|].
  split.
  - split; [now rewrite length_insert|].
    apply Forall_insert; [exact Hrows|]. now rewrite length_insert.
  - intros ax ay Hax Hay. unfold cell_at.
    destruct (decide (Z.to_nat ay = Z.to_nat cy)) as [Ey|Ny].
    + rewrite Ey, list_lookup_insert_eq by lia. simpl.
      destruct (decide (Z.to_nat ax = Z.to_nat cx)) as [Ex|Nx].
      * rewrite Ex, list_lookup_insert_eq by lia.
        rewrite decide_True; [reflexivity|]. f_equal; lia.
      * rewrite list_lookup_insert_ne by auto.
        rewrite decide_False; [now rewrite Hrow|].
        intros E; inversion E; subst; auto.
    + rewrite list_lookup_insert_ne by auto.
      rewrite decide_False; [reflexivity|].
      intros E; inversion E; subst; auto.
Qed.

Lemma write_cells_spec (w h : Z) (k : Kind) (cells : list (Z * Z)) (g : Grid) :
  wf_grid w h g ->
  exists g',
    write_cells w h k cells g = Ok g' /\ wf_grid w h g' /\
    forall ax ay, 0 <= ax < w -> 0 <= ay < h ->
      cell_at g' ax ay =
      if decide ((ax, ay) ∈ cells) then Some (Some k) else cell_at g ax ay.
Proof.
  revert g. induction cells as [|[cx cy] rest IH]; intros g Hwf;
    cbn [write_cells].
  { exists g. split; [reflexivity|]. split; [exact Hwf|]. intros ax ay _ _.
    rewrite decide_False; [reflexivity | apply not_elem_of_nil]. }
  destruct ((0 <=? cy) && (cy <? h) && (0 <=? cx) && (cx <? w)) eqn:Hin.
  - rewrite !andb_true_iff, !Z.leb_le, !Z.ltb_lt in Hin.
    destruct (write_one w h g cx cy (Some k) Hwf)
      as (row & E1 & E2 & E3 & Hwf1 & Hcell); [lia|lia|].
    rewrite E1. simpl. rewrite E2. simpl. rewrite E3. simpl.
    destruct (IH _ Hwf1) as (g' & E & Hwf' & H). exists g'.
    split; [exact E|]. split; [exact Hwf'|]. intros ax ay Hax Hay.
    rewrite (H ax ay Hax Hay), Hcell by lia.
    destruct (decide ((ax, ay) ∈ rest)) as [Hr|Hr].
    + rewrite decide_True; [reflexivity | now apply list_elem_of_further].
    + destruct (decide ((ax, ay) = (cx, cy))) as [->|Hne].
      * rewrite decide_True; [reflexivity | apply list_elem_of_here].
      * rewrite decide_False; [reflexivity|].
        intros Hc. apply elem_of_cons in Hc as [?|?]; auto.
  - destruct (IH _ Hwf) as (g' & E & Hwf' & H). exists g'.
    split; [exact E|]. split; [exact Hwf'|]. intros ax ay Hax Hay.
    rewrite (H ax ay Hax Hay).
    destruct (decide ((ax, ay) ∈ rest)) as [Hr|Hr].
    + rewrite decide_True; [reflexivity | now apply list_elem_of_further].
    + rewrite decide_False; [reflexivity|].
      intros Hc. apply elem_of_cons in Hc as [Heq|?]; auto.
      inversion Heq; subst.
      rewrite !andb_false_iff, !Z.leb_gt, !Z.ltb_ge in Hin. lia.
Qed.

Lemma place_piece_invalid (b : Board) (p : BlockDrop) :
  is_valid_position b p = Ok false -> place_piece b p = Ok (b, false).
Proof. intros E. unfold place_piece. now rewrite E. Qed.

Lemma place_piece_valid (b : Board) (p : BlockDrop) (cells : list (Z * Z)) :
  wf_board b -> get_cells p = Ok cells -> is_valid_position b p = Ok true ->
  exists b', place_piece b p = Ok (b', true) /\
    wf_board b' /\ width b' = width b /\ height b' = height b /\
    cleared_lines b' = cleared_lines b /\
    forall cx cy, 0 <= cx < width b -> 0 <= cy < height b ->
      get_cell_type b' cx cy =
      if decide ((cx, cy) ∈ cells) then Ok (Some (piece_type p))
      else get_cell_type b cx cy.
Proof.
  intros Hwf Ecells E. unfold place_piece. rewrite E, Ecells. simpl.
  destruct (write_cells_spec (width b) (height b) (piece_type p) cells
              (grid b) Hwf) as (g' & Ew & Hwf' & Hcell).
  rewrite Ew. simpl. exists (set_grid b g').
  split; [reflexivity|]. split; [exact Hwf'|]. repeat split.
  intros cx cy Hx Hy.
  destruct (get_cell_type_cell_at (set_grid b g') cx cy Hwf' Hx Hy)
    as (c' & Hc' & ->).
  destruct (get_cell_type_cell_at b cx cy Hwf Hx Hy) as (c & Hc & ->).
  simpl in Hc'. rewrite (Hcell cx cy Hx Hy) in Hc'.
  destruct (decide ((cx, cy) ∈ cells)); congruence.
Qed.

Lemma place_piece_total (b : Board) (p : BlockDrop) :
  wf_board b ->
  exists b' placed, place_piece b p = Ok (b', placed) /\
    wf_board b' /\ height b' = height b.
Proof.
  intros Hwf. destruct (is_valid_position_cases b p Hwf)
    as (cells & Ecells & [[E _]|[E _]]).
  - exists b, false. split; [now apply place_piece_invalid | auto].
  - destruct (place_piece_valid b p cells Hwf Ecells E)
      as (b' & Ep & Hwf' & _ & Hh & _).
    exists b', true. auto.
Qed.

(** C3: on a board that satisfies the class invariant, [place_piece]
    validates first.  If the position is invalid it returns [False] and the
    board is the one it was given.  If it is valid it returns [True]; the
    dimensions and the counter are unchanged, and every cell of the grid
    holds the piece's type if it is one of the piece's absolute cells and
    its previous content otherwise.  The absolute cells with a negative row
    are outside the grid and are written nowhere. *)
Theorem place_piece_spec (b : Board) (p : BlockDrop) :
  wf_board b ->
  exists cells, get_cells p = Ok cells /\
    (is_valid_position b p = Ok false /\ place_piece b p = Ok (b, false) \/
     is_valid_position b p = Ok true /\
     exists b', place_piece b p = Ok (b', true) /\
       wf_board b' /\ width b' = width b /\ height b' = height b /\
       cleared_lines b' = cleared_lines b /\
       forall cx cy, 0 <= cx < width b -> 0 <= cy < height b ->
         get_cell_type b' cx cy =
         if decide ((cx, cy) ∈ cells) then Ok (Some (piece_type p))
         else get_cell_type b cx cy).
Proof.
  intros Hwf. destruct (is_valid_position_cases b p Hwf)
    as (cells & Ecells & [[E _]|[E _]]); exists cells; (split; [exact Ecells|]).
  - left. split; [exact E | now apply place_piece_invalid].
  - right. split; [exact E | now apply place_piece_valid].
Qed.

(** ** The board: clearing lines *)

Lemma find_completed_filter (g : Grid) (ys : list Z) :
  Forall (fun cy => 0 <= cy < Z.of_nat (length g)) ys ->
  find_completed g ys = Ok (List.filter (complete_at g) ys).
Proof.
  induction ys as [|cy rest IH]; intros H; [reflexivity|].
  apply Forall_cons in H as [Hy Hrest]. cbn [find_completed List.filter].
  destruct (getitem_in_range g cy Hy) as (row & Hrow & ->).
  rewrite (IH Hrest). simpl.
  replace (complete_at g cy) with (row_complete row); [reflexivity|].
  unfold complete_at. now rewrite Hrow.
Qed.

Lemma range_Forall (n : Z) : Forall (fun cy => 0 <= cy < n) (Py.range n).
Proof.
  apply Forall_forall. intros cy Hin.
  apply list_elem_of_In, range_elem in Hin. exact Hin.
Qed.

Lemma filter_complete_at_length (pre g : Grid) :
  length (List.filter (complete_at (pre ++ g))
            (map Z.of_nat (seq (length pre) (length g)))) =
  length (List.filter row_complete g).
Proof.
  revert pre. induction g as [|row g IH]; intros pre; [reflexivity|].
  cbn [length seq map List.filter].
  assert (E : complete_at (pre ++ row :: g) (Z.of_nat (length pre))
              = row_complete row).
  { unfold complete_at. rewrite Nat2Z.id, list_lookup_middle; reflexivity. }
  rewrite E.
  specialize (IH (pre ++ [row])).
  rewrite <- app_assoc, length_app in IH. simpl in IH.
  rewrite Nat.add_1_r in IH.
  destruct (row_complete row); simpl; rewrite IH; reflexivity.
Qed.

Lemma find_completed_range (h : Z) (g : Grid) :
  length g = Z.to_nat h ->
  exists l, find_completed g (Py.range h) = Ok l /\
            Forall (fun cy => 0 <= cy < h) l /\
            Z.of_nat (length l) = completed_rows g.
Proof.
  intros Hlen. exists (List.filter (complete_at g) (Py.range h)).
  split; [|split].
  - apply find_completed_filter. eapply Forall_impl; [apply range_Forall|].
    simpl. lia.
  - apply Forall_forall. intros cy Hin.
    apply list_elem_of_In, List.filter_In in Hin as [Hin _].
    now apply range_elem in Hin.
  - unfold completed_rows, Py.range. rewrite <- Hlen.
    now rewrite <- (filter_complete_at_length [] g).
Qed.

Lemma remove_lines_wf (w h : Z) (ys : list Z) (g : Grid) :
  wf_grid w h g -> Forall (fun cy => 0 <= cy < h) ys ->
  exists g', remove_lines w ys g = Ok g' /\ wf_grid w h g'.
Proof.
  revert g. induction ys as [|cy rest IH]; intros g Hwf Hys; simpl.
  { exists g. split; [reflexivity | exact Hwf]. }
  apply Forall_cons in Hys as [Hy Hrest]. destruct Hwf as [Hlen Hrows].
  rewrite delitem_in_range by lia. simpl. apply IH; [|exact Hrest].
  unfold Py.insert0. split.
  - simpl. rewrite length_delete; [lia|]. apply lookup_lt_is_Some_2. lia.
  - constructor; [unfold empty_row; now rewrite length_replicate|].
    now apply Forall_delete.
Qed.

(** On a well-formed board [clear_lines] returns the number of completed
    rows, adds it to the counter and keeps the dimensions. *)
Lemma clear_lines_count (b : Board) :
  wf_board b ->
  exists b', clear_lines b = Ok (b', completed_rows (grid b)) /\
    wf_board b' /\ width b' = width b /\ height b' = height b /\
    cleared_lines b' = cleared_lines b + completed_rows (grid b).
Proof.
  intros Hwf. unfold clear_lines.
  destruct (find_completed_range (height b) (grid b)) as (l & -> & Hl & Hn);
    [apply Hwf|]. simpl.
  destruct (remove_lines_wf (width b) (height b) (rev l) (grid b) Hwf)
    as (g' & -> & Hwf').
  { apply Forall_forall. intros cy Hin. rewrite Forall_forall in Hl.
    apply Hl. apply list_elem_of_In. apply list_elem_of_In in Hin.
    now apply in_rev. }
  simpl. rewrite Hn. eexists. split; [reflexivity|]. repeat split; apply Hwf'.
Qed.

Lemma filter_none_complete (g : Grid) :
  List.filter row_complete g = [] ->
  List.filter (fun row => negb (row_complete row)) g = g.
Proof.
  induction g as [|row g IH]; [reflexivity|]. cbn [List.filter].
  destruct (row_complete row); [discriminate|]. intros H. simpl.
  now rewrite IH.
Qed.

Lemma filter_complete_at_nil (pre g : Grid) :
  List.filter row_complete g = [] ->
  List.filter (complete_at (pre ++ g))
    (map Z.of_nat (seq (length pre) (length g))) = [].
Proof.
  intros H. apply length_zero_iff_nil.
  now rewrite filter_complete_at_length, H.
Qed.

(** With exactly one completed row, the scan finds its index. *)
Lemma filter_complete_at_one (pre g : Grid) :
  length (List.filter row_complete g) = 1%nat ->
  exists g1 row g2,
    g = g1 ++ row :: g2 /\
    List.filter row_complete g1 = [] /\ List.filter row_complete g2 = [] /\
    List.filter (complete_at (pre ++ g))
      (map Z.of_nat (seq (length pre) (length g))) =
    [Z.of_nat (length pre + length g1)].
Proof.
  revert pre. induction g as [|row g IH]; intros pre H; [discriminate|].
  cbn [length seq map List.filter] in *.
  assert (E : complete_at (pre ++ row :: g) (Z.of_nat (length pre))
              = row_complete row).
  { unfold complete_at. rewrite Nat2Z.id, list_lookup_middle; reflexivity. }
  rewrite E. destruct (row_complete row) eqn:Hrow.
  - exists [], row, g. cbn [length] in H.
    assert (Hg : List.filter row_complete g = [])
      by (apply length_zero_iff_nil; lia).
    repeat split; auto.
    pose proof (filter_complete_at_nil (pre ++ [row]) g Hg) as Hnil.
    rewrite <- app_assoc, length_app in Hnil. simpl in Hnil.
    rewrite Nat.add_1_r in Hnil. rewrite Hnil. simpl.
    now rewrite Nat.add_0_r.
  - destruct (IH (pre ++ [row]) H) as (g1 & row' & g2 & -> & H1 & H2 & Hidx).
    exists (row :: g1), row', g2. split; [reflexivity|].
    split; [cbn [List.filter]; now rewrite Hrow|]. split; [exact H2|].
    rewrite <- app_assoc, length_app in Hidx. simpl in Hidx.
    rewrite Nat.add_1_r in Hidx. rewrite Hidx. simpl. do 2 f_equal. lia.
Qed.

(** With at most one completed row, [clear_lines] performs the compaction
    of the specification. *)
Lemma clear_lines_at_most_one (b : Board) :
  wf_board b -> completed_rows (grid b) <= 1 ->
  clear_lines b =
    Ok (mkBoard (width b) (height b)
          (gravity_compaction (width b) (grid b))
          (cleared_lines b + completed_rows (grid b)),
        completed_rows (grid b)).
Proof.
  intros [Hlen Hrows] Hle. unfold clear_lines, Py.range.
  rewrite find_completed_filter.
  2:{ eapply Forall_impl; [apply (range_Forall (height b))|]. simpl. lia. }
  unfold Py.range. cbn [mbind res_bind]. rewrite <- Hlen.
  unfold completed_rows, gravity_compaction in *.
  destruct (length (List.filter row_complete (grid b))) as [|[|n]] eqn:Hn;
    [| |lia].
  - apply length_zero_iff_nil in Hn.
    pose proof (filter_complete_at_nil [] (grid b) Hn) as Hnil.
    cbn [app length] in Hnil. rewrite Hnil.
    rewrite (filter_none_complete _ Hn). reflexivity.
  - destruct (filter_complete_at_one [] (grid b) Hn)
      as (g1 & row & g2 & Eg & H1 & H2 & Hidx).
    cbn [app length Nat.add] in Hidx. rewrite Hidx.
    cbn [rev app remove_lines length].
    rewrite delitem_in_range.
    2:{ rewrite Eg, length_app. simpl. lia. }
    cbn [mbind res_bind remove_lines]. unfold Py.insert0.
    rewrite Nat2Z.id, Eg.
    replace (delete (length g1) (g1 ++ row :: g2)) with (g1 ++ g2).
    2:{ clear. induction g1; simpl; [reflexivity | now f_equal]. }
    rewrite List.filter_app. cbn [List.filter].
    assert (Hrow : row_complete row = true).
    { rewrite Eg, List.filter_app in Hn. cbn [List.filter] in Hn.
      rewrite H1, H2 in Hn. destruct (row_complete row); [reflexivity|].
      discriminate. }
    rewrite Hrow. cbn [negb].
    now rewrite (filter_none_complete _ H1), (filter_none_complete _ H2).
Qed.

(** C1, at a failing input: on the board whose rows 18 and 19 are completed
    and whose row 17 holds one block, [clear_lines] returns 2 and adds 2 to
    the counter, but the grid it leaves has 19 empty rows above a row that
    is still completed: the second deletion removed row 17, shifted down by
    the row inserted after the first deletion, in place of the completed
    row 18.  The compaction that the claim describes keeps row 17 at the
    bottom, under 19 empty rows. *)
Theorem clear_lines_two_rows_diverges :
  wf_board two_full_rows_board /\
  completed_rows (grid two_full_rows_board) = 2 /\
  clear_lines two_full_rows_board =
    Ok (mkBoard 10 20 (replicate 19 (empty_row 10) ++ [full_row 10 KI]) 2, 2) /\
  gravity_compaction 10 (grid two_full_rows_board) =
    replicate 19 (empty_row 10) ++ [ <[0%nat:=Some KT]> (empty_row 10) ] /\
  (forall b' n, clear_lines two_full_rows_board = Ok (b', n) ->
     grid b' <> gravity_compaction 10 (grid two_full_rows_board) /\
     complete_at (grid b') 19 = true).
Proof.
  split; [|split; [|split; [|split]]].
  - split; [reflexivity|]. vm_compute. repeat constructor.
  - reflexivity.
  - vm_compute. reflexivity.
  - vm_compute. reflexivity.
  - intros b' n E. vm_compute in E. inversion E; subst; clear E.
    split; [|reflexivity]. vm_compute. discriminate.
Qed.

(** ** The engine *)

Section EngineFacts.

Context {RNG : Type}.
Variable shuffle : RNG -> list Kind -> RNG * list Kind.
Variable fall_speed_at : Z -> Z.

Implicit Types (g : TetrisGame RNG) (cur : BlockDrop).

Lemma set_x_same cur : set_x cur (x cur) = cur.
Proof. now destruct cur. Qed.

Lemma copy_same cur : copy cur = cur.
Proof. now destruct cur. Qed.

Lemma rotate_dir_x (cw : bool) cur : x (rotate_dir cw cur) = x cur.
Proof. now destruct cw. Qed.

(** The wall-kick loop commits the first offset of its list at which the
    rotated piece is valid, and fails when there is none. *)
Lemma wall_kicks_spec g (cw : bool) cur (dxs : list Z) (test_piece : BlockDrop) :
  let rot := rotate_dir cw cur in
  let try := fun dx => is_valid_position (board g) (set_x rot (x cur + dx)) in
  (forall v, set_x test_piece v = set_x rot v) ->
  (forall pre dx post, dxs = pre ++ dx :: post ->
     Forall (fun d => try d = Ok false) pre -> try dx = Ok true ->
     wall_kicks g cw cur test_piece dxs =
       Ok (set_current_piece g (Some (set_x rot (x cur + dx))), true)) /\
  (Forall (fun d => try d = Ok false) dxs ->
     wall_kicks g cw cur test_piece dxs = Ok (g, false)).
Proof.
  intros rot try. revert test_piece.
  induction dxs as [|d rest IH]; intros test_piece Htp.
  { split; [|reflexivity]. intros [|??] ???; discriminate. }
  cbn [wall_kicks]. rewrite Htp. fold (try d).
  assert (Htp' : forall v, set_x (set_x rot (x cur + d)) v = set_x rot v)
    by reflexivity.
  destruct (IH (set_x (set_x rot (x cur + d)) (x cur)) Htp') as [IH1 IH2].
  split.
  - intros pre dx post E Hpre Hdx. destruct pre as [|d' pre].
    + inversion E; subst. rewrite Hdx. simpl. fold rot.
      unfold rot at 2. now rewrite rotate_dir_x.
    + inversion E; subst. apply Forall_cons in Hpre as [Hd Hpre].
      rewrite Hd. simpl. now apply (IH1 pre dx post).
  - intros H. apply Forall_cons in H as [Hd Hrest]. rewrite Hd. simpl.
    now apply IH2.
Qed.

(** What the assignments to the current piece and to the score leave of a
    session. *)
Lemma set_current_piece_fields g (q : option BlockDrop) :
  current_piece (set_current_piece g q) = q /\
  score (set_current_piece g q) = score g /\
  same_but_piece_score g (set_current_piece g q).
Proof. unfold same_but_piece_score. repeat split; reflexivity. Qed.

Lemma set_score_fields g (s : Z) :
  current_piece (set_score g s) = current_piece g /\
  score (set_score g s) = s /\
  same_but_piece_score g (set_score g s).
Proof. unfold same_but_piece_score. repeat split; reflexivity. Qed.

Lemma same_but_piece_score_trans g g1 g2 :
  same_but_piece_score g g1 -> same_but_piece_score g1 g2 ->
  same_but_piece_score g g2.
Proof.
  unfold same_but_piece_score.
  intros (?&?&?&?&?&?&?&?&?&?) (?&?&?&?&?&?&?&?&?&?).
  repeat split; congruence.
Qed.

(** C4: with a current piece in a game that is neither over nor paused,
    the rotated piece [rot] is the current piece with its rotation index
    one more (clockwise) or one less (counterclockwise) modulo the number
    of rotation states, at the same position, and [rotate_piece]
    (a) when [rot] is valid, returns [True] and a game whose current piece
    is [rot]; (b) otherwise, at the first offset [dx] of [-1, +1, -2, +2],
    in that order, at which [rot] shifted by [dx] is valid, returns [True]
    and a game whose current piece has the rotation of [rot], the row and
    the type of the old piece and the column [x + dx]: the piece has moved
    by exactly that offset; in both cases the score and every other
    attribute of the game are as before; (c) returns [False] and the game
    as it was, hence the position and rotation of the piece, when neither
    the unchanged position nor any offset is valid.  On a well-formed board
    one of the three cases applies, as every validity test answers. *)
Theorem rotate_piece_wall_kick g (cw : bool) cur :
  current_piece g = Some cur -> game_over g = false -> paused g = false ->
  let rot := rotate_dir cw cur in
  let try := fun dx => is_valid_position (board g) (set_x rot (x cur + dx)) in
  rot = mkBlockDrop (piece_type cur) (x cur) (y cur)
          ((if cw then rotation cur + 1 else rotation cur - 1)
             mod num_shapes cur) /\
  (is_valid_position (board g) rot = Ok true ->
     exists g', rotate_piece g cw = Ok (g', true) /\
       g' = set_current_piece g (Some rot) /\
       current_piece g' = Some rot /\
       score g' = score g /\ same_but_piece_score g g') /\
  (is_valid_position (board g) rot = Ok false ->
   forall pre dx post, [-1; 1; -2; 2] = pre ++ dx :: post ->
     Forall (fun d => try d = Ok false) pre -> try dx = Ok true ->
     exists g', rotate_piece g cw = Ok (g', true) /\
       g' = set_current_piece g (Some (set_x rot (x cur + dx))) /\
       current_piece g' =
         Some (mkBlockDrop (piece_type cur) (x cur + dx) (y cur)
                 (rotation rot)) /\
       score g' = score g /\ same_but_piece_score g g') /\
  (is_valid_position (board g) rot = Ok false ->
   Forall (fun d => try d = Ok false) [-1; 1; -2; 2] ->
     rotate_piece g cw = Ok (g, false)) /\
  (wf_board (board g) ->
     Forall (fun d => exists v, try d = Ok v) [0; -1; 1; -2; 2]).
Proof.
  intros Hcur Hover Hpaused rot try.
  assert (Hrot : rotate_dir cw (copy cur) = rot)
    by (unfold rot; now rewrite copy_same).
  destruct (wall_kicks_spec g cw cur [-1; 1; -2; 2] rot) as [K1 K2];
    [reflexivity|].
  unfold rotate_piece. rewrite Hcur, Hover, Hpaused. cbn [orb]. rewrite Hrot.
  split; [|split; [|split; [|split]]].
  - unfold rot. now destruct cw.
  - intros ->. eexists. split; [reflexivity|]. split; [reflexivity|].
    apply set_current_piece_fields.
  - intros -> pre dx post E Hpre Hdx. cbn [mbind res_bind].
    rewrite (K1 pre dx post E Hpre Hdx). eexists. split; [reflexivity|].
    split; [reflexivity|].
    destruct (set_current_piece_fields g (Some (set_x rot (x cur + dx))))
      as (Hc & Hs & Hk).
    split; [|split; [exact Hs | exact Hk]].
    etransitivity; [exact Hc|]. unfold rot. now destruct cw.
  - intros -> H. simpl. now apply K2.
  - intros Hwf. apply Forall_forall. intros d _.
    apply is_valid_position_total, Hwf.
Qed.

(** ** The engine: blocked states *)

Lemma move_piece_blocked g (dx dy : Z) :
  game_over g = true \/ paused g = true \/ current_piece g = None ->
  move_piece g dx dy = Ok (g, false).
Proof.
  intros H. unfold move_piece. destruct (current_piece g); [|reflexivity].
  destruct H as [->|[->|?]]; [reflexivity| |discriminate].
  now rewrite orb_true_r.
Qed.

Lemma rotate_piece_blocked g (cw : bool) :
  game_over g = true \/ paused g = true \/ current_piece g = None ->
  rotate_piece g cw = Ok (g, false).
Proof.
  intros H. unfold rotate_piece. destruct (current_piece g); [|reflexivity].
  destruct H as [->|[->|?]]; [reflexivity| |discriminate].
  now rewrite orb_true_r.
Qed.

Lemma soft_drop_blocked g :
  game_over g = true \/ paused g = true \/ current_piece g = None ->
  soft_drop g = Ok (g, false).
Proof. intros H. unfold soft_drop. now rewrite move_piece_blocked. Qed.

Lemma hard_drop_blocked g (fuel : nat) :
  game_over g = true \/ paused g = true \/ current_piece g = None ->
  hard_drop shuffle fall_speed_at fuel g = Ok g.
Proof.
  intros H. unfold hard_drop. destruct (current_piece g); [|reflexivity].
  destruct H as [->|[->|?]]; [reflexivity| |discriminate].
  now rewrite orb_true_r.
Qed.

Lemma update_blocked g (t : Z) :
  game_over g = true \/ paused g = true -> update shuffle fall_speed_at g t = Ok g.
Proof.
  intros H. unfold update.
  destruct H as [->| ->]; [reflexivity | now rewrite orb_true_r].
Qed.

Lemma update_no_piece g (t : Z) :
  current_piece g = None ->
  update shuffle fall_speed_at g t = Ok g \/
  update shuffle fall_speed_at g t = Ok (set_last_fall_time g t).
Proof.
  intros H. unfold update. destruct (game_over g || paused g); [now left|].
  destruct (t - last_fall_time g >=? fall_speed g); [|now left].
  rewrite move_piece_blocked by auto. simpl. unfold lock_piece. rewrite H.
  now right.
Qed.

(** After a game-over, every operation other than a restart leaves the
    game over and the piece, board, score and level as they were. *)
Lemma run_ops_game_over (ops : list Op) g :
  game_over g = true ->
  exists g', run_ops shuffle fall_speed_at g ops = Ok g' /\
    game_over g' = true /\ current_piece g' = current_piece g /\
    board g' = board g /\ score g' = score g /\ level g' = level g.
Proof.
  revert g. induction ops as [|o rest IH]; intros g Hover; cbn [run_ops].
  { exists g. repeat split; auto. }
  assert (Hstep : exists g1, run_op shuffle fall_speed_at g o = Ok g1 /\
            game_over g1 = true /\ current_piece g1 = current_piece g /\
            board g1 = board g /\ score g1 = score g /\ level g1 = level g).
  { destruct o; cbn [run_op].
    - rewrite move_piece_blocked by auto. exists g. repeat split; auto.
    - rewrite rotate_piece_blocked by auto. exists g. repeat split; auto.
    - rewrite soft_drop_blocked by auto. exists g. repeat split; auto.
    - rewrite hard_drop_blocked by auto. exists g. repeat split; auto.
    - rewrite update_blocked by auto. exists g. repeat split; auto.
    - eexists. split; [reflexivity|]. repeat split; auto. }
  destruct Hstep as (g1 & -> & Hover1 & Hc & Hb & Hs & Hl). simpl.
  destruct (IH g1 Hover1) as (g' & E & ? & ? & ? & ? & ?).
  exists g'. repeat split; auto; congruence.
Qed.

(** C6: when the game is over or paused, or there is no current piece,
    [move_piece], [rotate_piece] and [soft_drop] return [False] and
    [hard_drop] returns (with [None], its only result), all four leaving the
    whole game state as it was; when the game is over or paused [update]
    returns at once with the state as it was, and without a current piece
    it changes at most its fall timestamp, so the current piece, the board,
    the score and the level are unchanged; and from a game that is over,
    any sequence of these operations and pause toggles runs to a game that
    is still over, with the same piece, board, score and level. *)
Theorem blocked_when_not_active g :
  game_over g = true \/ paused g = true \/ current_piece g = None ->
  (forall dx dy, move_piece g dx dy = Ok (g, false)) /\
  (forall cw, rotate_piece g cw = Ok (g, false)) /\
  soft_drop g = Ok (g, false) /\
  (forall fuel, hard_drop shuffle fall_speed_at fuel g = Ok g) /\
  (forall t, game_over g = true \/ paused g = true ->
     update shuffle fall_speed_at g t = Ok g) /\
  (forall t, exists g', update shuffle fall_speed_at g t = Ok g' /\
     current_piece g' = current_piece g /\ board g' = board g /\
     score g' = score g /\ level g' = level g) /\
  (forall ops, game_over g = true ->
     exists g', run_ops shuffle fall_speed_at g ops = Ok g' /\
       game_over g' = true /\ current_piece g' = current_piece g /\
       board g' = board g /\ score g' = score g /\ level g' = level g).
Proof.
  intros H. repeat split.
  - intros dx dy. now apply move_piece_blocked.
  - intros cw. now apply rotate_piece_blocked.
  - now apply soft_drop_blocked.
  - intros fuel. now apply hard_drop_blocked.
  - intros t Ht. now apply update_blocked.
  - intros t. destruct H as [H|[H|H]].
    + exists g. rewrite update_blocked by auto. repeat split; auto.
    + exists g. rewrite update_blocked by auto. repeat split; auto.
    + destruct (update_no_piece g t H) as [-> | ->]; eexists;
        (split; [reflexivity|]); repeat split; auto.
  - intros ops Hover. now apply run_ops_game_over.
Qed.

(** ** The generator *)

Lemma pop_snoc {A} (l : list A) (a : A) : Py.pop (l ++ [a]) = Ok (a, l).
Proof. unfold Py.pop. now rewrite rev_unit, rev_involutive. Qed.

Lemma nonempty_snoc {A} (l : list A) :
  l <> [] -> exists l' a, l = l' ++ [a].
Proof.
  intros H. destruct (exists_last H) as (l' & a & E). eauto.
Qed.

(** With a bag that is not empty no refill happens: the last element is
    removed and the random state is not touched. *)
Lemma get_next_piece_snoc (r : RNG) (l : list Kind) (k : Kind) (x0 y0 : Z) :
  get_next_piece shuffle r (mkGenerator (l ++ [k])) x0 y0 =
  Ok (r, mkGenerator l, BlockDrop_init k x0 y0).
Proof.
  unfold get_next_piece. cbn [bag].
  destruct (l ++ [k]) as [|a l'] eqn:E.
  { destruct l; discriminate. }
  rewrite <- E. cbn [bag]. now rewrite pop_snoc.
Qed.

(** With an empty bag the generator refills first. *)
Lemma get_next_piece_refill (r r1 : RNG) (l : list Kind) (k : Kind) (x0 y0 : Z) :
  refill_bag shuffle r = (r1, mkGenerator (l ++ [k])) ->
  get_next_piece shuffle r (mkGenerator []) x0 y0 =
  Ok (r1, mkGenerator l, BlockDrop_init k x0 y0).
Proof.
  intros E. unfold get_next_piece. cbn [bag]. rewrite E. cbn [bag].
  now rewrite pop_snoc.
Qed.

Lemma draw_S (n : nat) (r : RNG) (gen : BlockDropGenerator) :
  draw shuffle (S n) r gen =
  '(r1, g1, p) ← get_next_piece shuffle r gen 4 0;
  '(r2, g2, ks) ← draw shuffle n r1 g1;
  Ok (r2, g2, piece_type p :: ks).
Proof. reflexivity. Qed.

(** Drawing as many pieces as a suffix of the bag holds removes that suffix,
    last element first. *)
Lemma draw_suffix (ks rest : list Kind) (r : RNG) :
  draw shuffle (length ks) r (mkGenerator (rest ++ ks)) =
  Ok (r, mkGenerator rest, rev ks).
Proof.
  induction ks as [|k ks IH] using rev_ind.
  { simpl. now rewrite app_nil_r. }
  rewrite length_app, Nat.add_comm. cbn [length Nat.add draw].
  rewrite app_assoc, get_next_piece_snoc. simpl.
  rewrite IH. simpl. now rewrite rev_unit.
Qed.

Lemma draw_app (a c : nat) (r : RNG) (gen : BlockDropGenerator) :
  draw shuffle (a + c) r gen =
  '(r1, g1, ks1) ← draw shuffle a r gen;
  '(r2, g2, ks2) ← draw shuffle c r1 g1;
  Ok (r2, g2, ks1 ++ ks2).
Proof.
  revert r gen. induction a as [|a IH]; intros r gen.
  { cbn [Nat.add draw mbind res_bind].
    destruct (draw shuffle c r gen) as [[[r2 g2] ks2]| |]; reflexivity. }
  cbn [Nat.add]. rewrite !draw_S.
  destruct (get_next_piece shuffle r gen 4 0) as [[[r1 g1] p]| |];
    [|reflexivity|reflexivity].
  cbn [mbind res_bind]. rewrite IH.
  destruct (draw shuffle a r1 g1) as [[[r2 g2] ks1]| |];
    [|reflexivity|reflexivity].
  cbn [mbind res_bind].
  destruct (draw shuffle c r2 g2) as [[[r3 g3] ks2]| |]; reflexivity.
Qed.

Lemma count_occ_PIECE_TYPES (k : Kind) :
  count_occ Kind_eq_dec PIECE_TYPES k = 1%nat.
Proof. destruct k; reflexivity. Qed.

Section WithShuffle.

(** [random.shuffle] permutes the list it is given. *)
Hypothesis shuffle_perm : forall r l, Permutation l (shuffle r l).2.

Lemma refill_bag_perm (r : RNG) :
  Permutation PIECE_TYPES (bag (refill_bag shuffle r).2).
Proof.
  unfold refill_bag. pose proof (shuffle_perm r PIECE_TYPES) as H.
  destruct (shuffle r PIECE_TYPES) as [r' l]. exact H.
Qed.

Lemma draw_full_bag (r : RNG) (bag0 : list Kind) :
  Permutation PIECE_TYPES bag0 ->
  draw shuffle 7 r (mkGenerator bag0) = Ok (r, mkGenerator [], rev bag0) /\
  Permutation PIECE_TYPES (rev bag0) /\
  forall k, count_occ Kind_eq_dec (rev bag0) k = 1%nat.
Proof.
  intros Hp. assert (Hp' : Permutation PIECE_TYPES (rev bag0)).
  { etransitivity; [exact Hp | apply Permutation_rev]. }
  split; [|split; [exact Hp'|]].
  - pose proof (Permutation_length Hp) as Hlen. simpl in Hlen.
    change 7%nat with (length PIECE_TYPES). cbn [PIECE_TYPES length].
    rewrite Hlen. apply (draw_suffix bag0 []).
  - intros k. rewrite <- (count_occ_PIECE_TYPES k).
    symmetry. revert k. apply (Permutation_count_occ Kind_eq_dec), Hp'.
Qed.

(** From an exhausted bag the first draw refills, and 7 draws exhaust the
    new bag. *)
Lemma draw_empty_bag (r : RNG) :
  exists r' ks,
    draw shuffle 7 r (mkGenerator []) = Ok (r', mkGenerator [], ks) /\
    Permutation PIECE_TYPES ks /\
    forall k, count_occ Kind_eq_dec ks k = 1%nat.
Proof.
  pose proof (refill_bag_perm r) as Hp.
  destruct (refill_bag shuffle r) as [r1 [bag1]] eqn:Er. cbn [snd bag] in Hp.
  destruct (draw_full_bag r1 bag1 Hp) as (Hd & Hp' & Hc).
  destruct (nonempty_snoc bag1) as (l & k & ->).
  { intros ->. apply Permutation_length in Hp. discriminate. }
  exists r1, (rev (l ++ [k])). split; [|split; [exact Hp' | exact Hc]].
  change 7%nat with (S 6) in Hd |- *. rewrite draw_S in Hd |- *.
  rewrite get_next_piece_snoc in Hd.
  rewrite (get_next_piece_refill r r1 l k 4 0 Er). exact Hd.
Qed.

(** Any number of whole rounds of 7 draws from an exhausted bag is a
    sequence of permutations of the seven piece types. *)
Lemma draw_rounds (m : nat) (r : RNG) :
  exists r' rounds,
    draw shuffle (7 * m) r (mkGenerator []) =
      Ok (r', mkGenerator [], concat rounds) /\
    length rounds = m /\
    Forall (fun ks => Permutation PIECE_TYPES ks) rounds.
Proof.
  revert r. induction m as [|m IH]; intros r.
  { exists r, []. repeat split; constructor. }
  replace (7 * S m)%nat with (7 + 7 * m)%nat by lia. rewrite draw_app.
  destruct (draw_empty_bag r) as (r1 & ks & -> & Hp & _).
  cbn [mbind res_bind]. destruct (IH r1) as (r2 & rounds & -> & Hlen & Hall).
  cbn [mbind res_bind]. exists r2, (ks :: rounds).
  split; [reflexivity|]. split; [simpl; lia|]. now constructor.
Qed.

(** C8: whatever permutation of the seven piece types the shuffle left in
    the bag, the next 7 draws empty the bag without a refill and yield each
    type exactly once; [refill_bag] leaves such a permutation, under any
    random state; from an exhausted bag the next 7 draws (the first of
    which refills) again yield each type exactly once; any run of draws
    that does not outlast a bag without repetitions takes them off the end
    of that bag, without refilling, so no type is drawn twice in it; and
    any number of whole rounds of 7 draws from an exhausted bag is a
    sequence of permutations of the seven types, one per refill. *)
Theorem bag_draws_each_kind_once :
  (forall r bag0, Permutation PIECE_TYPES bag0 ->
     exists ks, draw shuffle 7 r (mkGenerator bag0) = Ok (r, mkGenerator [], ks) /\
       Permutation PIECE_TYPES ks /\
       forall k, count_occ Kind_eq_dec ks k = 1%nat) /\
  (forall r, Permutation PIECE_TYPES (bag (refill_bag shuffle r).2)) /\
  (forall r, exists r' ks,
     draw shuffle 7 r (mkGenerator []) = Ok (r', mkGenerator [], ks) /\
     Permutation PIECE_TYPES ks /\
     forall k, count_occ Kind_eq_dec ks k = 1%nat) /\
  (forall r bag0 n, List.NoDup bag0 -> (n <= length bag0)%nat ->
     exists rest ks,
       draw shuffle n r (mkGenerator bag0) = Ok (r, mkGenerator rest, ks) /\
       bag0 = rest ++ rev ks /\ length ks = n /\ List.NoDup ks) /\
  (forall m r, exists r' rounds,
     draw shuffle (7 * m) r (mkGenerator []) =
       Ok (r', mkGenerator [], concat rounds) /\
     length rounds = m /\
     Forall (fun ks => Permutation PIECE_TYPES ks) rounds).
Proof.
  split; [|split; [|split; [|split]]].
  - intros r bag0 Hp. exists (rev bag0). now apply draw_full_bag.
  - apply refill_bag_perm.
  - apply draw_empty_bag.
  - intros r bag0 n Hnd Hn.
    exists (take (length bag0 - n) bag0), (rev (drop (length bag0 - n) bag0)).
    assert (Hlen : length (drop (length bag0 - n) bag0) = n)
      by (rewrite length_drop; lia).
    split; [|split; [|split]].
    + rewrite <- (take_drop (length bag0 - n) bag0) at 1.
      rewrite <- Hlen at 1. apply draw_suffix.
    + now rewrite rev_involutive, take_drop.
    + now rewrite length_rev.
    + apply NoDup_rev. rewrite <- (take_drop (length bag0 - n) bag0) in Hnd.
      apply NoDup_ListNoDup in Hnd. apply NoDup_app in Hnd as (_ & _ & H).
      now apply NoDup_ListNoDup.
  - intros m r. apply draw_rounds.
Qed.

(** ** The engine: locking and scoring *)

Lemma get_next_piece_total (r : RNG) (gen : BlockDropGenerator) (x0 y0 : Z) :
  exists r' gen' p, get_next_piece shuffle r gen x0 y0 = Ok (r', gen', p).
Proof.
  destruct gen as [[|k0 l0]].
  - pose proof (refill_bag_perm r) as Hp.
    destruct (refill_bag shuffle r) as [r1 [bag1]] eqn:Er. cbn [snd bag] in Hp.
    destruct (nonempty_snoc bag1) as (l & k & ->).
    { intros ->. apply Permutation_length in Hp. discriminate. }
    rewrite (get_next_piece_refill r r1 l k x0 y0 Er). eauto.
  - destruct (nonempty_snoc (k0 :: l0)) as (l & k & ->); [discriminate|].
    rewrite get_next_piece_snoc. eauto.
Qed.

Lemma spawn_new_piece_total g :
  wf_board (board g) ->
  exists g', spawn_new_piece shuffle g = Ok g' /\
    board g' = board g /\ score g' = score g /\ level g' = level g /\
    lines_cleared g' = lines_cleared g.
Proof.
  intros Hwf. unfold spawn_new_piece.
  assert (H1 : exists r1 gen1 c,
    match next_piece g with
    | Some np => Ok (rng g, piece_generator g, set_y (set_x np spawn_x) 0)
    | None => get_next_piece shuffle (rng g) (piece_generator g) spawn_x 0
    end = Ok (r1, gen1, c)).
  { destruct (next_piece g); [eauto | apply get_next_piece_total]. }
  destruct H1 as (r1 & gen1 & c & ->). cbn [mbind res_bind].
  destruct (get_next_piece_total r1 gen1 4 0) as (r2 & gen2 & nx & ->).
  cbn [mbind res_bind].
  destruct (is_valid_position_total
              (board (set_pieces g r2 gen2 (Some c) (Some nx))) c Hwf)
    as [v ->].
  cbn [mbind res_bind]. destruct v; eexists; (split; [reflexivity|]);
    repeat split.
Qed.

Lemma is_game_over_total (b : Board) :
  wf_board b -> 0 < height b -> exists v, is_game_over b = Ok v.
Proof.
  intros [Hlen _] Hh. unfold is_game_over.
  destruct (getitem_in_range (grid b) 0) as (row & _ & ->); [lia|].
  simpl. eauto.
Qed.

(** C5: a lock event (with a current piece, on a well-formed board of
    positive height) places the piece and clears [n] lines, where [n] is the
    number of completed rows after the placement, and the score it leaves is
    the previous score plus 0, 100, 300, 500 or 800 times the level held
    before the lock for [n] = 0, 1, 2, 3, 4; so four lines are worth 800
    at level 1 and 1600 at level 2. *)
Theorem lock_piece_score g cur :
  wf_board (board g) -> 0 < height (board g) -> current_piece g = Some cur ->
  exists b1 placed b2 n g',
    place_piece (board g) cur = Ok (b1, placed) /\
    clear_lines b1 = Ok (b2, n) /\ n = completed_rows (grid b1) /\
    lock_piece shuffle fall_speed_at g = Ok g' /\
    (n = 0 -> score g' = score g) /\
    (n = 1 -> score g' = score g + 100 * level g) /\
    (n = 2 -> score g' = score g + 300 * level g) /\
    (n = 3 -> score g' = score g + 500 * level g) /\
    (n = 4 -> score g' = score g + 800 * level g) /\
    (n = 4 -> level g = 1 -> score g' = score g + 800) /\
    (n = 4 -> level g = 2 -> score g' = score g + 1600).
Proof.
  intros Hwf Hh Hcur.
  destruct (place_piece_total (board g) cur Hwf) as (b1 & placed & Ep & Hwf1 & Hh1).
  destruct (clear_lines_count b1 Hwf1) as (b2 & Ec & Hwf2 & _ & Hh2 & _).
  set (n := completed_rows (grid b1)) in *.
  set (g1 := set_board g b2).
  set (g2 := if n >? 0
             then update_level fall_speed_at
                    (update_score (set_lines_cleared g1 (lines_cleared g1 + n)) n)
             else g1).
  assert (Hb2 : board g2 = b2).
  { unfold g2. destruct (n >? 0); [|reflexivity].
    unfold update_level. now destruct (_ >? _). }
  assert (Hs2 : score g2 =
            if n >? 0 then
              score g + (if n =? 1 then SCORE_SINGLE
                         else if n =? 2 then SCORE_DOUBLE
                         else if n =? 3 then SCORE_TRIPLE
                         else if n =? 4 then SCORE_TETRIS else 0) * level g
            else score g).
  { unfold g2. destruct (n >? 0); [|reflexivity].
    unfold update_level. now destruct (_ >? _). }
  assert (Hlock : exists g', lock_piece shuffle fall_speed_at g = Ok g' /\
                             score g' = score g2).
  { unfold lock_piece. rewrite Hcur, Ep. cbn [mbind res_bind].
    rewrite Ec. cbn [mbind res_bind]. fold g1. fold g2.
    destruct (is_game_over_total (board g2)) as [over ->].
    { now rewrite Hb2. } { rewrite Hb2. lia. }
    cbn [mbind res_bind]. destruct over.
    - eexists. split; reflexivity.
    - destruct (spawn_new_piece_total g2) as (g' & -> & _ & Hs & _).
      { now rewrite Hb2. }
      eauto. }
  destruct Hlock as (g' & El & Hs).
  exists b1, placed, b2, n, g'. rewrite Hs, Hs2.
  split; [exact Ep|]. split; [exact Ec|]. split; [reflexivity|].
  split; [exact El|].
  unfold SCORE_SINGLE, SCORE_DOUBLE, SCORE_TRIPLE, SCORE_TETRIS.
  repeat split; intros Hn; rewrite Hn; try reflexivity;
    intros Hl; rewrite Hl; reflexivity.
Qed.

End WithShuffle.

End EngineFacts.

(** ** The board: the height of a column *)

Lemma getitem_elem {A} (l : list A) (i : Z) (a : A) :
  Py.getitem l i = Ok a -> a ∈ l.
Proof.
  unfold Py.getitem. intros E. apply bind_eq_Ok in E as (k & _ & E).
  destruct (l !! k) eqn:Hk; [|discriminate]. inversion E; subst.
  apply list_elem_of_lookup. eauto.
Qed.

Lemma getitem_negative {A} (l : list A) (i : Z) :
  - Z.of_nat (length l) <= i < 0 ->
  Py.getitem l i = Py.getitem l (Z.of_nat (length l) + i).
Proof.
  intros H. unfold Py.getitem.
  rewrite (normalize_in_range l (Z.of_nat (length l) + i)) by lia.
  unfold Py.normalize.
  destruct (Z.leb_spec 0 i), (Z.leb_spec (- Z.of_nat (length l)) i),
    (Z.ltb_spec i 0); try lia. now rewrite andb_false_l.
Qed.

Lemma getitem_too_negative {A} (l : list A) (i : Z) :
  i < - Z.of_nat (length l) -> Py.getitem l i = IndexError.
Proof.
  intros H. unfold Py.getitem, Py.normalize.
  destruct (Z.leb_spec 0 i), (Z.leb_spec (- Z.of_nat (length l)) i);
    try lia. reflexivity.
Qed.

(** The scan of a column from row [s] downwards. *)
Lemma height_scan_spec (b : Board) (col : Z) (n s : nat) :
  wf_board b -> 0 <= col < width b -> (s + n)%nat = Z.to_nat (height b) ->
  ((forall r, Z.of_nat s <= r < height b -> get_cell_type b col r = Ok None) ->
     height_scan b col (map Z.of_nat (seq s n)) = Ok 0) /\
  (forall r k, Z.of_nat s <= r < height b ->
     get_cell_type b col r = Ok (Some k) ->
     (forall r', Z.of_nat s <= r' < r -> get_cell_type b col r' = Ok None) ->
     height_scan b col (map Z.of_nat (seq s n)) = Ok (height b - r)).
Proof.
  intros Hwf Hcol. revert s. induction n as [|n IH]; intros s Hs.
  { split; [reflexivity|]. intros r k Hr. lia. }
  cbn [seq map height_scan].
  destruct (read_cell b col (Z.of_nat s) Hwf Hcol)
    as (row & c & _ & _ & Er & Ec & Eg); [lia|].
  rewrite Er. cbn [mbind res_bind]. rewrite Ec. cbn [mbind res_bind].
  destruct (IH (S s)) as [IH1 IH2]; [lia|]. split.
  - intros Hnone. rewrite (Hnone (Z.of_nat s)) in Eg by lia.
    inversion Eg; subst. simpl. apply IH1. intros r Hr. apply Hnone. lia.
  - intros r k Hr Hk Habove.
    destruct (Z.eq_dec r (Z.of_nat s)) as [->|Hne].
    + rewrite Hk in Eg. inversion Eg; subst. reflexivity.
    + rewrite (Habove (Z.of_nat s)) in Eg by lia. inversion Eg; subst. simpl.
      apply (IH2 r k); [lia | exact Hk |]. intros r' Hr'. apply Habove. lia.
Qed.

Lemma height_scan_wrap (b : Board) (col : Z) (rows : list Z) :
  wf_board b -> - width b <= col < 0 ->
  height_scan b col rows = height_scan b (width b + col) rows.
Proof.
  intros Hwf Hcol. induction rows as [|row rest IH]; [reflexivity|].
  cbn [height_scan]. destruct (Py.getitem (grid b) row) as [r| |] eqn:Er;
    [|reflexivity|reflexivity].
  cbn [mbind res_bind]. apply getitem_elem in Er.
  destruct Hwf as [_ Hrows]. rewrite Forall_forall in Hrows.
  pose proof (Hrows r Er) as Hlen.
  rewrite (getitem_negative r col) by lia.
  replace (Z.of_nat (length r)) with (width b) by lia.
  destruct (Py.getitem r (width b + col)); cbn [mbind res_bind]; auto.
  now rewrite IH.
Qed.

Lemma height_scan_raises (b : Board) (col : Z) :
  wf_board b -> 0 < height b -> width b <= col \/ col < - width b ->
  get_height_at_column b col = IndexError.
Proof.
  intros Hwf Hh Hcol. unfold get_height_at_column, Py.range.
  destruct (Z.to_nat (height b)) as [|n] eqn:En; [lia|].
  cbn [seq map height_scan].
  destruct (getitem_in_range (grid b) (Z.of_nat 0)) as (row & Hrow & ->).
  { destruct Hwf as [Hlen _]. rewrite Hlen. lia. }
  cbn [mbind res_bind]. pose proof (wf_row b _ row Hwf Hrow) as Hlen.
  assert (Hout : Z.of_nat (length row) <= col \/ col < - Z.of_nat (length row))
    by lia.
  destruct Hout as [Hout|Hout].
  - now rewrite getitem_too_large.
  - now rewrite getitem_too_negative.
Qed.

(** C10: [get_height_at_column] indexes the grid without a guard.  On a
    well-formed board and for a column [col] with 0 <= col < width it
    returns [height - r] where [r] is the topmost occupied row of the
    column, and 0 when no cell of the column is occupied; nothing of the
    kind holds outside that range: a column at or beyond the width, or below
    [-width], raises [IndexError] (on a board with at least one row), and a
    negative column down to [-width] is read from the right edge, as column
    [width + col].  [get_cell_type] answers [None] for every coordinate pair
    outside the board. *)
Theorem get_height_at_column_spec (b : Board) (col : Z) :
  wf_board b ->
  (0 <= col < width b ->
     (forall r k, 0 <= r < height b ->
        get_cell_type b col r = Ok (Some k) ->
        (forall r', 0 <= r' < r -> get_cell_type b col r' = Ok None) ->
        get_height_at_column b col = Ok (height b - r)) /\
     ((forall r, 0 <= r < height b -> get_cell_type b col r = Ok None) ->
        get_height_at_column b col = Ok 0)) /\
  (0 < height b -> width b <= col \/ col < - width b ->
     get_height_at_column b col = IndexError) /\
  (- width b <= col < 0 ->
     get_height_at_column b col = get_height_at_column b (width b + col)) /\
  (forall cx cy, ~ (0 <= cx < width b /\ 0 <= cy < height b) ->
     get_cell_type b cx cy = Ok None).
Proof.
  intros Hwf. split; [|split; [|split]].
  - intros Hcol.
    destruct (height_scan_spec b col (Z.to_nat (height b)) 0 Hwf Hcol)
      as [H1 H2]; [lia|].
    split.
    + intros r k Hr Hk Habove. apply (H2 r k); [lia | exact Hk |].
      intros r' Hr'. apply Habove. lia.
    + intros Hnone. apply H1. intros r Hr. apply Hnone. lia.
  - now apply height_scan_raises.
  - intros Hcol. now apply height_scan_wrap.
  - intros cx cy Hout. unfold get_cell_type.
    destruct (Z.leb_spec 0 cx), (Z.ltb_spec cx (width b)),
      (Z.leb_spec 0 cy), (Z.ltb_spec cy (height b)); try reflexivity. lia.
Qed.

(** ** The board: dropping a piece *)

(** Every rotation state of every piece type has a cell, and no cell lies
    above the origin of the piece. *)
Lemma shapes_have_cell (k : Kind) (ox oy : Z) :
  Forall (fun shape => exists cx cy,
            (cx, cy) ∈ shape_cells ox oy shape /\ oy <= cy) (SHAPES k).
Proof.
  destruct k; repeat constructor; cbn;
    (eexists _, _; split; [apply list_elem_of_here | lia]).
Qed.

Lemma get_cells_has_cell (p : BlockDrop) :
  exists cells cx cy,
    get_cells p = Ok cells /\ (cx, cy) ∈ cells /\ y p <= cy.
Proof.
  destruct (current_shape_Ok p) as (s & Hs & E).
  pose proof (shapes_have_cell (piece_type p) (x p) (y p)) as H.
  rewrite Forall_lookup in H. destruct (H _ _ Hs) as (cx & cy & Hin & Hy).
  exists (shape_cells (x p) (y p) s), cx, cy.
  split; [|auto]. unfold get_cells. now rewrite E.
Qed.

(** A valid piece has its origin above the bottom of the board. *)
Lemma valid_above_bottom (b : Board) (p : BlockDrop) :
  wf_board b -> is_valid_position b p = Ok true -> y p < height b.
Proof.
  intros Hwf Hv.
  destruct (get_cells_has_cell p) as (cells & cx & cy & E & Hin & Hy).
  destruct (is_valid_position_cases b p Hwf) as (cells' & E' & [[Hf _]|[_ Ht]]);
    [congruence|].
  assert (cells' = cells) by congruence. subst cells'.
  rewrite Forall_forall in Ht.
  specialize (Ht _ Hin). unfold cell_fails in Ht. simpl in Ht. lia.
Qed.

Lemma set_y_same (p : BlockDrop) : set_y p (y p) = p.
Proof. now destruct p. Qed.

(** The loop stops, within [S m] iterations when the piece is at most [m]
    rows above the bottom, at the first row where the piece is invalid. *)
Lemma drop_loop_spec (b : Board) (m : nat) (tp : BlockDrop) :
  wf_board b -> height b - y tp <= Z.of_nat m ->
  exists r, y tp <= r /\
    (forall fuel, (S m <= fuel)%nat -> drop_loop fuel b tp = Ok (set_y tp r)) /\
    (forall yy, y tp <= yy < r ->
       is_valid_position b (set_y tp yy) = Ok true) /\
    is_valid_position b (set_y tp r) = Ok false.
Proof.
  intros Hwf. revert tp. induction m as [|m IH]; intros tp Hm.
  - destruct (is_valid_position_total b tp Hwf) as [[|] Hv].
    { apply (valid_above_bottom b tp Hwf) in Hv. lia. }
    exists (y tp). split; [lia|]. rewrite set_y_same. split; [|split; [|exact Hv]].
    + intros [|fuel] Hf; [lia|]. cbn [drop_loop]. now rewrite Hv.
    + intros yy Hyy. lia.
  - destruct (is_valid_position_total b tp Hwf) as [[|] Hv].
    + destruct (IH (set_y tp (y tp + 1))) as (r & Hr & Hloop & Hval & Hinv).
      { simpl. lia. }
      simpl in Hr. exists r. split; [lia|]. split; [|split; [|exact Hinv]].
      * intros [|fuel] Hf; [lia|]. cbn [drop_loop]. rewrite Hv.
        cbn [mbind res_bind]. apply Hloop. lia.
      * intros yy Hyy. destruct (Z.eq_dec yy (y tp)) as [->|Hne].
        -- now rewrite set_y_same.
        -- apply (Hval yy). simpl. lia.
    + exists (y tp). split; [lia|]. rewrite set_y_same.
      split; [|split; [|exact Hv]].
      * intros [|fuel] Hf; [lia|]. cbn [drop_loop]. now rewrite Hv.
      * intros yy Hyy. lia.
Qed.

(** C7, as amended: for a piece that is valid on a well-formed board, and
    with at least [height - y + 1] iterations allowed to its loop,
    [get_drop_position] returns the row [r] one step before the first
    invalid position met going down: [r] is at or below the piece, the piece
    is valid at every row from its own down to [r] and invalid at [r + 1];
    so [r] is the first (least) row at or below the piece at which it is
    valid and one row lower invalid. *)
Theorem get_drop_position_first_rest (b : Board) (p : BlockDrop) :
  wf_board b -> is_valid_position b p = Ok true ->
  exists r,
    (forall fuel, (S (Z.to_nat (height b - y p)) <= fuel)%nat ->
       get_drop_position fuel b p = Ok r) /\
    (forall yy, y p <= yy <= r ->
       is_valid_position b (set_y p yy) = Ok true) /\
    first_rest b p r.
Proof.
  intros Hwf Hv.
  destruct (drop_loop_spec b (Z.to_nat (height b - y p)) p Hwf)
    as (r & Hr & Hloop & Hval & Hinv); [lia|].
  assert (Hr' : y p < r).
  { destruct (Z.eq_dec r (y p)) as [->|]; [|lia].
    rewrite set_y_same in Hinv. congruence. }
  exists (r - 1). split; [|split].
  - intros fuel Hf. unfold get_drop_position. rewrite copy_same.
    rewrite (Hloop fuel Hf). simpl. reflexivity.
  - intros yy Hyy. apply Hval. lia.
  - split.
    + split; [lia|]. split; [apply Hval; lia|].
      now replace (r - 1 + 1) with r by lia.
    + intros z (Hz & Hzv & Hzi).
      destruct (Z_lt_le_dec z (r - 1)) as [Hlt|]; [|lia].
      rewrite (Hval (z + 1)) in Hzi by lia. discriminate.
Qed.

(** C7, as stated, fails under an overhang: the O piece at column 0, row 0
    of [overhang_board] is valid, [get_drop_position] returns 13 (the bar in
    row 15 stops it), and yet the piece also rests at row 18, in the hollow
    under the bar; 13 is not the greatest row at which the piece is valid
    and one row lower invalid. *)
Lemma get_drop_position_not_greatest :
  wf_board overhang_board /\
  is_valid_position overhang_board (BlockDrop_init KO 0 0) = Ok true /\
  get_drop_position 21 overhang_board (BlockDrop_init KO 0 0) = Ok 13 /\
  rests_at overhang_board (BlockDrop_init KO 0 0) 18 /\
  ~ greatest_rest overhang_board (BlockDrop_init KO 0 0) 13.
Proof.
  assert (H18 : rests_at overhang_board (BlockDrop_init KO 0 0) 18).
  { split; [simpl; lia|]. split; vm_compute; reflexivity. }
  split; [|split; [|split; [|split]]].
  - split; [reflexivity|]. vm_compute. repeat constructor.
  - vm_compute. reflexivity.
  - vm_compute. reflexivity.
  - exact H18.
  - intros [_ Hmax]. specialize (Hmax 18 H18). lia.
Qed.

(** ** The statements at sample inputs *)

Lemma reversing_shuffle_perm (r : unit) (l : list Kind) :
  Permutation l (reversing_shuffle r l).2.
Proof. apply Permutation_rev. Qed.

(** The T piece at column 3, row 14 of the board with the overhang. *)
Lemma is_valid_position_spec_witness :
  wf_board overhang_board /\
  exists cells, get_cells (BlockDrop_init KT 3 14) = Ok cells /\
    (is_valid_position overhang_board (BlockDrop_init KT 3 14) = Ok false <->
       Exists (cell_fails overhang_board) cells).
Proof.
  assert (Hwf : wf_board overhang_board).
  { split; [reflexivity|]. vm_compute. repeat constructor. }
  split; [exact Hwf|].
  destruct (is_valid_position_spec overhang_board (BlockDrop_init KT 3 14) Hwf)
    as (cells & E & Hf & _).
  exists cells. split; [exact E | exact Hf].
Defined.

(** Locking the upright long piece into the free column of four rows. *)
Lemma place_piece_spec_witness :
  wf_board four_rows_board /\
  exists b', place_piece four_rows_board upright_in_gap = Ok (b', true) /\
    get_cell_type b' 0 19 = Ok (Some KI) /\
    get_cell_type b' 1 19 = Ok (Some KO).
Proof.
  assert (Hwf : wf_board four_rows_board).
  { split; [reflexivity|]. vm_compute. repeat constructor. }
  split; [exact Hwf|].
  destruct (place_piece_spec four_rows_board upright_in_gap Hwf)
    as (cells & E & [[Hv _]|[_ (b' & Ep & _ & _ & _ & _ & Hcell)]]).
  { vm_compute in Hv. discriminate. }
  exists b'. split; [exact Ep|].
  vm_compute in E. inversion E; subst cells. split.
  - rewrite (Hcell 0 19) by (unfold four_rows_board; simpl; lia).
    rewrite decide_True; [reflexivity|]. repeat constructor.
  - rewrite (Hcell 1 19) by (unfold four_rows_board; simpl; lia).
    rewrite decide_False; [vm_compute; reflexivity|].
    intros Hin. repeat (apply elem_of_cons in Hin as [Hin|Hin];
      [discriminate|]). inversion Hin.
Defined.

(** The upright long piece against the left wall: the rotation is invalid
    in place and at the offsets -1, +1 and -2, and is committed two columns
    to the right, where the piece lies flat in columns 0 to 3 of row 5. *)
Lemma rotate_piece_wall_kick_witness :
  exists g', rotate_piece wall_session true = Ok (g', true) /\
    current_piece g' = Some (mkBlockDrop KI 0 5 0) /\
    board g' = board wall_session /\ score g' = score wall_session.
Proof.
  destruct (proj1 (proj2 (proj2 (rotate_piece_wall_kick wall_session true
                                   upright_at_wall eq_refl eq_refl eq_refl)))
              ltac:(vm_compute; reflexivity) [-1; 1; -2] 2 [])
    as (g' & E & _ & Hc & Hs & Hb & _).
  - reflexivity.
  - repeat constructor.
  - vm_compute. reflexivity.
  - exists g'. split; [exact E|]. split; [exact Hc|]. split; [exact Hb | exact Hs].
Defined.

(** Four lines at once, at level 1 and at level 2. *)
Lemma lock_piece_score_witness :
  (exists g', lock_piece reversing_shuffle exact_fall_speed (four_rows_session 1)
                = Ok g' /\ score g' = 800) /\
  (exists g', lock_piece reversing_shuffle exact_fall_speed (four_rows_session 2)
                = Ok g' /\ score g' = 1600).
Proof.
  assert (Hwf : wf_board four_rows_board).
  { split; [reflexivity|]. vm_compute. repeat constructor. }
  split.
  - destruct (lock_piece_score reversing_shuffle exact_fall_speed
                reversing_shuffle_perm (four_rows_session 1) upright_in_gap
                Hwf ltac:(reflexivity) eq_refl)
      as (b1 & placed & b2 & n & g' & Ep & _ & Hn & El & H).
    exists g'. split; [exact El|].
    vm_compute in Ep. inversion Ep; subst b1 placed.
    apply (proj1 (proj2 (proj2 (proj2 (proj2 (proj2 H)))))); [|reflexivity].
    rewrite Hn. reflexivity.
  - destruct (lock_piece_score reversing_shuffle exact_fall_speed
                reversing_shuffle_perm (four_rows_session 2) upright_in_gap
                Hwf ltac:(reflexivity) eq_refl)
      as (b1 & placed & b2 & n & g' & Ep & _ & Hn & El & H).
    exists g'. split; [exact El|].
    vm_compute in Ep. inversion Ep; subst b1 placed.
    apply (proj2 (proj2 (proj2 (proj2 (proj2 (proj2 H)))))); [|reflexivity].
    rewrite Hn. reflexivity.
Defined.

(** A finished session ignores moves, drops, updates and pause toggles. *)
Lemma blocked_when_not_active_witness :
  move_piece ended_session (-1) 0 = Ok (ended_session, false) /\
  exists g', run_ops reversing_shuffle exact_fall_speed ended_session
               [OpPause; OpHardDrop 30; OpUpdate 1000; OpPause; OpMove 1 0]
             = Ok g' /\ game_over g' = true /\ board g' = board ended_session.
Proof.
  pose proof (blocked_when_not_active reversing_shuffle exact_fall_speed
                ended_session (or_introl eq_refl)) as (Hm & _ & _ & _ & _ & _ & Hops).
  split; [apply Hm|].
  destruct (Hops [OpPause; OpHardDrop 30; OpUpdate 1000; OpPause; OpMove 1 0]
              eq_refl) as (g' & E & Hover & _ & Hb & _).
  exists g'. auto.
Defined.

(** The O piece dropped onto the bar of the board with the overhang. *)
Lemma get_drop_position_first_rest_witness :
  exists r, get_drop_position 21 overhang_board (BlockDrop_init KO 0 0) = Ok r /\
            first_rest overhang_board (BlockDrop_init KO 0 0) r.
Proof.
  assert (Hwf : wf_board overhang_board).
  { split; [reflexivity|]. vm_compute. repeat constructor. }
  destruct (get_drop_position_first_rest overhang_board (BlockDrop_init KO 0 0)
              Hwf ltac:(vm_compute; reflexivity)) as (r & Hr & _ & Hfirst).
  exists r. split; [|exact Hfirst]. apply Hr. vm_compute. lia.
Defined.

(** Seven draws from one particular bag. *)
Lemma bag_draws_each_kind_once_witness :
  exists ks, draw reversing_shuffle 7 tt (mkGenerator [KT; KL; KI; KZ; KO; KS; KJ])
             = Ok (tt, mkGenerator [], ks) /\
             forall k, count_occ Kind_eq_dec ks k = 1%nat.
Proof.
  destruct (proj1 (bag_draws_each_kind_once reversing_shuffle
                     reversing_shuffle_perm) tt [KT; KL; KI; KZ; KO; KS; KJ])
    as (ks & E & _ & Hc).
  - apply (Permutation_count_occ Kind_eq_dec). intros k.
    destruct k; reflexivity.
  - exists ks. auto.
Defined.

(** Column 2 of the board with the overhang is 5 high; column 10 does not
    exist. *)
Lemma get_height_at_column_spec_witness :
  get_height_at_column overhang_board 2 = Ok 5 /\
  get_height_at_column overhang_board 10 = IndexError /\
  get_cell_type overhang_board 10 0 = Ok None.
Proof.
  assert (Hwf : wf_board overhang_board).
  { split; [reflexivity|]. vm_compute. repeat constructor. }
  destruct (get_height_at_column_spec overhang_board 2 Hwf) as (H & _).
  destruct (get_height_at_column_spec overhang_board 10 Hwf)
    as (_ & Hraise & _ & Hout).
  split; [|split].
  - apply (proj1 (H ltac:(unfold overhang_board; simpl; lia)) 15 KI).
    + unfold overhang_board; simpl; lia.
    + reflexivity.
    + intros r' Hr'.
      assert (Hc : r' = 0 \/ r' = 1 \/ r' = 2 \/ r' = 3 \/ r' = 4 \/ r' = 5 \/
                   r' = 6 \/ r' = 7 \/ r' = 8 \/ r' = 9 \/ r' = 10 \/
                   r' = 11 \/ r' = 12 \/ r' = 13 \/ r' = 14) by lia.
      repeat (destruct Hc as [->|Hc]; [reflexivity|]). subst. reflexivity.
  - apply Hraise; [reflexivity | left; unfold overhang_board; simpl; lia].
  - apply Hout. unfold overhang_board; simpl; lia.
Defined.

(** ** More on pieces: cells, translation, rotation *)

Lemma row_cells_shift (ox oy ri : Z) (l : list (Z * ascii)) :
  omap (fun '(col_idx, cell) =>
          if filled cell then Some (ox + col_idx, oy + ri) else None) l =
  map (fun c => (ox + c.1, oy + c.2))
    (omap (fun '(col_idx, cell) =>
             if filled cell then Some (0 + col_idx, 0 + ri) else None) l).
Proof.
  unfold omap. induction l as [|[i c] l IH]; [reflexivity|].
  cbn [list_omap]. destruct (filled c); cbn [map]; rewrite IH; [|reflexivity].
  cbn [fst snd]. now rewrite !Z.add_0_l.
Qed.

Lemma shape_cells_shift (ox oy : Z) (shape : list string) :
  shape_cells ox oy shape =
  map (fun c => (ox + c.1, oy + c.2)) (shape_cells 0 0 shape).
Proof.
  unfold shape_cells. generalize (Py.enumerate shape) as l.
  induction l as [|[ri row] l IH]; [reflexivity|].
  cbn [map concat]. rewrite map_app, IH. f_equal.
  unfold row_cells. apply row_cells_shift.
Qed.

Lemma current_shape_in_SHAPES (p : BlockDrop) :
  exists s, current_shape p = Ok s /\ s ∈ SHAPES (piece_type p).
Proof.
  destruct (current_shape_Ok p) as (s & Hs & E). exists s. split; [exact E|].
  apply list_elem_of_lookup. eauto.
Qed.

(** Every rotation state has four different cells inside a 4 x 4 box. *)
Lemma SHAPES_four_cells (k : Kind) :
  Forall (fun s => length (shape_cells 0 0 s) = 4%nat /\
                   NoDup (shape_cells 0 0 s) /\
                   Forall (fun c => 0 <= c.1 < 4 /\ 0 <= c.2 < 4)
                     (shape_cells 0 0 s)) (SHAPES k).
Proof.
  destruct k; repeat apply Forall_cons_2; try apply Forall_nil_2;
    (split; [reflexivity|]; split;
     [apply (bool_decide_unpack _); vm_compute; exact I
     |vm_compute; repeat constructor; discriminate]).
Qed.

(** X1: for every piece, whatever its position and the integer held by its
    rotation attribute, [get_cells] returns exactly four cells, all
    different, inside the 4 x 4 box whose top-left corner is the origin
    [(x, y)] of the piece. *)
Theorem get_cells_four_in_box (p : BlockDrop) :
  exists cells, get_cells p = Ok cells /\
    length cells = 4%nat /\ NoDup cells /\
    Forall (fun c => x p <= c.1 < x p + 4 /\ y p <= c.2 < y p + 4) cells.
Proof.
  destruct (current_shape_in_SHAPES p) as (s & E & Hin).
  pose proof (SHAPES_four_cells (piece_type p)) as H.
  rewrite Forall_forall in H. destruct (H s Hin) as (Hlen & Hnd & Hbox).
  exists (shape_cells (x p) (y p) s). unfold get_cells. rewrite E.
  split; [reflexivity|]. rewrite shape_cells_shift.
  split; [now rewrite length_map|]. split.
  - assert (Hinj : Inj eq eq (fun c : Z * Z => (x p + c.1, y p + c.2))).
    { intros [a1 a2] [b1 b2] Heq. simpl in Heq. inversion Heq. f_equal; lia. }
    exact (NoDup_fmap_2 _ _ Hnd).
  - apply Forall_forall. intros c Hc. apply list_elem_of_In, in_map_iff in Hc.
    destruct Hc as (c0 & <- & Hc0). rewrite Forall_forall in Hbox.
    apply list_elem_of_In in Hc0. specialize (Hbox c0 Hc0). simpl. lia.
Qed.

(** X2: the absolute cells of a piece are its relative cells shifted by its
    origin, in the same order, and [move] shifts every absolute cell by the
    offset it is given. *)
Theorem get_cells_translate (p : BlockDrop) (dx dy : Z) :
  exists rel cells,
    get_relative_cells p = Ok rel /\ get_cells p = Ok cells /\
    cells = map (fun c => (x p + c.1, y p + c.2)) rel /\
    get_cells (move p dx dy) = Ok (map (fun c => (c.1 + dx, c.2 + dy)) cells).
Proof.
  destruct (current_shape_Ok p) as (s & _ & E).
  exists (shape_cells 0 0 s), (shape_cells (x p) (y p) s).
  unfold get_relative_cells, get_cells.
  assert (E' : current_shape (move p dx dy) = Ok s) by exact E.
  rewrite E, E'. cbn [mbind res_bind move x y].
  split; [reflexivity|]. split; [reflexivity|].
  split; [apply shape_cells_shift|]. f_equal.
  rewrite (shape_cells_shift (x p + dx)), (shape_cells_shift (x p)).
  rewrite map_map. apply map_ext. intros [a1 a2]. simpl. f_equal; lia.
Qed.

Lemma shape_index_rotate_clockwise (p : BlockDrop) :
  shape_index (rotate_clockwise p) = (shape_index p + 1) mod num_shapes p.
Proof.
  unfold shape_index, rotate_clockwise, num_shapes, shapes. cbn [rotation piece_type].
  rewrite Z.mod_mod by (pose proof (num_shapes_pos p); unfold num_shapes, shapes in *; lia).
  now rewrite Zplus_mod_idemp_l.
Qed.

Lemma shape_index_iter_clockwise (n : nat) (p : BlockDrop) :
  num_shapes (Nat.iter n rotate_clockwise p) = num_shapes p /\
  shape_index (Nat.iter n rotate_clockwise p) =
    (rotation p + Z.of_nat n) mod num_shapes p.
Proof.
  induction n as [|n [IHn IHi]].
  - split; [reflexivity|]. simpl. now rewrite Z.add_0_r.
  - rewrite Nat.iter_succ.
    split; [exact IHn|]. rewrite shape_index_rotate_clockwise, IHn, IHi.
    rewrite Zplus_mod_idemp_l. f_equal. lia.
Qed.

(** X3: a clockwise rotation followed by a counterclockwise one, or the
    reverse, shows the rotation state the piece showed before; as many
    clockwise rotations as the piece type has rotation states do so too;
    and a rotation changes neither the type nor the position. *)
Theorem rotation_round_trip (p : BlockDrop) :
  current_shape (rotate_counterclockwise (rotate_clockwise p)) = current_shape p /\
  current_shape (rotate_clockwise (rotate_counterclockwise p)) = current_shape p /\
  current_shape (Nat.iter (length (shapes p)) rotate_clockwise p) = current_shape p /\
  (forall r, piece_type (rotate r p) = piece_type p /\
             x (rotate r p) = x p /\ y (rotate r p) = y p).
Proof.
  pose proof (num_shapes_pos p) as Hpos.
  assert (Hidx : forall q, shapes q = shapes p ->
            shape_index q = shape_index p -> current_shape q = current_shape p).
  { intros q Hs Hi. unfold current_shape. now rewrite Hs, Hi. }
  split; [|split; [|split]].
  - apply Hidx; [reflexivity|]. unfold shape_index, num_shapes, shapes in *.
    cbn [rotation piece_type rotate_counterclockwise rotate_clockwise].
    rewrite Z.mod_mod by lia. rewrite Zminus_mod_idemp_l. f_equal. lia.
  - apply Hidx; [reflexivity|]. unfold shape_index, num_shapes, shapes in *.
    cbn [rotation piece_type rotate_counterclockwise rotate_clockwise].
    rewrite Z.mod_mod by lia. rewrite Zplus_mod_idemp_l. f_equal. lia.
  - destruct (shape_index_iter_clockwise (length (shapes p)) p) as [Hn Hi].
    apply Hidx.
    + unfold num_shapes in Hn. unfold shapes in *.
      assert (Ht : forall n q, piece_type (Nat.iter n rotate_clockwise q)
                               = piece_type q).
      { induction n; intros q; [reflexivity|].
        rewrite Nat.iter_succ. exact (IHn q). }
      now rewrite Ht.
    + rewrite Hi. unfold shape_index. fold (num_shapes p).
      replace (rotation p + num_shapes p) with (rotation p + 1 * num_shapes p)
        by lia.
      apply Z_mod_plus_full.
  - intros r. destruct r; repeat split.
Qed.

(** Every rotation state is a rectangle of 2 to 4 columns and rows that
    holds the cells of the piece. *)
Lemma SHAPES_rectangular (k : Kind) :
  Forall (fun s =>
    exists row rest, s = row :: rest /\
      2 <= Z.of_nat (String.length row) <= 4 /\
      2 <= Z.of_nat (length s) <= 4 /\
      Forall (fun r => String.length r = String.length row) s /\
      Forall (fun c => 0 <= c.1 < Z.of_nat (String.length row) /\
                       0 <= c.2 < Z.of_nat (length s)) (shape_cells 0 0 s))
    (SHAPES k).
Proof.
  destruct k; repeat apply Forall_cons_2; try apply Forall_nil_2;
    (eexists _, _; split; [reflexivity|]; split; [simpl; lia|];
     split; [simpl; lia|]; split;
     [repeat constructor | vm_compute; repeat constructor; discriminate]).
Qed.

(** X4: [get_width] and [get_height] never raise; they return the number of
    columns and rows of the current rotation state, both between 2 and 4;
    every row of that state has [get_width] characters, and every relative
    cell of the piece lies in [0, get_width) x [0, get_height). *)
Theorem get_width_height_box (p : BlockDrop) :
  exists w h shape rel,
    get_width p = Ok w /\ get_height p = Ok h /\
    current_shape p = Ok shape /\ get_relative_cells p = Ok rel /\
    2 <= w <= 4 /\ 2 <= h <= 4 /\ h = Z.of_nat (length shape) /\
    Forall (fun r => Z.of_nat (String.length r) = w) shape /\
    Forall (fun c => 0 <= c.1 < w /\ 0 <= c.2 < h) rel.
Proof.
  destruct (current_shape_in_SHAPES p) as (s & E & Hin).
  pose proof (SHAPES_rectangular (piece_type p)) as H.
  rewrite Forall_forall in H.
  destruct (H s Hin) as (row & rest & -> & Hw & Hh & Hrect & Hbox).
  exists (Z.of_nat (String.length row)), (Z.of_nat (length (row :: rest))),
    (row :: rest), (shape_cells 0 0 (row :: rest)).
  unfold get_width, get_height, get_relative_cells. rewrite E.
  repeat split; try reflexivity; try lia; try exact Hbox.
  eapply Forall_impl; [exact Hrect|]. simpl. intros r ->. reflexivity.
Qed.

(** ** More on the board: top-out, clearing, locking *)

Lemma existsb_is_not_None (row : list (option Kind)) :
  existsb is_not_None row = true <->
  exists (i : nat) k, row !! i = Some (Some k).
Proof.
  rewrite existsb_exists. split.
  - intros (c & Hin & Hc). destruct c as [k|]; [|discriminate].
    apply list_elem_of_In, list_elem_of_lookup in Hin as [i Hi]. eauto.
  - intros (i & k & Hi). exists (Some k). split; [|reflexivity].
    apply list_elem_of_In, list_elem_of_lookup. eauto.
Qed.

(** X5: on a well-formed board with at least one row, [is_game_over]
    answers [True] exactly when some cell of the top row is occupied; on a
    board without rows it raises [IndexError] (it reads [grid[0]]). *)
Theorem is_game_over_spec (b : Board) :
  wf_board b ->
  (0 < height b ->
     exists v, is_game_over b = Ok v /\
       (v = true <-> exists cx, 0 <= cx < width b /\ occupied b cx 0)) /\
  (height b <= 0 -> is_game_over b = IndexError).
Proof.
  intros Hwf. split.
  - intros Hh. unfold is_game_over.
    destruct (getitem_in_range (grid b) 0) as (row & Hrow & ->).
    { destruct Hwf as [Hlen _]. lia. }
    cbn [mbind res_bind]. eexists. split; [reflexivity|].
    pose proof (wf_row b _ row Hwf Hrow) as Hlen.
    rewrite existsb_is_not_None. split.
    + intros (i & k & Hi). pose proof (lookup_lt_Some _ _ _ Hi) as Hlt.
      exists (Z.of_nat i). split; [lia|]. exists k.
      destruct (read_cell b (Z.of_nat i) 0 Hwf) as (row' & c & Hr & Hc & _ & _ & ->);
        [lia|lia|].
      rewrite Nat2Z.id in Hc. change (Z.to_nat 0) with 0%nat in Hr, Hrow.
      congruence.
    + intros (cx & Hcx & k & Hk).
      destruct (read_cell b cx 0 Hwf) as (row' & c & Hr & Hc & _ & _ & E);
        [lia|lia|].
      change (Z.to_nat 0) with 0%nat in Hr, Hrow.
      exists (Z.to_nat cx), k. congruence.
  - intros Hh. unfold is_game_over. rewrite getitem_too_large; [reflexivity|].
    destruct Hwf as [Hlen _]. lia.
Qed.

Lemma completed_rows_bounds (b : Board) :
  wf_board b -> 0 <= completed_rows (grid b) <= Z.max 0 (height b).
Proof.
  intros [Hlen _]. unfold completed_rows.
  pose proof (List.filter_length_le row_complete (grid b)). lia.
Qed.

(** X6: on every well-formed board [clear_lines] returns without raising;
    the number it returns is the number of completed rows, between 0 and
    the height; the counter grows by that number; and the board it leaves
    is well formed with the same width and height. *)
Theorem clear_lines_returns_count (b : Board) :
  wf_board b ->
  exists b' n, clear_lines b = Ok (b', n) /\
    n = completed_rows (grid b) /\ 0 <= n <= Z.max 0 (height b) /\
    cleared_lines b' = cleared_lines b + n /\
    wf_board b' /\ width b' = width b /\ height b' = height b.
Proof.
  intros Hwf. destruct (clear_lines_count b Hwf) as (b' & E & Hwf' & Hw & Hh & Hc).
  exists b', (completed_rows (grid b)).
  split; [exact E|]. split; [reflexivity|].
  split; [now apply completed_rows_bounds|]. auto.
Qed.

(** X7: with no completed row [clear_lines] returns 0 and leaves the board
    exactly as it was; with one completed row it returns 1, removes that
    row and puts an empty row on top, the other rows keeping their content
    and order. *)
Theorem clear_lines_zero_or_one (b : Board) :
  wf_board b ->
  (completed_rows (grid b) = 0 -> clear_lines b = Ok (b, 0)) /\
  (completed_rows (grid b) = 1 ->
     exists above row below,
       grid b = above ++ row :: below /\ row_complete row = true /\
       clear_lines b =
         Ok (mkBoard (width b) (height b)
               (empty_row (width b) :: above ++ below)
               (cleared_lines b + 1), 1)).
Proof.
  intros Hwf. split; intros Hn.
  - rewrite (clear_lines_at_most_one b Hwf) by lia. rewrite Hn.
    unfold gravity_compaction. unfold completed_rows in Hn.
    assert (Hnil : List.filter row_complete (grid b) = [])
      by (apply length_zero_iff_nil; lia).
    rewrite Hnil, (filter_none_complete _ Hnil). cbn [length replicate app].
    rewrite Z.add_0_r. now destruct b.
  - rewrite (clear_lines_at_most_one b Hwf) by lia. rewrite Hn.
    unfold completed_rows in Hn.
    assert (Hone : length (List.filter row_complete (grid b)) = 1%nat) by lia.
    destruct (filter_complete_at_one [] (grid b) Hone)
      as (g1 & row & g2 & Eg & H1 & H2 & _).
    assert (Hrow : row_complete row = true).
    { rewrite Eg, List.filter_app in Hone. cbn [List.filter] in Hone.
      rewrite H1, H2 in Hone. destruct (row_complete row); [reflexivity|].
      discriminate. }
    exists g1, row, g2. split; [exact Eg|]. split; [exact Hrow|].
    unfold gravity_compaction. rewrite Hone. rewrite Eg at 1.
    rewrite List.filter_app. cbn [List.filter]. rewrite Hrow. cbn [negb].
    now rewrite (filter_none_complete _ H1), (filter_none_complete _ H2).
Qed.

Lemma filter_all_complete (n : nat) :
  List.filter row_complete (replicate n ([] : list (option Kind))) =
  replicate n [].
Proof. induction n as [|n IH]; [reflexivity|]. simpl. now rewrite IH. Qed.

Lemma rows_all_nil (g : Grid) :
  Forall (fun row => length row = 0%nat) g -> g = replicate (length g) [].
Proof.
  induction 1 as [|row g Hrow _ IH]; [reflexivity|]. simpl.
  apply length_zero_iff_nil in Hrow. now rewrite Hrow, <- IH.
Qed.

(** X8: on a well-formed board whose width is 0 or less every row is an
    empty list, which counts as completed: [clear_lines] returns the number
    of rows of the board and adds it to the counter, and the grid is left
    as it was. *)
Theorem clear_lines_zero_width (b : Board) :
  wf_board b -> width b <= 0 ->
  clear_lines b =
    Ok (mkBoard (width b) (height b) (grid b)
          (cleared_lines b + Z.max 0 (height b)), Z.max 0 (height b)).
Proof.
  intros Hwf Hw.
  destruct (clear_lines_count _ Hwf) as (b' & E & Hwf' & Hw' & Hh' & Hc).
  assert (Hnil : forall g h, wf_grid (width b) h g ->
                   g = replicate (Z.to_nat h) []).
  { intros g h [Hlen Hrows]. rewrite (rows_all_nil g), Hlen; [reflexivity|].
    eapply Forall_impl; [exact Hrows|]. simpl. intros row Hr. lia. }
  assert (Hn : completed_rows (grid b) = Z.max 0 (height b)).
  { unfold completed_rows. rewrite (Hnil _ _ Hwf).
    rewrite filter_all_complete, length_replicate. lia. }
  rewrite E, Hn. rewrite Hn in Hc. f_equal. f_equal.
  destruct b' as [w' h' g' c']. unfold wf_board in Hwf'.
  cbn [width height cleared_lines grid] in Hw', Hh', Hc, Hwf'. subst w' h'.
  f_equal; [|exact Hc]. now rewrite (Hnil _ _ Hwf'), (Hnil _ _ Hwf).
Qed.

Lemma write_cells_above (w h : Z) (k : Kind) (cells : list (Z * Z)) (g : Grid) :
  Forall (fun c => c.2 < 0) cells -> write_cells w h k cells g = Ok g.
Proof.
  induction 1 as [|[cx cy] rest Hc _ IH]; [reflexivity|].
  cbn [write_cells]. simpl in Hc.
  destruct (Z.leb_spec 0 cy); [lia|]. exact IH.
Qed.

Lemma place_piece_true_valid (b b' : Board) (p : BlockDrop) :
  wf_board b -> place_piece b p = Ok (b', true) ->
  is_valid_position b p = Ok true.
Proof.
  intros Hwf Hp. destruct (is_valid_position_total b p Hwf) as [[|] E];
    [exact E|].
  rewrite (place_piece_invalid b p E) in Hp. discriminate.
Qed.

(** X9: after [place_piece] has locked a piece, the same piece at the same
    position is invalid as soon as one of its cells has a row of 0 or more
    (that cell is now occupied); if all its cells are above the board the
    piece is not written at all, the board is the one given and the piece
    is still valid. *)
Theorem place_piece_then_collides (b b' : Board) (p : BlockDrop) :
  wf_board b -> place_piece b p = Ok (b', true) ->
  exists cells, get_cells p = Ok cells /\
    (Exists (fun c => 0 <= c.2) cells -> is_valid_position b' p = Ok false) /\
    (Forall (fun c => c.2 < 0) cells ->
       b' = b /\ is_valid_position b' p = Ok true).
Proof.
  intros Hwf Hp. pose proof (place_piece_true_valid b b' p Hwf Hp) as Hv.
  destruct (is_valid_position_cases b p Hwf) as (cells & Ecells & [[E _]|[_ Hok]]);
    [congruence|].
  exists cells. split; [exact Ecells|]. split.
  - intros Hex.
    destruct (place_piece_valid b p cells Hwf Ecells Hv)
      as (b1 & Ep & Hwf1 & Hw1 & Hh1 & _ & Hcell).
    assert (b1 = b') by congruence. subst b1.
    destruct (is_valid_position_cases b' p Hwf1)
      as (cells' & Ecells' & [[E _]|[_ Hok']]); [exact E|].
    assert (cells' = cells) by congruence. subst cells'. exfalso.
    apply Exists_exists in Hex as ([cx cy] & Hin & Hcy). simpl in Hcy.
    rewrite Forall_forall in Hok, Hok'.
    pose proof (Hok _ Hin) as Hfree. apply (Hok' _ Hin).
    unfold cell_fails in *. simpl in *. right; right; right.
    split; [lia|]. exists (piece_type p).
    rewrite (Hcell cx cy) by lia. now rewrite decide_True.
  - intros Habove. unfold place_piece in Hp. rewrite Hv, Ecells in Hp.
    cbn [mbind res_bind] in Hp. rewrite write_cells_above in Hp by exact Habove.
    cbn [mbind res_bind] in Hp. inversion Hp; subst b'.
    assert (Eb : set_grid b (grid b) = b) by now destruct b.
    now rewrite Eb.
Qed.

(** ** More on the board: the shadow, the holes, the empty board *)

(** A cell that passes the four tests of [is_valid_position] is within the
    columns of the board and above its bottom edge, and is empty if its row
    is not negative. *)
Lemma passing_cell_free (b : Board) (c : Z * Z) :
  wf_board b -> ~ cell_fails b c ->
  0 <= c.1 < width b /\ c.2 < height b /\
  (0 <= c.2 -> get_cell_type b c.1 c.2 = Ok None).
Proof.
  intros Hwf Hc. unfold cell_fails in Hc.
  assert (Hx : 0 <= c.1 < width b) by lia.
  assert (Hy : c.2 < height b) by lia.
  split; [exact Hx|]. split; [exact Hy|]. intros Hy0.
  destruct (read_cell b c.1 c.2 Hwf Hx ltac:(lia))
    as (row & [k|] & _ & _ & _ & _ & E); [|exact E].
  exfalso. apply Hc. right; right; right. split; [lia|]. now exists k.
Qed.

(** X10: on a well-formed board and with enough iterations allowed,
    [get_shadow_cells] returns the cells of the piece moved down by the
    distance between its row and the row [r] that [get_drop_position]
    returns.  For a valid piece [r] is at or below the piece, the piece is
    valid at row [r] and cannot go one row lower, and every shadow cell
    passes the tests of [is_valid_position]: its column is inside the
    board, its row is above the bottom edge, and the cell is empty if its
    row is not negative.  Shadow cells can lie above the board, as the
    cells of the piece can; when no cell of the piece has a negative row,
    every shadow cell is inside the board and empty.  For a piece that is
    invalid where it stands [r] is the row above it, so the shadow is the
    piece moved up by one row. *)
Theorem get_shadow_cells_spec (b : Board) (p : BlockDrop) :
  wf_board b ->
  exists r cells shadow,
    get_cells p = Ok cells /\
    (forall fuel, (S (Z.to_nat (height b - y p)) <= fuel)%nat ->
       get_drop_position fuel b p = Ok r /\
       get_shadow_cells fuel b p = Ok shadow) /\
    shadow = map (fun c => (c.1, c.2 + (r - y p))) cells /\
    (is_valid_position b p = Ok true ->
       y p <= r /\
       is_valid_position b (set_y p r) = Ok true /\
       is_valid_position b (set_y p (r + 1)) = Ok false /\
       Forall (fun c => 0 <= c.1 < width b /\ c.2 < height b /\
                        (0 <= c.2 -> get_cell_type b c.1 c.2 = Ok None))
              shadow /\
       (Forall (fun c => 0 <= c.2) cells ->
        Forall (fun c => 0 <= c.1 < width b /\ 0 <= c.2 < height b /\
                         get_cell_type b c.1 c.2 = Ok None) shadow)) /\
    (is_valid_position b p = Ok false -> r = y p - 1).
Proof.
  intros Hwf.
  destruct (drop_loop_spec b (Z.to_nat (height b - y p)) p Hwf)
    as (r & Hr & Hloop & Hval & Hinv); [lia|].
  destruct (current_shape_Ok p) as (s & _ & Es).
  exists (r - 1), (shape_cells (x p) (y p) s), (shape_cells (x p) (r - 1) s).
  assert (Ecells : forall v, get_cells (set_y p v) = Ok (shape_cells (x p) v s)).
  { intros v. unfold get_cells.
    assert (E' : current_shape (set_y p v) = Ok s) by exact Es.
    now rewrite E'. }
  assert (Hshift : shape_cells (x p) (r - 1) s =
                   map (fun c => (c.1, c.2 + (r - 1 - y p)))
                       (shape_cells (x p) (y p) s)).
  { rewrite (shape_cells_shift (x p) (r - 1)), (shape_cells_shift (x p) (y p)).
    rewrite map_map. apply map_ext. intros [a1 a2]. simpl. f_equal. lia. }
  split; [unfold get_cells; now rewrite Es|]. split; [|split; [|split]].
  - intros fuel Hf.
    assert (Ed : get_drop_position fuel b p = Ok (r - 1)).
    { unfold get_drop_position. rewrite copy_same, (Hloop fuel Hf). reflexivity. }
    split; [exact Ed|]. unfold get_shadow_cells. rewrite Ed.
    cbn [mbind res_bind]. rewrite copy_same. apply Ecells.
  - exact Hshift.
  - intros Hv.
    assert (Hr' : y p < r).
    { destruct (Z.eq_dec r (y p)) as [->|]; [|lia].
      rewrite set_y_same in Hinv. congruence. }
    pose proof (Hval (r - 1) ltac:(lia)) as Hvr.
    assert (Hpass : Forall (fun c => 0 <= c.1 < width b /\ c.2 < height b /\
                              (0 <= c.2 -> get_cell_type b c.1 c.2 = Ok None))
                      (shape_cells (x p) (r - 1) s)).
    { destruct (is_valid_position_cases b (set_y p (r - 1)) Hwf)
        as (cells' & E' & [[Hf _]|[_ Hok]]); [congruence|].
      rewrite Ecells in E'. inversion E'; subst.
      eapply Forall_impl; [exact Hok|].
      intros c Hc. now apply passing_cell_free. }
    split; [lia|]. split; [exact Hvr|].
    split; [now replace (r - 1 + 1) with r by lia|].
    split; [exact Hpass|].
    intros Hrows. rewrite Hshift in Hpass |- *.
    apply List.Forall_map. apply List.Forall_map in Hpass.
    rewrite Forall_forall in Hpass, Hrows. apply Forall_forall.
    intros c Hin. specialize (Hpass c Hin). specialize (Hrows c Hin).
    cbn [fst snd] in *. destruct Hpass as (Hx & Hy & Hfree).
    split; [exact Hx|]. split; [lia|]. apply Hfree. lia.
  - intros Hf. destruct (Z.eq_dec r (y p)) as [->|Hne]; [reflexivity|].
    rewrite <- (set_y_same p) in Hf. rewrite (Hval (y p)) in Hf by lia.
    discriminate.
Qed.

Lemma range_snoc (n : nat) :
  Py.range (Z.of_nat (S n)) = Py.range (Z.of_nat n) ++ [Z.of_nat n].
Proof.
  unfold Py.range. rewrite !Nat2Z.id, seq_S, map_app. reflexivity.
Qed.

Lemma cell_at_read (b : Board) (cx cy : Z) :
  wf_board b -> 0 <= cx < width b -> 0 <= cy < height b ->
  exists c, cell_at (grid b) cx cy = Some c /\
            get_cell_type b cx cy = Ok c /\
            exists row, Py.getitem (grid b) cy = Ok row /\
                        Py.getitem row cx = Ok c.
Proof.
  intros Hwf Hx Hy.
  destruct (read_cell b cx cy Hwf Hx Hy) as (row & c & Hr & Hc & Er & Ec & E).
  exists c. split; [unfold cell_at; rewrite Hr; exact Hc|]. eauto.
Qed.

(** The scan of one column by [count_holes], from row [s] downwards. *)
Lemma holes_scan_spec (b : Board) (col : Z) (n s : nat) (bf : bool) (holes : Z) :
  wf_board b -> 0 <= col < width b -> (s + n)%nat = Z.to_nat (height b) ->
  bf = existsb (block_at (grid b) col) (Py.range (Z.of_nat s)) ->
  holes_scan b col (map Z.of_nat (seq s n)) bf holes =
  Ok (holes + Z.of_nat (length (List.filter (is_hole (grid b) col)
                                  (map Z.of_nat (seq s n))))).
Proof.
  intros Hwf Hcol. revert s bf holes.
  induction n as [|n IH]; intros s bf holes Hs Hbf.
  { simpl. now rewrite Z.add_0_r. }
  cbn [seq map holes_scan List.filter].
  destruct (cell_at_read b col (Z.of_nat s) Hwf Hcol)
    as (c & Hcell & _ & row & -> & Ec); [lia|].
  cbn [mbind res_bind]. rewrite Ec. cbn [mbind res_bind].
  assert (Hblock : block_at (grid b) col (Z.of_nat s) = is_not_None c).
  { unfold block_at. rewrite Hcell. now destruct c. }
  assert (Hnext : existsb (block_at (grid b) col) (Py.range (Z.of_nat (S s)))
                  = bf || is_not_None c).
  { rewrite range_snoc, existsb_app, <- Hbf. simpl.
    now rewrite Hblock, orb_false_r. }
  assert (Hhole : is_hole (grid b) col (Z.of_nat s)
                  = negb (is_not_None c) && bf).
  { unfold is_hole. rewrite Hcell, Hbf. now destruct c. }
  rewrite Hhole. destruct c as [k|]; cbn [is_not_None negb andb].
  - rewrite (IH (S s) true holes); [reflexivity | lia |].
    rewrite Hnext. now rewrite orb_true_r.
  - destruct bf.
    + rewrite (IH (S s) true (holes + 1)); [|lia|now rewrite Hnext].
      cbn [length]. f_equal. lia.
    + rewrite (IH (S s) false holes); [reflexivity | lia | now rewrite Hnext].
Qed.

Lemma holes_cols_spec (b : Board) (cols : list Z) (holes : Z) :
  wf_board b -> Forall (fun col => 0 <= col < width b) cols ->
  holes_cols b cols holes =
  Ok (holes + foldr Z.add 0 (map (holes_in_column (grid b) (height b)) cols)).
Proof.
  intros Hwf Hcols. revert holes.
  induction Hcols as [|col rest Hcol _ IH]; intros holes.
  { simpl. now rewrite Z.add_0_r. }
  cbn [holes_cols map foldr]. unfold Py.range at 1.
  rewrite (holes_scan_spec b col (Z.to_nat (height b)) 0 false holes Hwf Hcol);
    [|lia|reflexivity].
  cbn [mbind res_bind]. rewrite IH. f_equal. unfold holes_in_column, Py.range.
  lia.
Qed.

Lemma is_hole_iff (b : Board) (cx cy : Z) :
  wf_board b -> 0 <= cx < width b -> 0 <= cy < height b ->
  (is_hole (grid b) cx cy = true <->
   get_cell_type b cx cy = Ok None /\
   exists r, 0 <= r < cy /\ occupied b cx r).
Proof.
  intros Hwf Hx Hy.
  destruct (cell_at_read b cx cy Hwf Hx Hy) as (c & Hcell & Eg & _).
  unfold is_hole. rewrite Hcell, Eg.
  assert (Hex : existsb (block_at (grid b) cx) (Py.range cy) = true <->
                exists r, 0 <= r < cy /\ occupied b cx r).
  { rewrite existsb_exists. split.
    - intros (r & Hin & Hb). apply range_elem in Hin. exists r. split; [lia|].
      destruct (cell_at_read b cx r Hwf Hx) as (c' & Hc' & Eg' & _); [lia|].
      unfold block_at in Hb. rewrite Hc' in Hb.
      destruct c' as [k|]; [|discriminate]. exists k. exact Eg'.
    - intros (r & Hr & k & Hk). exists r. split; [apply range_elem; lia|].
      destruct (cell_at_read b cx r Hwf Hx) as (c' & Hc' & Eg' & _); [lia|].
      unfold block_at. rewrite Hc'. rewrite Hk in Eg'. now inversion Eg'. }
  destruct c as [k|].
  - split; [discriminate|]. intros [E _]. discriminate.
  - rewrite Hex. split; [auto | tauto].
Qed.

(** X11: on a well-formed board [count_holes] returns without raising the
    sum, over the columns, of the number of holes of the column, a hole
    being a cell inside the board that is empty while some cell above it in
    the same column is occupied. *)
Theorem count_holes_spec (b : Board) :
  wf_board b ->
  count_holes b =
    Ok (foldr Z.add 0
          (map (holes_in_column (grid b) (height b)) (Py.range (width b)))) /\
  (forall cx cy, 0 <= cx < width b -> 0 <= cy < height b ->
     (is_hole (grid b) cx cy = true <->
      get_cell_type b cx cy = Ok None /\
      exists r, 0 <= r < cy /\ occupied b cx r)).
Proof.
  intros Hwf. split.
  - unfold count_holes. rewrite holes_cols_spec; [reflexivity | exact Hwf |].
    apply range_Forall.
  - intros cx cy. now apply is_hole_iff.
Qed.

Lemma cell_at_empty_grid (w h cx cy : Z) :
  cell_at (empty_grid w h) cx cy = Some None \/
  cell_at (empty_grid w h) cx cy = None.
Proof.
  unfold cell_at, empty_grid, empty_row.
  destruct (replicate (Z.to_nat h) (replicate (Z.to_nat w) None) !! Z.to_nat cy)
    as [row|] eqn:Hr; [|now right].
  apply lookup_replicate in Hr as [-> _]. simpl.
  destruct (replicate (Z.to_nat w) (@None Kind) !! Z.to_nat cx) as [c|] eqn:Hc;
    [|now right].
  apply lookup_replicate in Hc as [-> _]. now left.
Qed.

Lemma is_hole_empty_grid (w h cx cy : Z) :
  is_hole (empty_grid w h) cx cy = false.
Proof.
  unfold is_hole.
  destruct (cell_at (empty_grid w h) cx cy) as [[k|]|]; try reflexivity.
  apply not_true_is_false. rewrite existsb_exists. intros (r & _ & Hb).
  unfold block_at in Hb.
  destruct (cell_at_empty_grid w h cx r) as [E|E]; rewrite E in Hb; discriminate.
Qed.

Lemma row_complete_empty_row (w : Z) :
  0 < w -> row_complete (empty_row w) = false.
Proof.
  intros Hw. unfold empty_row.
  destruct (Z.to_nat w) as [|n] eqn:E; [lia | reflexivity].
Qed.

Lemma completed_rows_empty_grid (w h : Z) :
  0 < w -> completed_rows (empty_grid w h) = 0.
Proof.
  intros Hw. unfold completed_rows, empty_grid.
  induction (Z.to_nat h) as [|n IH]; [reflexivity|].
  cbn [replicate List.filter]. now rewrite (row_complete_empty_row w Hw).
Qed.

(** X12: [clear_board] leaves, whatever the grid and the counter held, the
    board that the constructor builds for the same dimensions.  When both
    dimensions are positive that board is well formed, every cell reads as
    empty, it is not topped out, every column has height 0, it has no
    holes, and [clear_lines] returns 0 and leaves it as it is. *)
Theorem clear_board_is_empty (b : Board) :
  0 < width b -> 0 < height b ->
  let e := clear_board b in
  e = Board_init (width b) (height b) /\ wf_board e /\
  (forall cx cy, get_cell_type e cx cy = Ok None) /\
  is_game_over e = Ok false /\
  (forall col, 0 <= col < width b -> get_height_at_column e col = Ok 0) /\
  count_holes e = Ok 0 /\
  clear_lines e = Ok (e, 0).
Proof.
  intros Hw Hh e. pose proof (wf_Board_init (width b) (height b)) as Hwf.
  change (Board_init (width b) (height b)) with e in Hwf.
  assert (Hcell : forall cx cy, get_cell_type e cx cy = Ok None).
  { intros cx cy.
    destruct (decide (0 <= cx < width e /\ 0 <= cy < height e)) as [[Hx Hy]|Hout].
    - destruct (cell_at_read e cx cy Hwf Hx Hy) as (c & Hc & -> & _).
      destruct (cell_at_empty_grid (width b) (height b) cx cy) as [E|E];
        simpl in Hc; congruence.
    - unfold get_cell_type.
      destruct (Z.leb_spec 0 cx), (Z.ltb_spec cx (width e)),
        (Z.leb_spec 0 cy), (Z.ltb_spec cy (height e)); try reflexivity.
      destruct Hout. lia. }
  split; [reflexivity|]. split; [exact Hwf|]. split; [exact Hcell|].
  split; [|split; [|split]].
  - unfold is_game_over.
    destruct (getitem_in_range (grid e) 0) as (row & Hrow & ->).
    { destruct Hwf as [Hlen _]. simpl in *. lia. }
    cbn [mbind res_bind]. f_equal. apply not_true_is_false.
    rewrite existsb_is_not_None. intros (i & k & Hi).
    simpl in Hrow. unfold empty_grid in Hrow.
    apply lookup_replicate in Hrow as [-> _].
    apply lookup_replicate in Hi as [Hi _]. discriminate.
  - intros col Hcol.
    destruct (height_scan_spec e col (Z.to_nat (height e)) 0 Hwf Hcol)
      as [H0 _]; [lia|].
    apply H0. intros r _. apply Hcell.
  - unfold count_holes. rewrite holes_cols_spec; [|exact Hwf|apply range_Forall].
    assert (Hcol : forall col rs,
              List.filter (is_hole (empty_grid (width b) (height b)) col) rs = []).
    { intros col rs. induction rs as [|r rs IHr]; [reflexivity|].
      cbn [List.filter]. now rewrite is_hole_empty_grid. }
    assert (Hsum : forall cols,
              foldr Z.add 0 (map (holes_in_column (grid e) (height e)) cols) = 0).
    { intros cols. induction cols as [|col rest IH]; [reflexivity|].
      cbn [map foldr]. rewrite IH. unfold holes_in_column. simpl.
      now rewrite Hcol. }
    now rewrite Hsum.
  - rewrite (clear_lines_at_most_one e Hwf);
      simpl; rewrite (completed_rows_empty_grid _ _ Hw); [|lia].
    unfold gravity_compaction. unfold completed_rows in *.
    pose proof (completed_rows_empty_grid (width b) (height b) Hw) as Hn.
    unfold completed_rows in Hn.
    assert (Hnil : List.filter row_complete (empty_grid (width b) (height b)) = [])
      by (apply length_zero_iff_nil; lia).
    rewrite Hnil, (filter_none_complete _ Hnil). reflexivity.
Qed.

(** ** More on the engine: moving and dropping *)

Section EngineMore.

Context {RNG : Type}.
Variable shuffle : RNG -> list Kind -> RNG * list Kind.
Variable fall_speed_at : Z -> Z.

Implicit Types (g : TetrisGame RNG) (cur : BlockDrop).

Lemma set_current_piece_same g cur :
  current_piece g = Some cur -> set_current_piece g (Some cur) = g.
Proof. destruct g; simpl; intros ->; reflexivity. Qed.

Lemma move_down cur : move cur 0 1 = set_y cur (y cur + 1).
Proof. unfold move, set_y. f_equal. lia. Qed.

Lemma move_piece_active g (dx dy : Z) cur :
  wf_board (board g) -> current_piece g = Some cur ->
  game_over g = false -> paused g = false ->
  (is_valid_position (board g) (move cur dx dy) = Ok true /\
   move_piece g dx dy = Ok (set_current_piece g (Some (move cur dx dy)), true)) \/
  (is_valid_position (board g) (move cur dx dy) = Ok false /\
   move_piece g dx dy = Ok (g, false)).
Proof.
  intros Hwf Hcur Hover Hpaused. unfold move_piece.
  rewrite Hcur, Hover, Hpaused. cbn [orb]. rewrite copy_same.
  destruct (is_valid_position_total (board g) (move cur dx dy) Hwf) as [[|] E];
    rewrite E; [left | right]; split; reflexivity.
Qed.

Lemma not_active_cases g :
  (game_over g = false /\ paused g = false) \/
  (game_over g = true \/ paused g = true).
Proof. destruct (game_over g), (paused g); auto. Qed.

(** The loop of wall kicks either fails, leaving the game as it is, or
    commits the rotated piece at an offset of its list where it is valid. *)
Lemma wall_kicks_result g (cw : bool) cur (dxs : list Z) (test_piece : BlockDrop) :
  wf_board (board g) ->
  (forall v, set_x test_piece v = set_x (rotate_dir cw cur) v) ->
  wall_kicks g cw cur test_piece dxs = Ok (g, false) \/
  exists dx, In dx dxs /\
    is_valid_position (board g) (set_x (rotate_dir cw cur) (x cur + dx)) = Ok true /\
    wall_kicks g cw cur test_piece dxs =
      Ok (set_current_piece g (Some (set_x (rotate_dir cw cur) (x cur + dx))), true).
Proof.
  intros Hwf. revert test_piece.
  induction dxs as [|d rest IH]; intros test_piece Htp; [now left|].
  cbn [wall_kicks]. rewrite Htp.
  destruct (is_valid_position_total (board g)
              (set_x (rotate_dir cw cur) (x cur + d)) Hwf) as [[|] E]; rewrite E.
  - right. exists d. split; [now left|]. split; [exact E|].
    cbn [mbind res_bind]. now rewrite rotate_dir_x.
  - cbn [mbind res_bind].
    destruct (IH (set_x (set_x (rotate_dir cw cur) (x cur + d)) (x cur)))
      as [Hf|(dx & Hin & Hv & Hk)]; [reflexivity | now left |].
    right. exists dx. split; [now right|]. split; [exact Hv | exact Hk].
Qed.

Lemma move_piece_result g cur (dx dy : Z) :
  wf_board (board g) -> current_piece g = Some cur ->
  is_valid_position (board g) cur = Ok true ->
  exists q (ok : bool),
    move_piece g dx dy = Ok (set_current_piece g (Some q), ok) /\
    is_valid_position (board g) q = Ok true /\
    q = if ok then move cur dx dy else cur.
Proof using Type.
  intros Hwf Hcur Hv. destruct (not_active_cases g) as [[Ho Hp]|Hblocked].
  - destruct (move_piece_active g dx dy cur Hwf Hcur Ho Hp) as [[E ->]|[E ->]].
    + exists (move cur dx dy), true. auto.
    + exists cur, false. rewrite (set_current_piece_same g cur Hcur). auto.
  - exists cur, false. rewrite (set_current_piece_same g cur Hcur).
    rewrite move_piece_blocked by (destruct Hblocked; auto). auto.
Qed.

Lemma rotate_piece_result g cur (cw : bool) :
  wf_board (board g) -> current_piece g = Some cur ->
  is_valid_position (board g) cur = Ok true ->
  exists q (ok : bool),
    rotate_piece g cw = Ok (set_current_piece g (Some q), ok) /\
    is_valid_position (board g) q = Ok true /\
    y q = y cur /\ piece_type q = piece_type cur /\
    (ok = false -> q = cur) /\
    (ok = true -> exists dx, In dx [0; -1; 1; -2; 2] /\
                    q = set_x (rotate_dir cw cur) (x cur + dx)).
Proof.
  intros Hwf Hcur Hv. destruct (not_active_cases g) as [[Ho Hp]|Hblocked].
  2:{ exists cur, false. rewrite (set_current_piece_same g cur Hcur).
      rewrite rotate_piece_blocked by tauto.
      repeat split; auto. discriminate. }
  unfold rotate_piece. rewrite Hcur, Ho, Hp. cbn [orb]. rewrite copy_same.
  destruct (is_valid_position_total (board g) (rotate_dir cw cur) Hwf)
    as [[|] E]; rewrite E; cbn [mbind res_bind].
  - exists (rotate_dir cw cur), true. split; [reflexivity|].
    split; [exact E|]. split; [now destruct cw|]. split; [now destruct cw|].
    split; [discriminate|]. intros _. exists 0. split; [now left|].
    rewrite Z.add_0_r, <- (rotate_dir_x cw cur). now rewrite set_x_same.
  - destruct (wall_kicks_result g cw cur [-1; 1; -2; 2] (rotate_dir cw cur) Hwf)
      as [->|(dx & Hin & Hvk & ->)]; [reflexivity| |].
    + exists cur, false. rewrite (set_current_piece_same g cur Hcur).
      repeat split; auto. discriminate.
    + exists (set_x (rotate_dir cw cur) (x cur + dx)), true.
      split; [reflexivity|]. split; [exact Hvk|].
      split; [now destruct cw|]. split; [now destruct cw|].
      split; [discriminate|]. intros _. exists dx. split; [now right | reflexivity].
Qed.

Lemma soft_drop_result g cur :
  wf_board (board g) -> current_piece g = Some cur ->
  is_valid_position (board g) cur = Ok true ->
  exists q (ok : bool),
    soft_drop g =
      Ok (set_score (set_current_piece g (Some q))
            (score g + if ok then SCORE_SOFT_DROP else 0), ok) /\
    is_valid_position (board g) q = Ok true /\
    q = if ok then move cur 0 1 else cur.
Proof using Type.
  intros Hwf Hcur Hv.
  destruct (move_piece_result g cur 0 1 Hwf Hcur Hv) as (q & ok & E & Hq & Hqeq).
  exists q, ok. unfold soft_drop. rewrite E. cbn [mbind res_bind].
  split; [|auto]. destruct ok; [reflexivity|].
  rewrite Z.add_0_r. clear. now destruct g.
Qed.

(** X13: on a well-formed board and with a valid current piece,
    [move_piece], [rotate_piece] and [soft_drop] return without raising and
    change nothing but the current piece (and, for a successful soft drop,
    the score, by 1): the game returned has the piece [q] as its current
    piece and every other attribute as before.  The piece [q] is valid:
    after a success it is the piece moved by the offset asked for, or
    rotated and shifted by 0 or by one of the wall-kick offsets, and after
    a failure it is the piece as it was.  A rotation never changes the row
    or the type of the piece. *)
Theorem moves_keep_piece_valid g cur :
  wf_board (board g) -> current_piece g = Some cur ->
  is_valid_position (board g) cur = Ok true ->
  (forall dx dy, exists g' q (ok : bool),
     move_piece g dx dy = Ok (g', ok) /\
     g' = set_current_piece g (Some q) /\
     current_piece g' = Some q /\ score g' = score g /\
     same_but_piece_score g g' /\
     is_valid_position (board g) q = Ok true /\
     q = if ok then move cur dx dy else cur) /\
  (forall cw, exists g' q (ok : bool),
     rotate_piece g cw = Ok (g', ok) /\
     g' = set_current_piece g (Some q) /\
     current_piece g' = Some q /\ score g' = score g /\
     same_but_piece_score g g' /\
     is_valid_position (board g) q = Ok true /\
     y q = y cur /\ piece_type q = piece_type cur /\
     (ok = false -> q = cur) /\
     (ok = true -> exists dx, In dx [0; -1; 1; -2; 2] /\
                     q = set_x (rotate_dir cw cur) (x cur + dx))) /\
  (exists g' q (ok : bool),
     soft_drop g = Ok (g', ok) /\
     g' = set_score (set_current_piece g (Some q))
            (score g + if ok then SCORE_SOFT_DROP else 0) /\
     current_piece g' = Some q /\
     score g' = score g + (if ok then SCORE_SOFT_DROP else 0) /\
     same_but_piece_score g g' /\
     is_valid_position (board g) q = Ok true /\
     q = if ok then move cur 0 1 else cur).
Proof.
  intros Hwf Hcur Hv. split; [|split].
  - intros dx dy.
    destruct (move_piece_result g cur dx dy Hwf Hcur Hv) as (q & ok & E & H).
    destruct (set_current_piece_fields g (Some q)) as (Hc & Hs & Hk).
    exists (set_current_piece g (Some q)), q, ok.
    split; [exact E|]. split; [reflexivity|]. split; [exact Hc|].
    split; [exact Hs|]. split; [exact Hk | exact H].
  - intros cw.
    destruct (rotate_piece_result g cur cw Hwf Hcur Hv) as (q & ok & E & H).
    destruct (set_current_piece_fields g (Some q)) as (Hc & Hs & Hk).
    exists (set_current_piece g (Some q)), q, ok.
    split; [exact E|]. split; [reflexivity|]. split; [exact Hc|].
    split; [exact Hs|]. split; [exact Hk | exact H].
  - destruct (soft_drop_result g cur Hwf Hcur Hv) as (q & ok & E & H).
    destruct (set_current_piece_fields g (Some q)) as (Hc & Hs & Hk).
    destruct (set_score_fields (set_current_piece g (Some q))
                (score g + if ok then SCORE_SOFT_DROP else 0))
      as (Hc' & Hs' & Hk').
    eexists _, q, ok. split; [exact E|]. split; [reflexivity|].
    split; [etransitivity; [exact Hc' | exact Hc]|]. split; [exact Hs'|].
    split; [|exact H].
    exact (same_but_piece_score_trans _ _ _ Hk Hk').
Qed.

(** The loop of [hard_drop] moves a valid piece down to the first row at
    which it cannot go lower, counting the rows. *)
Lemma hard_drop_loop_spec (m : nat) g cur (d : Z) :
  wf_board (board g) -> current_piece g = Some cur ->
  game_over g = false -> paused g = false ->
  is_valid_position (board g) cur = Ok true ->
  height (board g) - y cur <= Z.of_nat m ->
  exists r, y cur <= r /\
    (forall yy, y cur <= yy <= r ->
       is_valid_position (board g) (set_y cur yy) = Ok true) /\
    is_valid_position (board g) (set_y cur (r + 1)) = Ok false /\
    forall fuel, (S m <= fuel)%nat ->
      hard_drop_loop fuel g d =
        Ok (set_current_piece g (Some (set_y cur r)), d + (r - y cur)).
Proof.
  revert g cur d. induction m as [|m IH];
    intros g cur d Hwf Hcur Ho Hp Hv Hm.
  { apply (valid_above_bottom _ _ Hwf) in Hv. lia. }
  destruct (move_piece_active g 0 1 cur Hwf Hcur Ho Hp) as [[E Em]|[E Em]];
    rewrite ?move_down in E; rewrite ?move_down in Em.
  - destruct (IH (set_current_piece g (Some (set_y cur (y cur + 1))))
                (set_y cur (y cur + 1)) (d + 1))
      as (r & Hr & Hval & Hinv & Hloop); auto.
    { pose proof (valid_above_bottom _ _ Hwf E). simpl in *. lia. }
    simpl in Hr. exists r. split; [lia|]. split; [|split; [exact Hinv|]].
    + intros yy Hyy. destruct (Z.eq_dec yy (y cur)) as [->|Hne].
      * now rewrite set_y_same.
      * apply (Hval yy). simpl. lia.
    + intros [|fuel] Hf; [lia|]. cbn [hard_drop_loop]. rewrite Em.
      cbn [mbind res_bind]. rewrite (Hloop fuel) by lia.
      f_equal. f_equal. simpl. lia.
  - exists (y cur). split; [lia|]. split; [|split; [exact E|]].
    + intros yy Hyy. replace yy with (y cur) by lia. now rewrite set_y_same.
    + intros [|fuel] Hf; [lia|]. cbn [hard_drop_loop]. rewrite Em.
      cbn [mbind res_bind]. rewrite set_y_same.
      rewrite (set_current_piece_same g cur Hcur). f_equal. f_equal. lia.
Qed.

(** X14: in a running game with a valid current piece on a well-formed
    board, and with at least [height - y + 1] iterations allowed to its
    loop, [hard_drop] does what [lock_piece] does to the game [g1] in which
    the piece stands at the row [r] returned by [get_drop_position], in its
    column and rotation, the score has grown by twice the distance [r - y],
    and every other attribute is as before; [r] is at or below the
    piece. *)
Theorem hard_drop_spec g cur :
  wf_board (board g) -> current_piece g = Some cur ->
  game_over g = false -> paused g = false ->
  is_valid_position (board g) cur = Ok true ->
  exists r g1, y cur <= r /\
    g1 = set_score (set_current_piece g (Some (set_y cur r)))
           (score g + (r - y cur) * 2) /\
    current_piece g1 =
      Some (mkBlockDrop (piece_type cur) (x cur) r (rotation cur)) /\
    score g1 = score g + (r - y cur) * 2 /\
    same_but_piece_score g g1 /\
    forall fuel, (S (Z.to_nat (height (board g) - y cur)) <= fuel)%nat ->
      get_drop_position fuel (board g) cur = Ok r /\
      hard_drop shuffle fall_speed_at fuel g =
        lock_piece shuffle fall_speed_at g1.
Proof.
  intros Hwf Hcur Ho Hp Hv.
  destruct (hard_drop_loop_spec (Z.to_nat (height (board g) - y cur)) g cur 0
              Hwf Hcur Ho Hp Hv) as (r & Hr & Hval & Hinv & Hloop); [lia|].
  destruct (drop_loop_spec (board g) (Z.to_nat (height (board g) - y cur)) cur Hwf)
    as (r' & Hr' & Hloop' & Hval' & Hinv'); [lia|].
  assert (Heq : r' = r + 1).
  { destruct (Z_lt_le_dec r' (r + 1)) as [Hlt|Hge].
    - rewrite (Hval r') in Hinv' by lia. discriminate.
    - destruct (Z.eq_dec r' (r + 1)) as [|Hne]; [assumption|].
      rewrite (Hval' (r + 1)) in Hinv by lia. discriminate. }
  subst r'.
  destruct (set_current_piece_fields g (Some (set_y cur r))) as (Hc & Hs & Hk).
  destruct (set_score_fields (set_current_piece g (Some (set_y cur r)))
              (score g + (r - y cur) * 2)) as (Hc' & Hs' & Hk').
  exists r. eexists. split; [exact Hr|]. split; [reflexivity|].
  split; [etransitivity; [exact Hc' | exact Hc]|]. split; [exact Hs'|].
  split; [exact (same_but_piece_score_trans _ _ _ Hk Hk')|].
  intros fuel Hf. split.
  - unfold get_drop_position. rewrite copy_same, (Hloop' fuel Hf). simpl.
    f_equal. lia.
  - unfold hard_drop. rewrite Hcur, Ho, Hp. cbn [orb].
    rewrite (Hloop fuel Hf). cbn [mbind res_bind]. reflexivity.
Qed.

End EngineMore.

(** ** More on the engine: spawning, locking, the session invariant *)

Lemma get_cells_in_box (p : BlockDrop) (cells : list (Z * Z)) :
  get_cells p = Ok cells ->
  Forall (fun c => x p <= c.1 < x p + 4 /\ y p <= c.2 < y p + 4) cells.
Proof.
  intros E. destruct (current_shape_in_SHAPES p) as (s & Es & Hin).
  unfold get_cells in E. rewrite Es in E. cbn [mbind res_bind] in E.
  inversion E; subst cells; clear E.
  pose proof (SHAPES_four_cells (piece_type p)) as H.
  rewrite Forall_forall in H. destruct (H s Hin) as (_ & _ & Hbox).
  rewrite shape_cells_shift. apply Forall_forall. intros c Hc.
  apply list_elem_of_In, in_map_iff in Hc. destruct Hc as (c0 & <- & Hc0).
  rewrite Forall_forall in Hbox. apply list_elem_of_In in Hc0.
  specialize (Hbox c0 Hc0). simpl. lia.
Qed.

Lemma get_cell_type_empty (w h cx cy : Z) :
  get_cell_type (Board_init w h) cx cy = Ok None.
Proof.
  pose proof (wf_Board_init w h) as Hwf.
  destruct (decide (0 <= cx < w /\ 0 <= cy < h)) as [[Hx Hy]|Hout].
  - destruct (cell_at_read (Board_init w h) cx cy Hwf Hx Hy) as (c & Hc & -> & _).
    destruct (cell_at_empty_grid w h cx cy) as [E|E]; simpl in Hc; congruence.
  - unfold get_cell_type. cbn [width height Board_init].
    destruct (Z.leb_spec 0 cx), (Z.ltb_spec cx w),
      (Z.leb_spec 0 cy), (Z.ltb_spec cy h); try reflexivity.
    destruct Hout. lia.
Qed.

(** On an empty board a piece is valid as soon as its 4 x 4 box lies
    between the side walls and above the floor. *)
Lemma valid_on_empty_board (w h : Z) (p : BlockDrop) :
  0 <= x p -> x p + 4 <= w -> y p + 4 <= h ->
  is_valid_position (Board_init w h) p = Ok true.
Proof.
  intros Hx0 Hx1 Hy.
  destruct (is_valid_position_cases (Board_init w h) p (wf_Board_init w h))
    as (cells & E & [[_ Hex]|[Hv _]]); [|exact Hv].
  exfalso. pose proof (get_cells_in_box p cells E) as Hbox.
  apply Exists_exists in Hex as ([cx cy] & Hin & Hf).
  rewrite Forall_forall in Hbox. specialize (Hbox _ Hin).
  unfold cell_fails, occupied in Hf. simpl in Hf, Hbox.
  destruct Hf as [?|[?|[?|[_ [k Hk]]]]]; try lia.
  rewrite get_cell_type_empty in Hk. discriminate.
Qed.

Section EngineInvariant.

Context {RNG : Type}.
Variable shuffle : RNG -> list Kind -> RNG * list Kind.
Variable fall_speed_at : Z -> Z.
Hypothesis shuffle_perm : forall r l, Permutation l (shuffle r l).2.

Implicit Types (g : TetrisGame RNG) (cur : BlockDrop).

(** A draw returns a piece of rotation 0 at the coordinates asked for; its
    type is the last of the bag, refilled first if it was empty. *)
Lemma get_next_piece_result (r : RNG) (gen : BlockDropGenerator) (x0 y0 : Z) :
  exists r' rest k,
    get_next_piece shuffle r gen x0 y0 =
      Ok (r', mkGenerator rest, BlockDrop_init k x0 y0) /\
    (bag gen <> [] -> r' = r /\ bag gen = rest ++ [k]) /\
    (bag gen = [] -> Permutation PIECE_TYPES (rest ++ [k])).
Proof.
  destruct gen as [[|k0 l0]].
  - pose proof (refill_bag_perm shuffle shuffle_perm r) as Hp.
    destruct (refill_bag shuffle r) as [r1 [bag1]] eqn:Er. cbn [snd bag] in Hp.
    destruct (nonempty_snoc bag1) as (l & k & ->).
    { intros ->. apply Permutation_length in Hp. discriminate. }
    exists r1, l, k. rewrite (get_next_piece_refill shuffle r r1 l k x0 y0 Er).
    split; [reflexivity|]. split; [intros H; now destruct H | auto].
  - destruct (nonempty_snoc (k0 :: l0)) as (l & k & E); [discriminate|].
    exists r, l, k. rewrite E, get_next_piece_snoc.
    split; [reflexivity|]. split; [auto|]. cbn [bag]. intros H.
    destruct l; discriminate.
Qed.

(** What [spawn_new_piece] does on a well-formed board. *)
Lemma spawn_new_piece_result g :
  wf_board (board g) ->
  exists g' cur' nx,
    spawn_new_piece shuffle g = Ok g' /\
    board g' = board g /\ score g' = score g /\ level g' = level g /\
    lines_cleared g' = lines_cleared g /\ paused g' = paused g /\
    last_fall_time g' = last_fall_time g /\ fall_speed g' = fall_speed g /\
    current_piece g' = Some cur' /\ x cur' = spawn_x /\ y cur' = 0 /\
    next_piece g' = Some nx /\ nx = BlockDrop_init (piece_type nx) 4 0 /\
    (forall np, next_piece g = Some np ->
       cur' = mkBlockDrop (piece_type np) spawn_x 0 (rotation np)) /\
    (next_piece g = None -> rotation cur' = 0) /\
    (is_valid_position (board g) cur' = Ok true -> game_over g' = game_over g) /\
    (is_valid_position (board g) cur' = Ok false -> game_over g' = true).
Proof.
  intros Hwf. unfold spawn_new_piece.
  assert (H1 : exists r1 gen1 c,
    match next_piece g with
    | Some np => Ok (rng g, piece_generator g, set_y (set_x np spawn_x) 0)
    | None => get_next_piece shuffle (rng g) (piece_generator g) spawn_x 0
    end = Ok (r1, gen1, c) /\ x c = spawn_x /\ y c = 0 /\
    (forall np, next_piece g = Some np ->
       c = mkBlockDrop (piece_type np) spawn_x 0 (rotation np)) /\
    (next_piece g = None -> rotation c = 0)).
  { destruct (next_piece g) as [np|].
    - eexists _, _, _. split; [reflexivity|]. repeat split.
      + intros np' Hnp. now inversion Hnp.
      + discriminate.
    - destruct (get_next_piece_result (rng g) (piece_generator g) spawn_x 0)
        as (r1 & rest & k & E & _).
      eexists _, _, _. split; [exact E|]. repeat split. discriminate. }
  destruct H1 as (r1 & gen1 & c & -> & Hcx & Hcy & Hnp & Hnone).
  cbn [mbind res_bind].
  destruct (get_next_piece_result r1 gen1 4 0) as (r2 & rest & k & -> & _).
  cbn [mbind res_bind].
  destruct (is_valid_position_total
              (board (set_pieces g r2 (mkGenerator rest) (Some c)
                        (Some (BlockDrop_init k 4 0)))) c Hwf) as [v Ev].
  rewrite Ev. cbn [mbind res_bind].
  destruct v; eexists _, c, (BlockDrop_init k 4 0); (split; [reflexivity|]);
    repeat split; auto; simpl in Ev; intros Hv; congruence.
Qed.

Lemma place_piece_dims (b : Board) (p : BlockDrop) :
  wf_board b ->
  exists b' placed, place_piece b p = Ok (b', placed) /\
    wf_board b' /\ width b' = width b /\ height b' = height b /\
    cleared_lines b' = cleared_lines b.
Proof.
  intros Hwf. destruct (is_valid_position_cases b p Hwf)
    as (cells & Ecells & [[E _]|[E _]]).
  - exists b, false. split; [now apply place_piece_invalid | auto].
  - destruct (place_piece_valid b p cells Hwf Ecells E)
      as (b' & Ep & Hwf' & Hw & Hh & Hc & _).
    exists b', true. auto.
Qed.

(** The score and level bookkeeping of [lock_piece] after [n] lines. *)
Lemma after_clear_fields g (n : Z) :
  0 <= n -> 0 <= lines_cleared g -> 0 <= score g ->
  level g = 1 + lines_cleared g / LINES_PER_LEVEL ->
  let g2 := if n >? 0
            then update_level fall_speed_at
                   (update_score (set_lines_cleared g (lines_cleared g + n)) n)
            else g in
  board g2 = board g /\ current_piece g2 = current_piece g /\
  next_piece g2 = next_piece g /\ game_over g2 = game_over g /\
  paused g2 = paused g /\
  lines_cleared g2 = lines_cleared g + n /\
  level g2 = 1 + lines_cleared g2 / LINES_PER_LEVEL /\
  score g <= score g2 /\ level g <= level g2.
Proof.
  intros Hn Hl Hs Hlev g2. unfold LINES_PER_LEVEL in *.
  assert (Hmono : lines_cleared g / 10 <= (lines_cleared g + n) / 10)
    by (apply Z.div_le_mono; lia).
  assert (Hlev1 : 1 <= level g).
  { pose proof (Z.div_pos (lines_cleared g) 10). lia. }
  subst g2. destruct (Z.gtb_spec n 0) as [Hpos|Hzero].
  - unfold update_level, LINES_PER_LEVEL.
    assert (Haward : 0 <= (if n =? 1 then SCORE_SINGLE
                           else if n =? 2 then SCORE_DOUBLE
                           else if n =? 3 then SCORE_TRIPLE
                           else if n =? 4 then SCORE_TETRIS else 0)).
    { unfold SCORE_SINGLE, SCORE_DOUBLE, SCORE_TRIPLE, SCORE_TETRIS.
      repeat (destruct (_ =? _)); lia. }
    set (award := if n =? 1 then SCORE_SINGLE
                  else if n =? 2 then SCORE_DOUBLE
                  else if n =? 3 then SCORE_TRIPLE
                  else if n =? 4 then SCORE_TETRIS else 0) in *.
    set (g1 := update_score (set_lines_cleared g (lines_cleared g + n)) n).
    assert (Hg1 : board g1 = board g /\ current_piece g1 = current_piece g /\
                  next_piece g1 = next_piece g /\ game_over g1 = game_over g /\
                  paused g1 = paused g /\
                  lines_cleared g1 = lines_cleared g + n /\
                  level g1 = level g /\
                  score g1 = score g + award * level g)
      by (repeat split).
    destruct Hg1 as (Hb & Hc & Hx & Ho & Hp & Hln & Hlv & Hsc).
    rewrite Hln, Hlv.
    destruct (Z.gtb_spec (1 + (lines_cleared g + n) / 10) (level g));
      cbn [board current_piece next_piece game_over paused lines_cleared
           level score set_level];
      rewrite ?Hb, ?Hc, ?Hx, ?Ho, ?Hp, ?Hln, ?Hlv, ?Hsc;
      repeat split; try lia; try nia.
  - replace n with 0 by lia. rewrite Z.add_0_r. repeat split; lia.
Qed.

(** [lock_piece] keeps the session invariant and never lowers the score,
    the line count or the level. *)
Lemma lock_piece_inv g :
  game_inv g ->
  exists g', lock_piece shuffle fall_speed_at g = Ok g' /\ game_inv g' /\
    paused g' = paused g /\ score g <= score g' /\
    lines_cleared g <= lines_cleared g' /\ level g <= level g' /\
    (game_over g = true -> game_over g' = true).
Proof.
  intros (Hwf & Hw & Hh & (cur & Hcur & Hy & Hvalid) & (np & Hnp) &
          Hsync & Hlines & Hlevel & Hscore).
  destruct (place_piece_dims (board g) cur Hwf)
    as (b1 & placed & Ep & Hwf1 & Hw1 & Hh1 & Hc1).
  destruct (clear_lines_count b1 Hwf1) as (b2 & Ec & Hwf2 & Hw2 & Hh2 & Hc2).
  pose proof (completed_rows_bounds b1 Hwf1) as [Hn0 _].
  set (n := completed_rows (grid b1)) in *.
  unfold lock_piece. rewrite Hcur, Ep. cbn [mbind res_bind].
  rewrite Ec. cbn [mbind res_bind].
  destruct (after_clear_fields (set_board g b2) n Hn0 Hlines Hscore Hlevel)
    as (Hb & Hcp & Hnx & Hgo & Hpa & Hln & Hlv & Hsc & Hlv').
  set (g2 := if n >? 0
             then update_level fall_speed_at
                    (update_score (set_lines_cleared (set_board g b2)
                                     (lines_cleared (set_board g b2) + n)) n)
             else set_board g b2) in *.
  cbn [board current_piece next_piece game_over paused lines_cleared level
       score set_board] in Hb, Hcp, Hnx, Hgo, Hpa, Hln, Hlv, Hsc, Hlv'.
  assert (Hwfg2 : wf_board (board g2)) by now rewrite Hb.
  destruct (is_game_over_total (board g2)) as [over ->]; [exact Hwfg2| |].
  { rewrite Hb, Hh2, Hh1, Hh. reflexivity. }
  cbn [mbind res_bind]. destruct over.
  - eexists. split; [reflexivity|].
    split; [|cbn [paused score lines_cleared level set_game_over game_over];
             repeat split; auto; lia].
    unfold game_inv.
    cbn [board current_piece next_piece game_over lines_cleared level score
         set_game_over].
    rewrite Hb, Hcp, Hnx, Hcur, Hnp.
    split; [exact Hwf2|]. split; [congruence|]. split; [congruence|].
    split; [exists cur; repeat split; auto; discriminate|].
    split; [eauto|]. split; [lia|]. split; [lia|]. split; [exact Hlv | lia].
  - destruct (spawn_new_piece_result g2 Hwfg2)
      as (g' & cur' & nx & -> & Hb' & Hs' & Hl' & Hlc' & Hp' & _ & _ &
          Hcur' & Hx' & Hy' & Hnx' & _ & _ & _ & Hvt & Hvf).
    exists g'. split; [reflexivity|]. split.
    + unfold game_inv. rewrite Hb', Hb, Hcur', Hnx', Hlc', Hl', Hs'.
      split; [exact Hwf2|]. split; [congruence|]. split; [congruence|].
      split.
      { exists cur'. split; [reflexivity|]. split; [lia|]. intros Hgo'.
        rewrite Hb in Hvt, Hvf.
        destruct (is_valid_position_total b2 cur' Hwf2) as [[|] Ev];
          [exact Ev|]. rewrite (Hvf Ev) in Hgo'. discriminate. }
      split; [eauto|]. split; [lia|]. split; [lia|]. split; [exact Hlv | lia].
    + rewrite Hp', Hs', Hlc', Hl'. repeat split; auto; try lia.
      intros Hgo'. rewrite Hgo' in Hgo.
      destruct (is_valid_position_total (board g2) cur' Hwfg2) as [[|] Ev].
      * rewrite (Hvt Ev). exact Hgo.
      * exact (Hvf Ev).
Qed.

Lemma game_inv_ext g g' :
  board g' = board g -> current_piece g' = current_piece g ->
  next_piece g' = next_piece g -> game_over g' = game_over g ->
  lines_cleared g' = lines_cleared g -> level g' = level g ->
  score g' = score g -> game_inv g -> game_inv g'.
Proof.
  unfold game_inv. intros -> -> -> -> -> -> ->. auto.
Qed.

Lemma game_inv_piece g (q : BlockDrop) (s : Z) :
  game_inv g -> 0 <= y q -> is_valid_position (board g) q = Ok true ->
  0 <= s -> game_inv (set_score (set_current_piece g (Some q)) s).
Proof.
  intros (Hwf & Hw & Hh & _ & Hnp & Hsync & Hlines & Hlevel & Hscore) Hy Hv Hs.
  unfold game_inv.
  cbn [board current_piece next_piece game_over lines_cleared level score
       set_score set_current_piece set_pieces].
  split; [exact Hwf|]. split; [exact Hw|]. split; [exact Hh|].
  split; [exists q; auto|]. auto.
Qed.

Lemma game_inv_current g (q : BlockDrop) :
  game_inv g -> 0 <= y q -> is_valid_position (board g) q = Ok true ->
  game_inv (set_current_piece g (Some q)).
Proof.
  intros Hinv Hy Hv.
  apply (game_inv_ext (set_score (set_current_piece g (Some q)) (score g)));
    try reflexivity.
  apply game_inv_piece; auto. apply Hinv.
Qed.

(** Every operation issued to a session that satisfies the invariant
    returns without raising, keeps the invariant, lowers neither the score
    nor the line count nor the level, and does not revive a finished
    game. *)
Lemma run_op_inv g (o : Op) :
  game_inv g -> playable o ->
  exists g', run_op shuffle fall_speed_at g o = Ok g' /\ game_inv g' /\
    score g <= score g' /\ lines_cleared g <= lines_cleared g' /\
    level g <= level g' /\ (game_over g = true -> game_over g' = true).
Proof.
  intros Hinv Hplay.
  assert (Hsame : exists g', Ok g = Ok g' /\ game_inv g' /\
            score g <= score g' /\ lines_cleared g <= lines_cleared g' /\
            level g <= level g' /\ (game_over g = true -> game_over g' = true)).
  { exists g. split; [reflexivity|]. split; [exact Hinv|].
    repeat split; auto; lia. }
  pose proof Hinv as (Hwf & Hw & Hh & (cur & Hcur & Hy & Hvalid) & _ & _ &
                      _ & _ & Hscore).
  destruct (not_active_cases g) as [[Ho Hp]|Hblocked].
  2:{ destruct o; cbn [run_op].
      - rewrite move_piece_blocked by tauto. exact Hsame.
      - rewrite rotate_piece_blocked by tauto. exact Hsame.
      - rewrite soft_drop_blocked by tauto. exact Hsame.
      - rewrite hard_drop_blocked by tauto. exact Hsame.
      - rewrite update_blocked by tauto. exact Hsame.
      - eexists. split; [reflexivity|]. split.
        + eapply game_inv_ext; [..|exact Hinv]; reflexivity.
        + cbn. repeat split; auto; lia. }
  specialize (Hvalid Ho).
  destruct o as [dx dy|cw| |fuel|t|]; cbn [run_op]; cbn [playable] in Hplay.
  - destruct (move_piece_result g cur dx dy Hwf Hcur Hvalid)
      as (q & ok & -> & Hq & Hqeq).
    cbn [mbind res_bind]. eexists. split; [reflexivity|]. split.
    + apply game_inv_current; auto. subst q. destruct ok; simpl; lia.
    + cbn. repeat split; auto; lia.
  - destruct (rotate_piece_result g cur cw Hwf Hcur Hvalid)
      as (q & ok & -> & Hq & Hyq & _).
    cbn [mbind res_bind]. eexists. split; [reflexivity|]. split.
    + apply game_inv_current; auto. lia.
    + cbn. repeat split; auto; lia.
  - destruct (soft_drop_result g cur Hwf Hcur Hvalid)
      as (q & ok & -> & Hq & Hqeq).
    cbn [mbind res_bind]. eexists. split; [reflexivity|].
    assert (H01 : 0 <= (if ok then SCORE_SOFT_DROP else 0))
      by (destruct ok; unfold SCORE_SOFT_DROP; lia).
    split.
    + apply game_inv_piece; auto; [|lia]. subst q. destruct ok; simpl; lia.
    + cbn. repeat split; auto; lia.
  - destruct (hard_drop_loop_spec (Z.to_nat (height (board g) - y cur)) g cur 0
                Hwf Hcur Ho Hp Hvalid) as (r & Hr & Hval & _ & Hloop); [lia|].
    unfold hard_drop. rewrite Hcur, Ho, Hp. cbn [orb].
    rewrite (Hloop fuel).
    2:{ rewrite Hh. unfold BOARD_HEIGHT in *. lia. }
    cbn [mbind res_bind].
    set (gm := set_score (set_current_piece g (Some (set_y cur r)))
                 (score (set_current_piece g (Some (set_y cur r)))
                  + (0 + (r - y cur)) * 2)).
    assert (Hgm : game_inv gm).
    { apply game_inv_piece; auto; [simpl; lia | apply Hval; lia | cbn; lia]. }
    destruct (lock_piece_inv gm Hgm) as (g' & -> & Hinv' & _ & Hs & Hl & Hlv & Hgo).
    exists g'. split; [reflexivity|]. split; [exact Hinv'|].
    cbn in Hs, Hl, Hlv, Hgo. repeat split; auto; try lia; discriminate.
  - unfold update. rewrite Ho, Hp. cbn [orb].
    destruct (t - last_fall_time g >=? fall_speed g);
      [|rewrite Ho in Hsame; exact Hsame].
    destruct (move_piece_active g 0 1 cur Hwf Hcur Ho Hp) as [[E ->]|[E ->]];
      cbn [mbind res_bind].
    + eexists. split; [reflexivity|]. split.
      * eapply game_inv_ext;
          [..|apply (game_inv_current g (move cur 0 1)); auto; simpl; lia];
          reflexivity.
      * cbn. repeat split; auto; try lia; discriminate.
    + destruct (lock_piece_inv g Hinv) as (g' & -> & Hinv' & _ & Hs & Hl & Hlv & Hgo).
      cbn [mbind res_bind]. eexists. split; [reflexivity|]. split.
      * eapply game_inv_ext; [..|exact Hinv']; reflexivity.
      * cbn. repeat split; auto; discriminate.
  - eexists. split; [reflexivity|]. split.
    + eapply game_inv_ext; [..|exact Hinv]; reflexivity.
    + cbn. repeat split; auto; lia.
Qed.

Lemma run_ops_inv (ops : list Op) g :
  game_inv g -> Forall playable ops ->
  exists g', run_ops shuffle fall_speed_at g ops = Ok g' /\ game_inv g' /\
    score g <= score g' /\ lines_cleared g <= lines_cleared g' /\
    level g <= level g' /\ (game_over g = true -> game_over g' = true).
Proof.
  revert g. induction ops as [|o rest IH]; intros g Hinv Hplay.
  { exists g. split; [reflexivity|]. split; [exact Hinv|].
    repeat split; auto; lia. }
  apply Forall_cons in Hplay as [Ho Hrest]. cbn [run_ops].
  destruct (run_op_inv g o Hinv Ho) as (g1 & -> & Hinv1 & Hs1 & Hl1 & Hv1 & Hg1).
  cbn [mbind res_bind].
  destruct (IH g1 Hinv1 Hrest) as (g' & E & Hinv' & Hs & Hl & Hv & Hg).
  exists g'. split; [exact E|]. split; [exact Hinv'|].
  repeat split; auto; lia.
Qed.

(** X15: from a session that satisfies the invariant [game_inv] (a
    well-formed 10 x 20 board, a current piece at or below row 0 that is
    valid unless the game is over, a next piece, the two line counters in
    step, the level equal to 1 plus a tenth of the lines, a score that is
    not negative), every sequence of moves that do not go up, rotations,
    soft drops, hard drops with more than 20 loop iterations allowed,
    gravity updates and pause toggles runs to the end without raising, and
    the session it leaves satisfies the invariant again. *)
Theorem run_ops_keeps_invariant g (ops : list Op) :
  game_inv g -> Forall playable ops ->
  exists g', run_ops shuffle fall_speed_at g ops = Ok g' /\ game_inv g'.
Proof.
  intros Hinv Hplay.
  destruct (run_ops_inv ops g Hinv Hplay) as (g' & E & Hinv' & _). eauto.
Qed.

(** X16: along every such sequence of operations the score, the number of
    lines cleared and the level never decrease, and a game that is over
    stays over. *)
Theorem run_ops_monotone g (ops : list Op) (g' : TetrisGame RNG) :
  game_inv g -> Forall playable ops ->
  run_ops shuffle fall_speed_at g ops = Ok g' ->
  score g <= score g' /\ lines_cleared g <= lines_cleared g' /\
  level g <= level g' /\ (game_over g = true -> game_over g' = true).
Proof.
  intros Hinv Hplay E.
  destruct (run_ops_inv ops g Hinv Hplay) as (g1 & E1 & _ & H).
  rewrite E in E1. inversion E1; subst g1. exact H.
Qed.

Lemma refill_bag_last_three (r : RNG) :
  exists r1 rest k3 k2 k1,
    refill_bag shuffle r = (r1, mkGenerator (((rest ++ [k3]) ++ [k2]) ++ [k1])) /\
    Permutation PIECE_TYPES (rest ++ [k3; k2; k1]) /\
    length rest = 4%nat /\ k1 <> k2 /\ k1 <> k3 /\ k2 <> k3.
Proof.
  pose proof (refill_bag_perm shuffle shuffle_perm r) as Hp.
  destruct (refill_bag shuffle r) as [r1 [bag1]]. cbn [snd bag] in Hp.
  pose proof (Permutation_length Hp) as Hlen. cbn [PIECE_TYPES length] in Hlen.
  destruct (nonempty_snoc bag1) as (l1 & k1 & ->); [now intros ->|].
  rewrite length_app in Hlen. cbn [length] in Hlen.
  destruct (nonempty_snoc l1) as (l2 & k2 & ->); [intros ->; simpl in *; lia|].
  rewrite length_app in Hlen. cbn [length] in Hlen.
  destruct (nonempty_snoc l2) as (rest & k3 & ->); [intros ->; simpl in *; lia|].
  rewrite length_app in Hlen. cbn [length] in Hlen.
  exists r1, rest, k3, k2, k1. split; [reflexivity|].
  rewrite <- !app_assoc in Hp. cbn [app] in Hp. split; [exact Hp|].
  split; [lia|].
  assert (Hnd : List.NoDup (rest ++ [k3; k2; k1])).
  { eapply Permutation_NoDup; [exact Hp|].
    apply (NoDup_count_occ' Kind_eq_dec). intros k _.
    apply count_occ_PIECE_TYPES. }
  apply List.NoDup_app_remove_l in Hnd.
  inversion Hnd as [|? ? H3 Hnd2]; subst. inversion Hnd2 as [|? ? H2 _]; subst.
  repeat split; intros ->.
  - apply H2. now left.
  - apply H3. right. now left.
  - apply H3. now left.
Qed.

(** X17: whatever the random state, the constructor of [TetrisGame]
    returns without raising a session that satisfies the invariant
    [game_inv]: score 0, level 1, no lines, neither over nor paused, the
    empty 10 x 20 board, a current piece and a next piece of rotation 0 at
    column 4, row 0.  It draws three pieces from the fresh bag: the first
    is the current piece, the second is discarded (the constructor
    overwrites the next piece that [spawn_new_piece] has drawn), the third
    is the next piece; four types are left in the bag, and the current and
    the next piece have different types. *)
Theorem TetrisGame_init_spec (r : RNG) :
  exists g0 r1 rest k3 k2 k1,
    TetrisGame_init shuffle r = Ok g0 /\ game_inv g0 /\
    board g0 = Board_init BOARD_WIDTH BOARD_HEIGHT /\
    score g0 = 0 /\ level g0 = 1 /\ lines_cleared g0 = 0 /\
    game_over g0 = false /\ paused g0 = false /\
    fall_speed g0 = INITIAL_FALL_SPEED /\
    refill_bag shuffle r = (r1, mkGenerator (rest ++ [k3; k2; k1])) /\
    current_piece g0 = Some (BlockDrop_init k1 4 0) /\
    next_piece g0 = Some (BlockDrop_init k3 4 0) /\
    piece_generator g0 = mkGenerator rest /\ rng g0 = r1 /\
    length rest = 4%nat /\ k1 <> k3.
Proof.
  destruct (refill_bag_last_three r)
    as (r1 & rest & k3 & k2 & k1 & Er & Hp & Hlen & _ & H13 & _).
  assert (Hv : is_valid_position (Board_init BOARD_WIDTH BOARD_HEIGHT)
                 (BlockDrop_init k1 spawn_x 0) = Ok true).
  { apply valid_on_empty_board; vm_compute; discriminate. }
  eexists _, r1, rest, k3, k2, k1.
  unfold TetrisGame_init, Generator_init. rewrite Er.
  unfold spawn_new_piece. cbn [next_piece rng piece_generator].
  rewrite get_next_piece_snoc. cbn [mbind res_bind].
  rewrite get_next_piece_snoc. cbn [mbind res_bind].
  cbn [board set_pieces]. rewrite Hv. cbn [mbind res_bind].
  cbn [rng piece_generator set_pieces]. rewrite get_next_piece_snoc.
  cbn [mbind res_bind].
  split; [reflexivity|]. split.
  - unfold game_inv. cbn.
    split; [apply wf_Board_init|]. split; [reflexivity|]. split; [reflexivity|].
    split; [eexists; split; [reflexivity|]; split; [simpl; lia|]; intros _; exact Hv|].
    split; [eauto|]. repeat split; vm_compute; discriminate.
  - repeat split; auto. now rewrite <- !app_assoc.
Qed.

(** X18: [restart_game], called on a session with a 10 x 20 board and a
    next piece (it does not itself check that the game is over), returns
    without raising a session that satisfies the invariant: the board is
    empty, score, level and lines are back to 0, 1 and 0, the game is
    neither over nor paused, the fall interval is the initial one and the
    fall timestamp is kept.  The current piece is the next piece of the
    old session, with its type and rotation, at column 4, row 0.  The
    generator is a new one: two pieces are drawn from its fresh bag, the
    first is discarded and the second is the next piece, and five types are
    left in the bag. *)
Theorem restart_game_spec g (np : BlockDrop) :
  width (board g) = BOARD_WIDTH -> height (board g) = BOARD_HEIGHT ->
  next_piece g = Some np ->
  exists g' r1 rest k2 k1,
    restart_game shuffle g = Ok g' /\ game_inv g' /\
    board g' = Board_init BOARD_WIDTH BOARD_HEIGHT /\
    score g' = 0 /\ level g' = 1 /\ lines_cleared g' = 0 /\
    game_over g' = false /\ paused g' = false /\
    fall_speed g' = INITIAL_FALL_SPEED /\
    last_fall_time g' = last_fall_time g /\
    current_piece g' = Some (mkBlockDrop (piece_type np) 4 0 (rotation np)) /\
    refill_bag shuffle (rng g) = (r1, mkGenerator (rest ++ [k2; k1])) /\
    next_piece g' = Some (BlockDrop_init k2 4 0) /\
    piece_generator g' = mkGenerator rest /\ rng g' = r1 /\
    length rest = 5%nat.
Proof.
  intros Hw Hh Hnp.
  destruct (refill_bag_last_three (rng g))
    as (r1 & rest & k3 & k2 & k1 & Er & Hp & Hlen & _).
  assert (Hv : is_valid_position (Board_init BOARD_WIDTH BOARD_HEIGHT)
                 (set_y (set_x np spawn_x) 0) = Ok true).
  { apply valid_on_empty_board; vm_compute; discriminate. }
  eexists _, r1, (rest ++ [k3]), k2, k1.
  unfold restart_game, Generator_init. rewrite Er.
  unfold spawn_new_piece. cbn [next_piece rng piece_generator]. rewrite Hnp.
  cbn [mbind res_bind]. rewrite get_next_piece_snoc. cbn [mbind res_bind].
  cbn [board set_pieces]. unfold clear_board. rewrite Hw, Hh.
  change (mkBoard BOARD_WIDTH BOARD_HEIGHT (empty_grid BOARD_WIDTH BOARD_HEIGHT) 0)
    with (Board_init BOARD_WIDTH BOARD_HEIGHT).
  rewrite Hv. cbn [mbind res_bind].
  cbn [rng piece_generator set_pieces]. rewrite get_next_piece_snoc.
  cbn [mbind res_bind].
  split; [reflexivity|]. split.
  - unfold game_inv. cbn.
    split; [apply wf_Board_init|]. split; [reflexivity|]. split; [reflexivity|].
    split; [eexists; split; [reflexivity|]; split; [simpl; lia|]; intros _; exact Hv|].
    split; [eauto|]. repeat split; vm_compute; discriminate.
  - repeat split; auto.
    + now rewrite <- !app_assoc.
    + rewrite length_app. simpl. lia.
Qed.

End EngineInvariant.

(** ** More on the engine: gravity, spawning, topping out *)

Section EngineLifecycle.

Context {RNG : Type}.
Variable shuffle : RNG -> list Kind -> RNG * list Kind.
Variable fall_speed_at : Z -> Z.
Hypothesis shuffle_perm : forall r l, Permutation l (shuffle r l).2.

Implicit Types (g : TetrisGame RNG) (cur : BlockDrop).

(** X19: [spawn_new_piece] on a well-formed board returns without raising.
    The next piece becomes the current piece at column 4, row 0, with the
    type and the rotation it had (a piece is drawn in its place when there
    is no next piece); a new next piece of rotation 0 is drawn; the game is
    over afterwards exactly when it was over before or the new current
    piece is invalid on the board; board, score, level, lines and the pause
    flag are unchanged. *)
Theorem spawn_new_piece_spec g :
  wf_board (board g) ->
  exists g' cur' nx,
    spawn_new_piece shuffle g = Ok g' /\
    current_piece g' = Some cur' /\ x cur' = 4 /\ y cur' = 0 /\
    (forall np, next_piece g = Some np ->
       cur' = mkBlockDrop (piece_type np) 4 0 (rotation np)) /\
    (next_piece g = None -> rotation cur' = 0) /\
    next_piece g' = Some nx /\ nx = BlockDrop_init (piece_type nx) 4 0 /\
    (game_over g' = true <->
       game_over g = true \/ is_valid_position (board g) cur' = Ok false) /\
    board g' = board g /\ score g' = score g /\ level g' = level g /\
    lines_cleared g' = lines_cleared g /\ paused g' = paused g.
Proof.
  intros Hwf.
  destruct (spawn_new_piece_result shuffle shuffle_perm g Hwf)
    as (g' & cur' & nx & E & Hb & Hs & Hl & Hlc & Hp & _ & _ &
        Hcur & Hx & Hy & Hnx & Hnxeq & Hnp & Hnone & Hvt & Hvf).
  exists g', cur', nx. repeat split; auto.
  - intros Hgo. destruct (is_valid_position_total (board g) cur' Hwf) as [[|] Ev].
    + left. now rewrite <- (Hvt Ev).
    + now right.
  - intros [Hgo|Hinv]; [|now apply Hvf].
    destruct (is_valid_position_total (board g) cur' Hwf) as [[|] Ev].
    + now rewrite (Hvt Ev).
    + now apply Hvf.
Qed.

(** X20: in a running session that satisfies the invariant, [update] called
    before the fall interval has elapsed changes nothing; called at or
    after it, it sets the fall timestamp to the time of the call and
    either moves the piece down by exactly one row, whatever the time
    elapsed (the current piece of the game returned is the old one with
    its row one greater), leaving board and score as they were, or, when
    the piece cannot go down, returns what [lock_piece] returns, with its
    board, pieces, score and game-over flag. *)
Theorem update_gravity_step g cur (t : Z) :
  game_inv g -> current_piece g = Some cur ->
  game_over g = false -> paused g = false ->
  (t - last_fall_time g < fall_speed g ->
     update shuffle fall_speed_at g t = Ok g) /\
  (fall_speed g <= t - last_fall_time g ->
   exists g', update shuffle fall_speed_at g t = Ok g' /\
     last_fall_time g' = t /\
     (is_valid_position (board g) (move cur 0 1) = Ok true ->
        g' = set_last_fall_time (set_current_piece g (Some (move cur 0 1))) t /\
        current_piece g' =
          Some (mkBlockDrop (piece_type cur) (x cur) (y cur + 1)
                  (rotation cur)) /\
        board g' = board g /\ next_piece g' = next_piece g /\
        score g' = score g /\ level g' = level g /\
        lines_cleared g' = lines_cleared g /\
        game_over g' = false /\ paused g' = false) /\
     (is_valid_position (board g) (move cur 0 1) = Ok false ->
        exists g2, lock_piece shuffle fall_speed_at g = Ok g2 /\
                   g' = set_last_fall_time g2 t /\
                   board g' = board g2 /\
                   current_piece g' = current_piece g2 /\
                   next_piece g' = next_piece g2 /\
                   score g' = score g2 /\ level g' = level g2 /\
                   lines_cleared g' = lines_cleared g2 /\
                   game_over g' = game_over g2)).
Proof.
  intros Hinv Hcur Ho Hp. pose proof Hinv as (Hwf & _).
  unfold update. rewrite Ho, Hp. cbn [orb]. split.
  - intros Ht. destruct (Z.geb_spec (t - last_fall_time g) (fall_speed g));
      [lia | reflexivity].
  - intros Ht. destruct (Z.geb_spec (t - last_fall_time g) (fall_speed g));
      [|lia].
    destruct (move_piece_active g 0 1 cur Hwf Hcur Ho Hp) as [[E ->]|[E ->]];
      cbn [mbind res_bind].
    + eexists. split; [reflexivity|]. split; [reflexivity|].
      split; [|intros Hf; congruence].
      intros _. split; [reflexivity|].
      cbn [board current_piece next_piece score level lines_cleared game_over
           paused set_last_fall_time set_current_piece set_pieces].
      split; [unfold move; now rewrite Z.add_0_r|].
      rewrite Ho, Hp. now repeat split.
    + destruct (lock_piece_inv shuffle fall_speed_at shuffle_perm g Hinv)
        as (g2 & El & _).
      rewrite El. cbn [mbind res_bind]. eexists. split; [reflexivity|].
      split; [reflexivity|]. split; [intros Hv; congruence|].
      intros _. exists g2. split; [reflexivity|]. now split.
Qed.


End EngineLifecycle.

(** ** The input handler *)

Section InputFacts.

Context {RNG : Type}.
Variable shuffle : RNG -> list Kind -> RNG * list Kind.
Variable fall_speed_at : Z -> Z.
Variables K_UP K_x K_z K_SPACE K_p K_r K_LEFT K_RIGHT K_DOWN : Z.
Variable key_order : gset Z -> list Z.
Variable fuel : nat.

(** Listing a set yields each of its elements once, in some order. *)
Hypothesis key_order_perm : forall s, key_order s ≡ₚ elements s.

Implicit Types (g : TetrisGame RNG) (inp : InputState).

Local Abbreviation held_action := (held_key_action K_LEFT K_RIGHT K_DOWN).
Local Abbreviation repeat_held := (repeat_keys K_LEFT K_RIGHT K_DOWN).
Local Abbreviation press_action :=
  (key_down_action shuffle fall_speed_at K_UP K_x K_z K_SPACE K_p K_r fuel).
Local Abbreviation process_events :=
  (handle_events shuffle fall_speed_at K_UP K_x K_z K_SPACE K_p K_r fuel).
Local Abbreviation process_input :=
  (handle_input shuffle fall_speed_at K_UP K_x K_z K_SPACE K_p K_r
     K_LEFT K_RIGHT K_DOWN key_order fuel).

Lemma move_piece_total g (dx dy : Z) :
  wf_board (board g) ->
  exists (q : option BlockDrop) (ok : bool),
    move_piece g dx dy = Ok (set_current_piece g q, ok).
Proof.
  intros Hwf. unfold move_piece.
  assert (Hsame : set_current_piece g (current_piece g) = g) by now destruct g.
  destruct (current_piece g) as [cur|] eqn:Hcur.
  2:{ exists None, false. now rewrite Hsame. }
  destruct (game_over g || paused g).
  { exists (Some cur), false. now rewrite Hsame. }
  destruct (is_valid_position_total (board g) (move (copy cur) dx dy) Hwf)
    as [[|] ->]; cbn [mbind res_bind].
  - eexists _, true. reflexivity.
  - exists (Some cur), false. now rewrite Hsame.
Qed.

Lemma held_key_action_total g (key : Z) :
  wf_board (board g) ->
  exists g1, held_action g key = Ok g1 /\
    board g1 = board g /\ paused g1 = paused g /\ game_over g1 = game_over g.
Proof.
  intros Hwf. unfold held_key_action, soft_drop.
  destruct (key =? K_LEFT); [|destruct (key =? K_RIGHT); [|destruct (key =? K_DOWN)]].
  - destruct (move_piece_total g (-1) 0 Hwf) as (q & ok & ->). eexists.
    split; [reflexivity|]. repeat split.
  - destruct (move_piece_total g 1 0 Hwf) as (q & ok & ->). eexists.
    split; [reflexivity|]. repeat split.
  - destruct (move_piece_total g 0 1 Hwf) as (q & ok & ->).
    cbn [mbind res_bind]. destruct ok; eexists; (split; [reflexivity|]);
      repeat split.
  - exists g. repeat split.
Qed.

(** The loop over the held keys, on a list of different keys. *)
Lemma repeat_keys_timers (t : Z) (keys : list Z) g inp :
  wf_board (board g) -> NoDup keys ->
  exists g' timers',
    repeat_held t (g, inp) keys = Ok (g', mkInput (keys_pressed inp) timers') /\
    board g' = board g /\ paused g' = paused g /\ game_over g' = game_over g /\
    forall k, timers' !! k =
      match key_repeat_timers inp !! k with
      | Some due => if decide (k ∈ keys /\ due <= t)
                    then Some (t + MOVE_REPEAT_INTERVAL) else Some due
      | None => None
      end.
Proof.
  intros Hwf Hnd. revert g inp Hwf.
  induction Hnd as [|key rest Hnotin Hnd IH]; intros g inp Hwf.
  { exists g, (key_repeat_timers inp). split; [now destruct inp|].
    repeat split. intros k. destruct (key_repeat_timers inp !! k); [|reflexivity].
    rewrite decide_False; [reflexivity|]. intros [H _]. inversion H. }
  cbn [repeat_keys repeat_key].
  destruct (key_repeat_timers inp !! key) as [due|] eqn:Hdue.
  - destruct (Z.geb_spec t due) as [Hge|Hlt].
    + destruct (held_key_action_total g key Hwf) as (g1 & -> & Hb1 & Hp1 & Ho1).
      cbn [mbind res_bind].
      destruct (IH g1 (mkInput (keys_pressed inp)
                  (<[key:=t + MOVE_REPEAT_INTERVAL]> (key_repeat_timers inp))))
        as (g' & tm & -> & Hb & Hp & Ho & Htm); [now rewrite Hb1|].
      exists g', tm. split; [reflexivity|].
      split; [congruence|]. split; [congruence|]. split; [congruence|].
      intros k. rewrite Htm. cbn [key_repeat_timers].
      destruct (decide (k = key)) as [->|Hne].
      * rewrite lookup_insert_eq, Hdue.
        rewrite decide_False by (intros [H _]; contradiction).
        rewrite decide_True; [reflexivity|]. split; [apply list_elem_of_here | lia].
      * rewrite lookup_insert_ne by auto.
        destruct (key_repeat_timers inp !! k) as [d|]; [|reflexivity].
        destruct (decide (k ∈ rest /\ d <= t)) as [[H1 H2]|Hn].
        -- rewrite decide_True; [reflexivity|].
           split; [now apply list_elem_of_further | exact H2].
        -- rewrite decide_False; [reflexivity|]. intros [H1 H2]. apply Hn.
           apply elem_of_cons in H1 as [?|?]; [contradiction | auto].
    + cbn [mbind res_bind].
      destruct (IH g inp Hwf) as (g' & tm & -> & Hb & Hp & Ho & Htm).
      exists g', tm. split; [reflexivity|]. repeat split; auto.
      intros k. rewrite Htm.
      destruct (key_repeat_timers inp !! k) as [d|] eqn:Hk; [|reflexivity].
      destruct (decide (k ∈ rest /\ d <= t)) as [[H1 H2]|Hn].
      * rewrite decide_True; [reflexivity|].
        split; [now apply list_elem_of_further | exact H2].
      * rewrite decide_False; [reflexivity|]. intros [H1 H2]. apply Hn.
        apply elem_of_cons in H1 as [->|?]; [|auto].
        rewrite Hdue in Hk. inversion Hk; subst. lia.
  - cbn [mbind res_bind].
    destruct (IH g inp Hwf) as (g' & tm & -> & Hb & Hp & Ho & Htm).
    exists g', tm. split; [reflexivity|]. repeat split; auto.
    intros k. rewrite Htm.
    destruct (key_repeat_timers inp !! k) as [d|] eqn:Hk; [|reflexivity].
    destruct (decide (k ∈ rest /\ d <= t)) as [[H1 H2]|Hn].
    + rewrite decide_True; [reflexivity|].
      split; [now apply list_elem_of_further | exact H2].
    + rewrite decide_False; [reflexivity|]. intros [H1 H2]. apply Hn.
      apply elem_of_cons in H1 as [->|?]; [|auto]. congruence.
Qed.

(** X22: a call of [handle_input] without events, in a session that is
    neither paused nor over and whose board is well formed, returns without
    raising and leaves the board and the set of held keys as they were;
    the repeat timer of every held key that is due (its time is not after
    the time of the call) is set to the time of the call plus
    [MOVE_REPEAT_INTERVAL], and every other timer is unchanged, whatever
    the order in which the held keys are visited. *)
Theorem handle_input_held_timers g inp (t : Z) :
  wf_board (board g) -> paused g = false -> game_over g = false ->
  exists g' inp',
    process_input (g, inp) [] t = Ok (g', inp') /\
    board g' = board g /\ keys_pressed inp' = keys_pressed inp /\
    forall k, key_repeat_timers inp' !! k =
      match key_repeat_timers inp !! k with
      | Some due => if decide (k ∈ keys_pressed inp /\ due <= t)
                    then Some (t + MOVE_REPEAT_INTERVAL) else Some due
      | None => None
      end.
Proof.
  intros Hwf Hp Ho. unfold handle_input.
  cbn [handle_events mbind res_bind]. rewrite Hp, Ho. cbn [negb andb].
  destruct (repeat_keys_timers t (key_order (keys_pressed inp)) g inp Hwf)
    as (g' & tm & E & Hb & _ & _ & Htm).
  { rewrite key_order_perm. apply NoDup_elements. }
  exists g', (mkInput (keys_pressed inp) tm). split; [exact E|].
  split; [exact Hb|]. split; [reflexivity|]. intros k. cbn [key_repeat_timers].
  rewrite Htm. destruct (key_repeat_timers inp !! k) as [d|]; [|reflexivity].
  assert (Hin : k ∈ key_order (keys_pressed inp) <-> k ∈ keys_pressed inp).
  { rewrite key_order_perm. apply elem_of_elements. }
  destruct (decide (k ∈ key_order (keys_pressed inp) /\ d <= t)) as [[H1 H2]|Hn].
  - rewrite decide_True; [reflexivity | tauto].
  - rewrite decide_False; [reflexivity | tauto].
Qed.

Lemma key_order_singleton (k : Z) : key_order {[k]} = [k].
Proof.
  pose proof (key_order_perm {[k]}) as H. rewrite elements_singleton in H.
  now apply Permutation_singleton_r in H.
Qed.

Lemma key_order_empty : key_order ∅ = [].
Proof.
  pose proof (key_order_perm ∅) as H. rewrite elements_empty in H.
  now apply Permutation_nil_r in H.
Qed.

(** X23: with one key held, no events, and a session that is neither
    paused nor over, [handle_input] does nothing before the repeat time of
    the key; at or after it, it performs the action of the key once and
    sets the repeat time to the time of the call plus
    [MOVE_REPEAT_INTERVAL].  The action of the left key is
    [move_piece(-1, 0)]; a key other than left, right and down has no
    repeated action (holding a rotation key does not rotate again). *)
Theorem held_key_repeats g inp (k due t : Z) :
  paused g = false -> game_over g = false ->
  keys_pressed inp = {[k]} -> key_repeat_timers inp !! k = Some due ->
  (t < due -> process_input (g, inp) [] t = Ok (g, inp)) /\
  (due <= t ->
     process_input (g, inp) [] t =
       g1 ← held_action g k;
       Ok (g1, mkInput (keys_pressed inp)
                 (<[k := t + MOVE_REPEAT_INTERVAL]> (key_repeat_timers inp)))) /\
  (held_action g K_LEFT = '(g1, _) ← move_piece g (-1) 0; Ok g1) /\
  (k <> K_LEFT -> k <> K_RIGHT -> k <> K_DOWN -> held_action g k = Ok g).
Proof.
  intros Hp Ho Hkeys Hdue.
  assert (E : process_input (g, inp) [] t = repeat_held t (g, inp) [k]).
  { unfold handle_input. cbn [handle_events mbind res_bind].
    rewrite Hp, Ho. cbn [negb andb]. now rewrite Hkeys, key_order_singleton. }
  rewrite E. cbn [repeat_keys repeat_key]. rewrite Hdue.
  split; [|split; [|split]].
  - intros Ht. destruct (Z.geb_spec t due); [lia | reflexivity].
  - intros Ht. destruct (Z.geb_spec t due); [|lia].
    destruct (held_action g k) as [g1| |]; reflexivity.
  - unfold held_key_action. now rewrite Z.eqb_refl.
  - intros H1 H2 H3. unfold held_key_action.
    apply Z.eqb_neq in H1, H2, H3. now rewrite H1, H2, H3.
Qed.

(** X24: with no other key held, pressing a key that has no immediate
    action (it is none of the rotation, hard-drop, pause and restart keys;
    the left, right and down keys of pygame are such keys) leaves the game
    as it is in the call that sees the press: the key is recorded as held
    and its repeat time is set [MOVE_REPEAT_DELAY] after the call, so the
    piece does not move yet.  Releasing the key in the next call, whenever
    it comes, removes both records and leaves the game as it is again: a
    key pressed and released in two consecutive calls never moves the
    piece. *)
Theorem key_tap_moves_nothing g (k t t' : Z) :
  k <> K_UP -> k <> K_x -> k <> K_z -> k <> K_SPACE -> k <> K_p -> k <> K_r ->
  process_input (g, mkInput ∅ ∅) [KEYDOWN k] t =
    Ok (g, mkInput {[k]} {[k := t + MOVE_REPEAT_DELAY]}) /\
  process_input (g, mkInput {[k]} {[k := t + MOVE_REPEAT_DELAY]}) [KEYUP k] t' =
    Ok (g, mkInput ∅ ∅).
Proof.
  intros H1 H2 H3 H4 H5 H6.
  apply Z.eqb_neq in H1, H2, H3, H4, H5, H6. split.
  - unfold handle_input. cbn [handle_events handle_event mbind res_bind].
    unfold key_down_action. rewrite H1, H2, H3, H4, H5, H6.
    cbn [orb andb mbind res_bind keys_pressed key_repeat_timers].
    rewrite (right_id_L ∅ (∪) {[k]}), insert_empty.
    destruct (negb (paused g) && negb (game_over g)); [|reflexivity].
    rewrite key_order_singleton. cbn [repeat_keys repeat_key key_repeat_timers].
    rewrite lookup_singleton_eq.
    destruct (Z.geb_spec t (t + MOVE_REPEAT_DELAY)) as [Hge|_]; [|reflexivity].
    unfold MOVE_REPEAT_DELAY in Hge. lia.
  - unfold handle_input. cbn [handle_events handle_event mbind res_bind].
    cbn [keys_pressed key_repeat_timers].
    rewrite difference_diag_L, delete_singleton_eq.
    destruct (negb (paused g) && negb (game_over g)); [|reflexivity].
    rewrite key_order_empty. reflexivity.
Qed.

Lemma press_action_game_over g (key : Z) :
  game_over g = true -> key <> K_r ->
  exists g', press_action g key = Ok g' /\ game_over g' = true /\
    board g' = board g /\ current_piece g' = current_piece g /\
    score g' = score g /\ level g' = level g.
Proof.
  intros Ho Hk. unfold key_down_action. apply Z.eqb_neq in Hk.
  destruct ((key =? K_UP) || (key =? K_x)).
  { rewrite rotate_piece_blocked by auto. exists g. repeat split; auto. }
  destruct (key =? K_z).
  { rewrite rotate_piece_blocked by auto. exists g. repeat split; auto. }
  destruct (key =? K_SPACE).
  { rewrite hard_drop_blocked by auto. exists g. repeat split; auto. }
  destruct (key =? K_p).
  { eexists. split; [reflexivity|]. repeat split; auto. }
  rewrite Hk. exists g. repeat split; auto.
Qed.

Lemma process_events_game_over (t : Z) (events : list Event) g inp :
  game_over g = true -> Forall (fun e => e <> KEYDOWN K_r) events ->
  exists g' inp', process_events t (g, inp) events = Ok (g', inp') /\
    game_over g' = true /\
    board g' = board g /\ current_piece g' = current_piece g /\
    score g' = score g /\ level g' = level g.
Proof.
  intros Ho Hev. revert g inp Ho.
  induction Hev as [|e rest He _ IH]; intros g inp Ho.
  { exists g, inp. repeat split; auto. }
  cbn [handle_events].
  assert (Hstep : exists g1 inp1,
            handle_event shuffle fall_speed_at K_UP K_x K_z K_SPACE K_p K_r fuel
              t (g, inp) e = Ok (g1, inp1) /\ game_over g1 = true /\
            board g1 = board g /\ current_piece g1 = current_piece g /\
            score g1 = score g /\ level g1 = level g).
  { destruct e as [key|key|]; cbn [handle_event].
    - destruct (press_action_game_over g key Ho) as (g1 & -> & H); [congruence|].
      cbn [mbind res_bind]. eexists _, _. split; [reflexivity | exact H].
    - eexists _, _. split; [reflexivity|]. repeat split; auto.
    - eexists _, _. split; [reflexivity|]. repeat split; auto. }
  destruct Hstep as (g1 & inp1 & -> & Ho1 & Hb1 & Hc1 & Hs1 & Hl1).
  cbn [mbind res_bind].
  destruct (IH g1 inp1 Ho1) as (g' & inp' & -> & Ho' & Hb & Hc & Hs & Hl).
  exists g', inp'. repeat split; auto; congruence.
Qed.

(** The loop over the events leaves alone the records of the keys that no
    event names. *)
Lemma process_events_other_keys (t : Z) (events : list Event) g inp g' inp'
    (k : Z) :
  process_events t (g, inp) events = Ok (g', inp') ->
  Forall (fun e => e <> KEYDOWN k /\ e <> KEYUP k) events ->
  key_repeat_timers inp' !! k = key_repeat_timers inp !! k /\
  (k ∈ keys_pressed inp' <-> k ∈ keys_pressed inp).
Proof using Type.
  intros E Hev. revert g inp E.
  induction Hev as [|e rest [Hd Hu] _ IH]; intros g inp E.
  { cbn [handle_events] in E. inversion E; subst. split; reflexivity. }
  cbn [handle_events] in E.
  apply bind_eq_Ok in E as ([g1 inp1] & E1 & E2).
  destruct (IH g1 inp1 E2) as [Ht Hs]. rewrite Ht, Hs. clear IH E2 Ht Hs.
  destruct e as [key|key|]; cbn [handle_event] in E1.
  - apply bind_eq_Ok in E1 as (g2 & _ & E1). inversion E1; subst.
    assert (Hne : key <> k) by congruence.
    cbn [key_repeat_timers keys_pressed]. split.
    + now apply lookup_insert_ne.
    + rewrite elem_of_union, elem_of_singleton.
      split; [intros [Heq|Hin]; [congruence | exact Hin] | now right].
  - inversion E1; subst. assert (Hne : key <> k) by congruence.
    cbn [key_repeat_timers keys_pressed]. split.
    + now apply lookup_delete_ne.
    + rewrite elem_of_difference, elem_of_singleton.
      split; [now intros [Hin _] | intros Hin; split; [exact Hin | congruence]].
  - inversion E1; subst. split; reflexivity.
Qed.

(** X25: when the game is over, a call of [handle_input] whose events
    contain no press of the restart key returns without raising, and
    leaves the game over with the board, the current piece, the score and
    the level it had.  Held keys are not repeated, whatever their repeat
    times: a key that no event of the call names is held afterwards exactly
    if it was held before, with the repeat time it had, and a call without
    events returns the game and the input state as they were.  The restart
    key (when its code differs from those of the rotation, hard-drop and
    pause keys) does what [restart_game] does when the game is over, and
    nothing when it is not. *)
Theorem handle_input_game_over g inp (events : list Event) (t : Z) :
  game_over g = true ->
  (Forall (fun e => e <> KEYDOWN K_r) events ->
   exists g' inp', process_input (g, inp) events t = Ok (g', inp') /\
     game_over g' = true /\
     board g' = board g /\ current_piece g' = current_piece g /\
     score g' = score g /\ level g' = level g /\
     (forall k, Forall (fun e => e <> KEYDOWN k /\ e <> KEYUP k) events ->
        key_repeat_timers inp' !! k = key_repeat_timers inp !! k /\
        (k ∈ keys_pressed inp' <-> k ∈ keys_pressed inp))) /\
  process_input (g, inp) [] t = Ok (g, inp) /\
  (K_r <> K_UP -> K_r <> K_x -> K_r <> K_z -> K_r <> K_SPACE -> K_r <> K_p ->
   press_action g K_r = restart_game shuffle g /\
   forall g0 : TetrisGame RNG,
     game_over g0 = false -> press_action g0 K_r = Ok g0).
Proof.
  intros Ho. split; [|split].
  - intros Hev.
    destruct (process_events_game_over t events g inp Ho Hev)
      as (g' & inp' & E & Ho' & Hb & Hc & Hs & Hl).
    exists g', inp'. unfold handle_input. rewrite E. cbn [mbind res_bind].
    rewrite Ho', andb_false_r.
    split; [reflexivity|]. split; [reflexivity|]. split; [exact Hb|].
    split; [exact Hc|]. split; [exact Hs|]. split; [exact Hl|].
    intros k Hk. exact (process_events_other_keys t events g inp g' inp' k E Hk).
  - unfold handle_input. cbn [handle_events mbind res_bind].
    now rewrite Ho, andb_false_r.
  - intros H1 H2 H3 H4 H5. apply Z.eqb_neq in H1, H2, H3, H4, H5.
    unfold key_down_action. rewrite H1, H2, H3, H4, H5, Z.eqb_refl.
    cbn [orb andb]. split; [now rewrite Ho|]. intros g0 Hg0. now rewrite Hg0.
Qed.

End InputFacts.

(** ** The further statements at sample inputs *)

Lemma wf_overhang_board : wf_board overhang_board.
Proof. split; [reflexivity|]. vm_compute. repeat constructor. Qed.

Lemma wf_four_rows_board : wf_board four_rows_board.
Proof. split; [reflexivity|]. vm_compute. repeat constructor. Qed.

Lemma wf_two_full_rows_board : wf_board two_full_rows_board.
Proof. split; [reflexivity|]. vm_compute. repeat constructor. Qed.

Lemma wf_holey_board : wf_board holey_board.
Proof. split; [reflexivity|]. vm_compute. repeat constructor. Qed.

Lemma game_inv_session (b : Board) (cur : BlockDrop) :
  wf_board b -> width b = 10 -> height b = 20 -> cleared_lines b = 0 ->
  0 <= y cur -> is_valid_position b cur = Ok true ->
  game_inv (session b cur 1).
Proof.
  intros Hwf Hw Hh Hc Hy Hv. unfold game_inv, session. cbn.
  split; [exact Hwf|]. split; [exact Hw|]. split; [exact Hh|].
  split; [exists cur; auto|]. split; [eauto|].
  rewrite Hc. repeat split; vm_compute; discriminate.
Qed.

Lemma game_inv_wall_session : game_inv wall_session.
Proof.
  apply game_inv_session; try reflexivity.
  - apply wf_Board_init.
  - vm_compute. discriminate.
Qed.


(** The top row of the small board with holes is free. *)
Lemma is_game_over_spec_witness :
  exists v, is_game_over holey_board = Ok v /\
    (v = true <-> exists cx, 0 <= cx < width holey_board /\
                             occupied holey_board cx 0).
Proof.
  apply (proj1 (is_game_over_spec holey_board wf_holey_board)). reflexivity.
Defined.

(** Two completed rows are counted on the board of the failing input. *)
Lemma clear_lines_returns_count_witness :
  exists b' n, clear_lines two_full_rows_board = Ok (b', n) /\
    n = completed_rows (grid two_full_rows_board) /\
    0 <= n <= Z.max 0 (height two_full_rows_board) /\
    cleared_lines b' = cleared_lines two_full_rows_board + n /\
    wf_board b' /\ width b' = width two_full_rows_board /\
    height b' = height two_full_rows_board.
Proof.
  apply (clear_lines_returns_count two_full_rows_board wf_two_full_rows_board).
Defined.

(** The board with the overhang has no completed row. *)
Lemma clear_lines_zero_or_one_witness :
  clear_lines overhang_board = Ok (overhang_board, 0).
Proof.
  apply (proj1 (clear_lines_zero_or_one overhang_board wf_overhang_board)).
  reflexivity.
Defined.

(** A board of width 0 and height 5. *)
Lemma clear_lines_zero_width_witness :
  clear_lines (Board_init 0 5) =
    Ok (mkBoard 0 5 (grid (Board_init 0 5)) (0 + Z.max 0 5), Z.max 0 5).
Proof.
  apply (clear_lines_zero_width (Board_init 0 5) (wf_Board_init 0 5)).
  simpl. lia.
Defined.

(** The long piece locked into the free column collides with itself. *)
Lemma place_piece_then_collides_witness :
  exists b', place_piece four_rows_board upright_in_gap = Ok (b', true) /\
             is_valid_position b' upright_in_gap = Ok false.
Proof.
  destruct (place_piece four_rows_board upright_in_gap) as [[b' ok]| |] eqn:E;
    try (vm_compute in E; discriminate).
  assert (ok = true) by (vm_compute in E; congruence). subst ok.
  exists b'. split; [reflexivity|].
  destruct (place_piece_then_collides four_rows_board b' upright_in_gap
              wf_four_rows_board E) as (cells & Ec & Hcol & _).
  apply Hcol. vm_compute in Ec. inversion Ec; subst cells.
  apply Exists_cons_hd. simpl. lia.
Defined.

(** The upright long piece above the full column is valid and cannot go
    down: its shadow is the piece itself, all of it above the board. *)
Lemma shadow_above_the_board :
  wf_board full_column_board /\
  is_valid_position full_column_board upright_over_column = Ok true /\
  get_drop_position 25 full_column_board upright_over_column = Ok (-4) /\
  get_shadow_cells 25 full_column_board upright_over_column =
    Ok [(5, -4); (5, -3); (5, -2); (5, -1)].
Proof.
  split; [|split; [|split]]; try (vm_compute; reflexivity).
  split; [reflexivity|]. vm_compute. repeat constructor.
Qed.

(** The shadow of the O piece over the bar of the overhang lies on the bar,
    inside the board, in empty cells. *)
Lemma get_shadow_cells_spec_witness :
  exists r cells shadow,
    get_cells (BlockDrop_init KO 0 0) = Ok cells /\
    get_shadow_cells 21 overhang_board (BlockDrop_init KO 0 0) = Ok shadow /\
    shadow = map (fun c => (c.1, c.2 + (r - 0))) cells /\
    is_valid_position overhang_board (set_y (BlockDrop_init KO 0 0) r) = Ok true /\
    Forall (fun c => 0 <= c.1 < 10 /\ 0 <= c.2 < 20 /\
                     get_cell_type overhang_board c.1 c.2 = Ok None) shadow.
Proof.
  destruct (get_shadow_cells_spec overhang_board (BlockDrop_init KO 0 0)
              wf_overhang_board) as (r & cells & shadow & Ec & Hf & Hs & Hv & _).
  exists r, cells, shadow. split; [exact Ec|].
  split; [apply Hf; vm_compute; lia|]. split; [exact Hs|].
  destruct Hv as (_ & Hvr & _ & _ & Hin); [vm_compute; reflexivity|].
  split; [exact Hvr|]. apply Hin.
  vm_compute in Ec. inversion Ec; subst cells.
  repeat (apply Forall_cons_2; [cbn [snd]; lia|]). apply Forall_nil_2.
Defined.

(** The small board has three holes. *)
Lemma count_holes_spec_witness : count_holes holey_board = Ok 3.
Proof.
  rewrite (proj1 (count_holes_spec holey_board wf_holey_board)).
  vm_compute. reflexivity.
Defined.

(** Clearing the board of the failing input. *)
Lemma clear_board_is_empty_witness :
  is_game_over (clear_board two_full_rows_board) = Ok false /\
  count_holes (clear_board two_full_rows_board) = Ok 0.
Proof.
  destruct (clear_board_is_empty two_full_rows_board)
    as (_ & _ & _ & Hgo & _ & Hholes & _); [reflexivity | reflexivity |].
  split; [exact Hgo | exact Hholes].
Defined.

Lemma valid_upright_at_wall :
  is_valid_position (board wall_session) upright_at_wall = Ok true.
Proof. vm_compute. reflexivity. Qed.

(** The upright long piece at the left wall cannot move left. *)
Lemma moves_keep_piece_valid_witness :
  exists g', move_piece wall_session (-1) 0 = Ok (g', false) /\
    current_piece g' = Some upright_at_wall /\
    score g' = score wall_session /\ board g' = board wall_session.
Proof.
  destruct (proj1 (moves_keep_piece_valid wall_session upright_at_wall
                     (wf_Board_init _ _) eq_refl valid_upright_at_wall)
              (-1) 0)
    as (g' & q & ok & E & _ & Hc & Hs & (Hb & _) & Hv & Hq).
  destruct ok; subst q.
  - vm_compute in Hv. discriminate.
  - exists g'. split; [exact E|]. split; [exact Hc|]. split; [exact Hs | exact Hb].
Defined.

(** A hard drop of the upright long piece from row 5 of the empty board. *)
Lemma hard_drop_spec_witness :
  exists r g1, 5 <= r /\
    get_drop_position 30 (board wall_session) upright_at_wall = Ok r /\
    current_piece g1 = Some (mkBlockDrop KI (-2) r 1) /\
    score g1 = score wall_session + (r - 5) * 2 /\
    board g1 = board wall_session /\
    hard_drop reversing_shuffle exact_fall_speed 30 wall_session =
      lock_piece reversing_shuffle exact_fall_speed g1.
Proof.
  destruct (hard_drop_spec reversing_shuffle exact_fall_speed wall_session
              upright_at_wall (wf_Board_init _ _) eq_refl eq_refl eq_refl
              valid_upright_at_wall)
    as (r & g1 & Hr & _ & Hc & Hs & (Hb & _) & Hf).
  exists r, g1. split; [exact Hr|].
  destruct (Hf 30%nat ltac:(vm_compute; lia)) as [Hd Hh].
  split; [exact Hd|]. split; [exact Hc|]. split; [exact Hs|].
  split; [exact Hb | exact Hh].
Defined.

Lemma sample_ops_playable :
  Forall playable
    [OpMove 1 0; OpRotate true; OpSoftDrop; OpUpdate 600; OpPause; OpPause;
     OpHardDrop 30; OpMove (-1) 0; OpHardDrop 30].
Proof. repeat constructor; vm_compute; discriminate. Qed.

(** A short game: moves, a rotation, drops, a pause and two hard drops. *)
Lemma run_ops_keeps_invariant_witness :
  exists g', run_ops reversing_shuffle exact_fall_speed wall_session
               [OpMove 1 0; OpRotate true; OpSoftDrop; OpUpdate 600; OpPause;
                OpPause; OpHardDrop 30; OpMove (-1) 0; OpHardDrop 30] = Ok g' /\
             game_inv g'.
Proof.
  apply (run_ops_keeps_invariant reversing_shuffle exact_fall_speed
           reversing_shuffle_perm wall_session _ game_inv_wall_session
           sample_ops_playable).
Defined.

(** The same game: the score, the lines and the level have not gone down. *)
Lemma run_ops_monotone_witness :
  exists g', run_ops reversing_shuffle exact_fall_speed wall_session
               [OpMove 1 0; OpRotate true; OpSoftDrop; OpUpdate 600; OpPause;
                OpPause; OpHardDrop 30; OpMove (-1) 0; OpHardDrop 30] = Ok g' /\
             score wall_session <= score g' /\
             lines_cleared wall_session <= lines_cleared g' /\
             level wall_session <= level g'.
Proof.
  destruct (run_ops_inv reversing_shuffle exact_fall_speed
              reversing_shuffle_perm _ wall_session game_inv_wall_session
              sample_ops_playable) as (g' & E & _).
  exists g'. split; [exact E|].
  destruct (run_ops_monotone reversing_shuffle exact_fall_speed
              reversing_shuffle_perm wall_session _ g' game_inv_wall_session
              sample_ops_playable E) as (Hs & Hl & Hv & _).
  auto.
Defined.

(** The session that the constructor builds with the reversing shuffle. *)
Lemma TetrisGame_init_spec_witness :
  exists g0, TetrisGame_init reversing_shuffle tt = Ok g0 /\ game_inv g0 /\
             score g0 = 0 /\ level g0 = 1.
Proof.
  destruct (TetrisGame_init_spec reversing_shuffle reversing_shuffle_perm tt)
    as (g0 & r1 & rest & k3 & k2 & k1 & E & Hinv & _ & Hs & Hl & _).
  exists g0. auto.
Defined.

(** Restarting the finished session. *)
Lemma restart_game_spec_witness :
  exists g', restart_game reversing_shuffle ended_session = Ok g' /\
             game_inv g' /\ game_over g' = false /\
             current_piece g' = Some (mkBlockDrop KS 4 0 0).
Proof.
  destruct (restart_game_spec reversing_shuffle reversing_shuffle_perm
              ended_session (BlockDrop_init KS 4 0) eq_refl eq_refl eq_refl)
    as (g' & r1 & rest & k2 & k1 & E & Hinv & _ & _ & _ & _ & Hgo & _ & _ & _ &
        Hcur & _).
  exists g'. auto.
Defined.

(** Spawning in the session at the wall: the S piece becomes current. *)
Lemma spawn_new_piece_spec_witness :
  exists g' nx, spawn_new_piece reversing_shuffle wall_session = Ok g' /\
    current_piece g' = Some (mkBlockDrop KS 4 0 0) /\
    next_piece g' = Some nx.
Proof.
  destruct (spawn_new_piece_spec reversing_shuffle reversing_shuffle_perm
              wall_session (wf_Board_init _ _))
    as (g' & cur' & nx & E & Hcur & _ & _ & Hnp & _ & Hnx & _).
  exists g', nx. split; [exact E|]. split; [|exact Hnx].
  rewrite Hcur. f_equal. apply (Hnp (BlockDrop_init KS 4 0)). reflexivity.
Defined.

(** Gravity before and after the first fall interval of 500: the piece goes
    from row 5 to row 6. *)
Lemma update_gravity_step_witness :
  update reversing_shuffle exact_fall_speed wall_session 499 = Ok wall_session /\
  exists g', update reversing_shuffle exact_fall_speed wall_session 500 = Ok g' /\
             last_fall_time g' = 500 /\
             current_piece g' = Some (mkBlockDrop KI (-2) 6 1) /\
             board g' = board wall_session /\ score g' = score wall_session.
Proof.
  destruct (update_gravity_step reversing_shuffle exact_fall_speed
              reversing_shuffle_perm wall_session upright_at_wall 499
              game_inv_wall_session eq_refl eq_refl eq_refl) as (Hbefore & _).
  destruct (update_gravity_step reversing_shuffle exact_fall_speed
              reversing_shuffle_perm wall_session upright_at_wall 500
              game_inv_wall_session eq_refl eq_refl eq_refl) as (_ & Hafter).
  split; [apply Hbefore; vm_compute; reflexivity|].
  destruct Hafter as (g' & E & Ht & Hmove & _); [vm_compute; discriminate|].
  destruct Hmove as (_ & Hc & Hb & _ & Hs & _); [vm_compute; reflexivity|].
  exists g'. split; [exact E|]. split; [exact Ht|]. split; [exact Hc|].
  split; [exact Hb | exact Hs].
Defined.


Lemma elements_perm (s : gset Z) : elements s ≡ₚ elements s.
Proof. reflexivity. Qed.

(** The left key held and due at 650: a call at 700 sets its timer to 750. *)
Lemma handle_input_held_timers_witness :
  exists g' inp',
    sample_handle_input (wall_session, left_held) [] 700 = Ok (g', inp') /\
    key_repeat_timers inp' !! sample_K_LEFT = Some 750.
Proof.
  destruct (handle_input_held_timers reversing_shuffle exact_fall_speed
              sample_K_UP sample_K_x sample_K_z sample_K_SPACE sample_K_p
              sample_K_r sample_K_LEFT sample_K_RIGHT sample_K_DOWN elements 30
              elements_perm wall_session left_held 700
              (wf_Board_init _ _) eq_refl eq_refl)
    as (g' & inp' & E & _ & _ & Htm).
  exists g', inp'. split; [exact E|]. rewrite Htm.
  unfold left_held. cbn [key_repeat_timers keys_pressed].
  rewrite lookup_singleton_eq. rewrite decide_True; [reflexivity|].
  split; [apply elem_of_singleton; reflexivity | lia].
Defined.

(** The same key one millisecond before it is due: nothing happens. *)
Lemma held_key_repeats_witness :
  sample_handle_input (wall_session, left_held) [] 649 =
    Ok (wall_session, left_held).
Proof.
  apply (proj1 (held_key_repeats reversing_shuffle exact_fall_speed
                  sample_K_UP sample_K_x sample_K_z sample_K_SPACE sample_K_p
                  sample_K_r sample_K_LEFT sample_K_RIGHT sample_K_DOWN
                  elements 30 elements_perm wall_session left_held
                  sample_K_LEFT 650 649 eq_refl eq_refl eq_refl
                  (lookup_singleton_eq _ _))).
  lia.
Defined.

(** Pressing the left key at time 100 does not move the piece. *)
Lemma key_tap_moves_nothing_witness :
  sample_handle_input (wall_session, mkInput ∅ ∅) [KEYDOWN sample_K_LEFT] 100 =
    Ok (wall_session,
        mkInput {[sample_K_LEFT]} {[sample_K_LEFT := 100 + MOVE_REPEAT_DELAY]}).
Proof.
  apply (proj1 (key_tap_moves_nothing reversing_shuffle exact_fall_speed
                  sample_K_UP sample_K_x sample_K_z sample_K_SPACE sample_K_p
                  sample_K_r sample_K_LEFT sample_K_RIGHT sample_K_DOWN
                  elements 30 elements_perm wall_session sample_K_LEFT 100 200
                  ltac:(vm_compute; discriminate) ltac:(vm_compute; discriminate)
                  ltac:(vm_compute; discriminate) ltac:(vm_compute; discriminate)
                  ltac:(vm_compute; discriminate) ltac:(vm_compute; discriminate))).
Defined.

(** A finished session with the left key held and due: the rotation key
    and the hard-drop key do nothing to the board, and the left key is not
    repeated, its repeat time stays at 650. *)
Lemma handle_input_game_over_witness :
  exists g' inp',
    sample_handle_input (ended_session, left_held)
      [KEYDOWN sample_K_UP; KEYDOWN sample_K_SPACE; KEYUP sample_K_UP] 700 =
      Ok (g', inp') /\
    game_over g' = true /\ board g' = board ended_session /\
    current_piece g' = current_piece ended_session /\
    key_repeat_timers inp' !! sample_K_LEFT = Some 650.
Proof.
  destruct (proj1 (handle_input_game_over reversing_shuffle exact_fall_speed
              sample_K_UP sample_K_x sample_K_z sample_K_SPACE sample_K_p
              sample_K_r sample_K_LEFT sample_K_RIGHT sample_K_DOWN elements 30
              ended_session left_held
              [KEYDOWN sample_K_UP; KEYDOWN sample_K_SPACE; KEYUP sample_K_UP]
              700 eq_refl))
    as (g' & inp' & E & Hgo & Hb & Hc & _ & _ & Hk).
  { repeat constructor; discriminate. }
  exists g', inp'. split; [exact E|]. split; [exact Hgo|]. split; [exact Hb|].
  split; [exact Hc|].
  destruct (Hk sample_K_LEFT) as [Ht _].
  { repeat constructor; discriminate. }
  rewrite Ht. apply lookup_singleton_eq.
Defined.
